(** * WASO AI Agent: the live-voice core, the TTS guard and the session store

    A shallow embedding of
      - [components/LiveInterface.tsx]: [encode], [decode], [decodeAudioData],
        [stopSession], [startSession] with its [onopen] / [onaudioprocess] /
        [onmessage] / [onerror] / [onclose] callbacks, and the rendered
        start / stop / key controls;
      - [components/ChatInterface.tsx]: [handleSpeak];
      - [App.tsx]: the initializer of the [sessions] state.

    Numbers.  A JavaScript number is an IEEE-754 double.  The values that
    occur here are audio-clock readings, buffer durations and PCM samples;
    they are modelled as exact rationals [Q].  NaN, the infinities and the
    sign of zero are outside the model, and so is the rounding of [+] on the
    scheduling cursor.  The sample arithmetic is exact in the doubles as
    well: a float32 sample times [32768] and a 16-bit integer over
    [32768.0] are both representable, so on samples the model and the
    doubles agree. *)

From Stdlib Require Import ZArith QArith Qround Qminmax Qabs Qpower.
From Stdlib Require Import List String Ascii Bool Lia Lqa.
Import ListNotations.

Local Open Scope Z_scope.

(** ** Language-level conversions *)

Module JS.

(** The mathematical [truncate] of ECMAScript: the integer part of a
    number, rounding toward zero. *)
Definition truncate (x : Q) : Z := Z.quot (Qnum x) (Zpos (Qden x)).

(** [ToInt16], applied by every store into an [Int16Array]:
    truncate, reduce modulo 2^16, and read the result as two's complement. *)
Definition ToInt16 (x : Q) : Z :=
  let int16bit := (truncate x) mod 65536 in
  if 32768 <=? int16bit then int16bit - 65536 else int16bit.

(** [ToUint8], applied by every store into a [Uint8Array]. *)
Definition ToUint8 (x : Z) : Z := x mod 256.

(** The exponent of the binade of a positive rational:
    [2 ^ ilog2 x <= x < 2 ^ (ilog2 x + 1)]. *)
Definition ilog2 (x : Q) : Z :=
  let e := Z.log2 (Qnum x) - Z.log2 (Zpos (Qden x)) in
  if Qle_bool (2 ^ e)%Q x then e else e - 1.

(** Round to the nearest integer, ties to the even one. *)
Definition round_half_even (x : Q) : Z :=
  let f := Qfloor x in
  match (x - inject_Z f ?= 1 # 2)%Q with
  | Lt => f
  | Gt => f + 1
  | Eq => if Z.even f then f else f + 1
  end.

(** The store into a [Float32Array]: the nearest binary32 value (24-bit
    significand, exponents from -126, subnormals below).  Values that
    would overflow binary32 are not produced in this development. *)
Definition fround (x : Q) : Q :=
  if Qeq_bool x 0 then 0%Q
  else
    let a := Qabs x in
    let e := Z.max (ilog2 a) (-126) in
    let ulp := (2 ^ (e - 23))%Q in
    let m := round_half_even (a / ulp) in
    let r := (inject_Z m * ulp)%Q in
    if Qle_bool 0 x then r else (- r)%Q.

(** [Math.max] on two finite numbers. *)
Definition Math_max (a b : Q) : Q := Qmax a b.

(** [String.prototype.includes]. *)
Fixpoint includes (hay needle : string) : bool :=
  if String.prefix needle hay then true
  else match hay with
       | EmptyString => false
       | String _ rest => includes rest needle
       end.

(** A string-valued property under [if (...)]: absent and empty are
    both falsy. *)
Definition truthy (s : option string) : option string :=
  match s with
  | Some EmptyString => None
  | other => other
  end.

Inductive JsError : Type :=
| InvalidCharacterError
| RangeError
| NotSupportedError
| TypeError
| InvalidStateError
| SyntaxError
| Error (message : string).

(** The completion of a computation: a value or a thrown error. *)
Inductive completion (A : Type) : Type :=
| Normal (a : A)
| Throw (e : JsError).
Arguments Normal {A} a.
Arguments Throw {A} e.

(** Statements run on a state [S] and either complete or throw; what was
    written before a throw stays written. *)
Definition M (S A : Type) : Type := S -> completion A * S.

Definition ret {S A} (a : A) : M S A := fun w => (Normal a, w).
Definition throw {S A} (e : JsError) : M S A := fun w => (Throw e, w).
Definition bind {S A B} (c : M S A) (k : A -> M S B) : M S B :=
  fun w =>
    match c w with
    | (Normal a, w') => k a w'
    | (Throw e, w') => (Throw e, w')
    end.
Definition try_catch {S A} (body : M S A) (handler : JsError -> M S A)
    : M S A :=
  fun w =>
    match body w with
    | (Normal a, w') => (Normal a, w')
    | (Throw e, w') => handler e w'
    end.
Definition lift {S A} (c : completion A) : M S A := fun w => (c, w).
Definition read {S A} (f : S -> A) : M S A := fun w => (Normal (f w), w).
Definition write {S} (f : S -> S) : M S unit := fun w => (Normal tt, f w).

Declare Scope js_scope.
Delimit Scope js_scope with js.
Notation "x <- c ;; k" := (bind c (fun x => k))
  (at level 61, c at next level, right associativity) : js_scope.
Notation "c ;; k" := (bind c (fun _ => k))
  (at level 61, right associativity) : js_scope.

Fixpoint for_of {S A} (l : list A) (body : A -> M S unit) : M S unit :=
  match l with
  | [] => ret tt
  | x :: l' => bind (body x) (fun _ => for_of l' body)
  end.

End JS.

(** ** The platform's base64 codec: [btoa] and [atob]

  A JavaScript binary string is a string of characters with codes
  [0..255], here a [string]. *)

Module Base64.

Definition alphabet : list ascii :=
  list_ascii_of_string
    "ABCDEFGHIJKLMNOPQRSTUVWXYZabcdefghijklmnopqrstuvwxyz0123456789+/".

Definition digit (n : Z) : ascii := nth (Z.to_nat n) alphabet "A"%char.

Definition code (c : ascii) : Z := Z.of_N (N_of_ascii c).

Fixpoint index_from (i : Z) (c : ascii) (l : list ascii) : option Z :=
  match l with
  | [] => None
  | a :: l' => if Ascii.eqb a c then Some i else index_from (i + 1) c l'
  end.

(** The 6-bit value of a base64 digit, [None] outside the alphabet. *)
Definition value (c : ascii) : option Z := index_from 0 c alphabet.

Fixpoint btoa_chars (l : list ascii) : list ascii :=
  match l with
  | [] => []
  | [a] =>
      let n := code a * 65536 in
      [digit (n / 262144); digit ((n / 4096) mod 64); "="%char; "="%char]
  | [a; b] =>
      let n := code a * 65536 + code b * 256 in
      [digit (n / 262144); digit ((n / 4096) mod 64);
       digit ((n / 64) mod 64); "="%char]
  | a :: b :: c :: rest =>
      let n := code a * 65536 + code b * 256 + code c in
      digit (n / 262144) :: digit ((n / 4096) mod 64)
        :: digit ((n / 64) mod 64) :: digit (n mod 64) :: btoa_chars rest
  end.

Definition btoa (binary : string) : string :=
  string_of_list_ascii (btoa_chars (list_ascii_of_string binary)).

(** TAB, LF, FF, CR and SPACE are dropped by [atob] before decoding. *)
Definition is_ascii_whitespace (c : ascii) : bool :=
  let n := code c in
  (n =? 9) || (n =? 10) || (n =? 12) || (n =? 13) || (n =? 32).

(** With a length that is a multiple of four, one or two trailing [=]
    are removed. *)
Fixpoint drop_trailing_padding (l : list ascii) : list ascii :=
  match l with
  | [] => []
  | c :: rest =>
      match rest with
      | [] => if Ascii.eqb c "=" then [] else [c]
      | [d] =>
          if Ascii.eqb c "=" && Ascii.eqb d "=" then []
          else c :: drop_trailing_padding rest
      | _ => c :: drop_trailing_padding rest
      end
  end.

Definition strip_padding (l : list ascii) : list ascii :=
  if (Z.of_nat (List.length l)) mod 4 =? 0 then drop_trailing_padding l
  else l.

Fixpoint values (l : list ascii) : option (list Z) :=
  match l with
  | [] => Some []
  | c :: l' =>
      match value c, values l' with
      | Some v, Some vs => Some (v :: vs)
      | _, _ => None
      end
  end.

Fixpoint decode_groups (l : list Z) : list Z :=
  match l with
  | a :: b :: c :: d :: rest =>
      let n := ((a * 64 + b) * 64 + c) * 64 + d in
      n / 65536 :: (n / 256) mod 256 :: n mod 256 :: decode_groups rest
  | [a; b; c] =>
      let n := (a * 64 + b) * 64 + c in
      [n / 1024; (n / 4) mod 256]
  | [a; b] => [(a * 64 + b) / 16]
  | _ => []
  end.

(** [atob]: [None] stands for the [InvalidCharacterError] it throws. *)
Definition atob (data : string) : option string :=
  let l := filter (fun c => negb (is_ascii_whitespace c))
                  (list_ascii_of_string data) in
  let l := strip_padding l in
  if (Z.of_nat (List.length l)) mod 4 =? 1 then None
  else
    match values l with
    | None => None
    | Some vs =>
        Some (string_of_list_ascii
                (map (fun b => ascii_of_N (Z.to_N b)) (decode_groups vs)))
    end.

End Base64.

(** ** Typed arrays *)

Module TypedArray.

(** The bytes of an [Int16Array]'s buffer (little-endian, two's
    complement), as [new Uint8Array(int16.buffer)] sees them. *)
Definition bytes_of_int16 (x : Z) : list Z :=
  let u := x mod 65536 in [u mod 256; u / 256].

Definition Uint8Array_of_Int16Array (a : list Z) : list Z :=
  flat_map bytes_of_int16 a.

Definition int16_of_bytes (lo hi : Z) : Z :=
  let u := lo + 256 * hi in
  if 32768 <=? u then u - 65536 else u.

(** [new Int16Array(buffer)]: [None] stands for the [RangeError] thrown
    when the byte length is odd. *)
Fixpoint Int16Array_of_buffer (bytes : list Z) : option (list Z) :=
  match bytes with
  | [] => Some []
  | [_] => None
  | lo :: hi :: rest =>
      match Int16Array_of_buffer rest with
      | Some a => Some (int16_of_bytes lo hi :: a)
      | None => None
      end
  end.

End TypedArray.

(** ** Web Audio buffers *)

Module WebAudio.

Record AudioBuffer : Type := mkAudioBuffer {
  numberOfChannels : nat;
  length : nat;
  sampleRate : Z;
  channelData : list (list Q)
}.

Definition duration (b : AudioBuffer) : Q :=
  (inject_Z (Z.of_nat (length b)) / inject_Z (sampleRate b))%Q.

End WebAudio.

(** ** [components/LiveInterface.tsx] *)

Module LiveInterface.

Import JS TypedArray WebAudio.
Local Open Scope js_scope.

(** *** The helpers at the top of the file *)

Definition fromCharCode (b : Z) : string :=
  String (ascii_of_N (Z.to_N b)) EmptyString.

(** [encode]: the bytes become a binary string, which [btoa] encodes. *)
Definition encode (bytes : list Z) : string :=
  let binary :=
    fold_left (fun binary b => (binary ++ fromCharCode b)%string)
              bytes EmptyString in
  Base64.btoa binary.

(** [decode]: [atob], then one byte per character code. *)
Definition decode (base64 : string) : completion (list Z) :=
  match Base64.atob base64 with
  | None => Throw InvalidCharacterError
  | Some binaryString =>
      Normal (map (fun c => ToUint8 (Base64.code c))
                  (list_ascii_of_string binaryString))
  end.

(** One sample of the playback decode: [dataInt16[k] / 32768.0], stored
    into the [Float32Array] of the channel. *)
Definition decode_sample (x : Z) : Q := fround (inject_Z x / 32768)%Q.

(** [decodeAudioData].  [new Int16Array(data.buffer)] throws on an odd
    byte length and [ctx.createBuffer] on no channel or no frame;
    [frameCount] is the whole number of frames the buffer is created
    with. *)
Definition decodeAudioData (data : list Z) (sampleRate : Z)
    (numChannels : nat) : completion AudioBuffer :=
  match Int16Array_of_buffer data with
  | None => Throw RangeError
  | Some dataInt16 =>
      let frameCount := (List.length dataInt16 / numChannels)%nat in
      if ((numChannels =? 0) || (frameCount =? 0))%nat
      then Throw NotSupportedError
      else
        Normal
          (mkAudioBuffer numChannels frameCount sampleRate
             (map (fun channel =>
                     map (fun i =>
                            decode_sample
                              (nth (i * numChannels + channel) dataInt16 0))
                         (seq 0 frameCount))
                  (seq 0 numChannels)))
  end.

(** *** The component: React state, refs, and the calls it makes *)

(** What the component asks of the browser and of the remote service,
    in the order it asks.  [Connect] is the call of [ai.live.connect]: the
    promise it returns and the session that promise is fulfilled with
    carry one identity. *)
Inductive Call : Type :=
| NewAudioContext (ctx : nat) (rate : Z)
| CloseAudioContext (ctx : nat)
| Connect (session : nat)
| CloseSession (session : nat)
| SendRealtimeInput (session : nat) (data : string) (mimeType : string)
| StartSource (source : nat) (ctx : nat) (when : Q) (buffer : AudioBuffer)
| StopSource (source : nat)
| OpenSelectKey.

(** The page the component runs in: whether [window.aistudio] is there,
    and whether [process.env.API_KEY] is set. *)
Record Browser : Type := mkBrowser {
  aistudio : bool;
  API_KEY : bool
}.

(** Where a call of one of the component's [async] functions is
    suspended, with the locals it goes on with. *)
Inductive Await : Type :=
| AtCheckKey               (* [checkKey]: [hasSelectedApiKey()] *)
| AtOpenSelectKey          (* [handleOpenKeyDialog]: [openSelectKey()] *)
| AtHasSelectedApiKey      (* [startSession]: [hasSelectedApiKey()] *)
| AtGetUserMedia           (* [startSession]: [getUserMedia(...)] *)
| AtResumeInput (inputCtx outputCtx : nat)   (* [inputCtx.resume()] *)
| AtResumeOutput (inputCtx outputCtx : nat)  (* [outputCtx.resume()] *)
| AtSessionPromise (sessionPromise : nat).   (* [await sessionPromise] *)

(** How an awaited promise settles: fulfilled, [value] being the truth
    value of what it is fulfilled with, or rejected with an error of that
    name and message. *)
Inductive Answer : Type :=
| Resolves (value : bool)
| Rejects (name message : string).

Record World : Type := mkWorld {
  isActive : bool;
  isConnecting : bool;
  errorMsg : option string;
  needsKey : bool;
  audioContextRef : option nat;
  outputAudioContextRef : option nat;
  sessionRef : option nat;
  nextStartTimeRef : Q;
  sourcesRef : list nat;   (* a [Set], in insertion order *)
  calls : list Call;   (* oldest first *)
  fresh : nat;   (* the next object identity *)
  browser : Browser;   (* the page the component runs in *)
  awaiting : list (nat * Await);   (* the suspended calls, oldest first *)
  nextCall : nat;   (* the number of the next async call *)
  fulfilled : list nat;   (* the session promises fulfilled so far *)
  thens : list (nat * (string * string))   (* callbacks waiting on a session promise *)
}.

Definition with_isActive (v : bool) (w : World) : World :=
  mkWorld v (isConnecting w) (errorMsg w) (needsKey w) (audioContextRef w)
    (outputAudioContextRef w) (sessionRef w) (nextStartTimeRef w)
    (sourcesRef w) (calls w) (fresh w) (browser w) (awaiting w) (nextCall w)
    (fulfilled w) (thens w).
Definition with_isConnecting (v : bool) (w : World) : World :=
  mkWorld (isActive w) v (errorMsg w) (needsKey w) (audioContextRef w)
    (outputAudioContextRef w) (sessionRef w) (nextStartTimeRef w)
    (sourcesRef w) (calls w) (fresh w) (browser w) (awaiting w) (nextCall w)
    (fulfilled w) (thens w).
Definition with_errorMsg (v : option string) (w : World) : World :=
  mkWorld (isActive w) (isConnecting w) v (needsKey w) (audioContextRef w)
    (outputAudioContextRef w) (sessionRef w) (nextStartTimeRef w)
    (sourcesRef w) (calls w) (fresh w) (browser w) (awaiting w) (nextCall w)
    (fulfilled w) (thens w).
Definition with_needsKey (v : bool) (w : World) : World :=
  mkWorld (isActive w) (isConnecting w) (errorMsg w) v (audioContextRef w)
    (outputAudioContextRef w) (sessionRef w) (nextStartTimeRef w)
    (sourcesRef w) (calls w) (fresh w) (browser w) (awaiting w) (nextCall w)
    (fulfilled w) (thens w).
Definition with_audioContextRef (v : option nat) (w : World) : World :=
  mkWorld (isActive w) (isConnecting w) (errorMsg w) (needsKey w) v
    (outputAudioContextRef w) (sessionRef w) (nextStartTimeRef w)
    (sourcesRef w) (calls w) (fresh w) (browser w) (awaiting w) (nextCall w)
    (fulfilled w) (thens w).
Definition with_outputAudioContextRef (v : option nat) (w : World) : World :=
  mkWorld (isActive w) (isConnecting w) (errorMsg w) (needsKey w)
    (audioContextRef w) v (sessionRef w) (nextStartTimeRef w) (sourcesRef w)
    (calls w) (fresh w) (browser w) (awaiting w) (nextCall w) (fulfilled w)
    (thens w).
Definition with_sessionRef (v : option nat) (w : World) : World :=
  mkWorld (isActive w) (isConnecting w) (errorMsg w) (needsKey w)
    (audioContextRef w) (outputAudioContextRef w) v (nextStartTimeRef w)
    (sourcesRef w) (calls w) (fresh w) (browser w) (awaiting w) (nextCall w)
    (fulfilled w) (thens w).
Definition with_nextStartTimeRef (v : Q) (w : World) : World :=
  mkWorld (isActive w) (isConnecting w) (errorMsg w) (needsKey w)
    (audioContextRef w) (outputAudioContextRef w) (sessionRef w) v
    (sourcesRef w) (calls w) (fresh w) (browser w) (awaiting w) (nextCall w)
    (fulfilled w) (thens w).
Definition with_sourcesRef (v : list nat) (w : World) : World :=
  mkWorld (isActive w) (isConnecting w) (errorMsg w) (needsKey w)
    (audioContextRef w) (outputAudioContextRef w) (sessionRef w)
    (nextStartTimeRef w) v (calls w) (fresh w) (browser w) (awaiting w)
    (nextCall w) (fulfilled w) (thens w).
Definition with_calls (v : list Call) (w : World) : World :=
  mkWorld (isActive w) (isConnecting w) (errorMsg w) (needsKey w)
    (audioContextRef w) (outputAudioContextRef w) (sessionRef w)
    (nextStartTimeRef w) (sourcesRef w) v (fresh w) (browser w) (awaiting w)
    (nextCall w) (fulfilled w) (thens w).
Definition with_fresh (v : nat) (w : World) : World :=
  mkWorld (isActive w) (isConnecting w) (errorMsg w) (needsKey w)
    (audioContextRef w) (outputAudioContextRef w) (sessionRef w)
    (nextStartTimeRef w) (sourcesRef w) (calls w) v (browser w) (awaiting w)
    (nextCall w) (fulfilled w) (thens w).
Definition with_browser (v : Browser) (w : World) : World :=
  mkWorld (isActive w) (isConnecting w) (errorMsg w) (needsKey w)
    (audioContextRef w) (outputAudioContextRef w) (sessionRef w)
    (nextStartTimeRef w) (sourcesRef w) (calls w) (fresh w) v (awaiting w)
    (nextCall w) (fulfilled w) (thens w).
Definition with_awaiting (v : list (nat * Await)) (w : World) : World :=
  mkWorld (isActive w) (isConnecting w) (errorMsg w) (needsKey w)
    (audioContextRef w) (outputAudioContextRef w) (sessionRef w)
    (nextStartTimeRef w) (sourcesRef w) (calls w) (fresh w) (browser w) v
    (nextCall w) (fulfilled w) (thens w).
Definition with_nextCall (v : nat) (w : World) : World :=
  mkWorld (isActive w) (isConnecting w) (errorMsg w) (needsKey w)
    (audioContextRef w) (outputAudioContextRef w) (sessionRef w)
    (nextStartTimeRef w) (sourcesRef w) (calls w) (fresh w) (browser w)
    (awaiting w) v (fulfilled w) (thens w).
Definition with_fulfilled (v : list nat) (w : World) : World :=
  mkWorld (isActive w) (isConnecting w) (errorMsg w) (needsKey w)
    (audioContextRef w) (outputAudioContextRef w) (sessionRef w)
    (nextStartTimeRef w) (sourcesRef w) (calls w) (fresh w) (browser w)
    (awaiting w) (nextCall w) v (thens w).
Definition with_thens (v : list (nat * (string * string))) (w : World) : World :=
  mkWorld (isActive w) (isConnecting w) (errorMsg w) (needsKey w)
    (audioContextRef w) (outputAudioContextRef w) (sessionRef w)
    (nextStartTimeRef w) (sourcesRef w) (calls w) (fresh w) (browser w)
    (awaiting w) (nextCall w) (fulfilled w) v.

(** The component as first rendered in the page [env], before its mount
    effect. *)
Definition initial (env : Browser) : World :=
  mkWorld false false None false None None None 0%Q [] [] 0 env [] 0 [] [].

Definition call (c : Call) : M World unit :=
  write (fun w => with_calls (calls w ++ [c]) w).

Definition new_object : M World nat :=
  fun w => (Normal (fresh w), with_fresh (S (fresh w)) w).

(** [Set.prototype.add] and [Set.prototype.delete]. *)
Definition set_add (x : nat) (s : list nat) : list nat :=
  if existsb (Nat.eqb x) s then s else s ++ [x].
Definition set_delete (x : nat) (s : list nat) : list nat :=
  filter (fun y => negb (Nat.eqb x y)) s.

(** *** What the browser makes of the calls made so far *)

Definition is_start_of (source : nat) (c : Call) : bool :=
  match c with StartSource s _ _ _ => Nat.eqb s source | _ => false end.
Definition is_close_of (ctx : nat) (c : Call) : bool :=
  match c with CloseAudioContext x => Nat.eqb x ctx | _ => false end.
Definition is_session_close_of (session : nat) (c : Call) : bool :=
  match c with CloseSession s => Nat.eqb s session | _ => false end.

Definition created_contexts (cs : list Call) : list nat :=
  flat_map (fun c => match c with NewAudioContext x _ => [x] | _ => [] end)
           cs.

(** The remote sessions opened and not closed, and the audio contexts
    created and not closed.  A session is opened when its promise is
    fulfilled. *)
Definition sessions_left_open (opened : list nat) (cs : list Call)
    : list nat :=
  filter (fun s => negb (existsb (is_session_close_of s) cs)) opened.
Definition contexts_left_open (cs : list Call) : list nat :=
  filter (fun x => negb (existsb (is_close_of x) cs)) (created_contexts cs).

Definition open_sessions (w : World) : list nat :=
  sessions_left_open (fulfilled w) (calls w).
Definition open_contexts (w : World) : list nat :=
  contexts_left_open (calls w).

(** The sources [stop()] was called on, and the start times given to
    [start()], in call order. *)
Definition stopped (cs : list Call) : list nat :=
  flat_map (fun c => match c with StopSource s => [s] | _ => [] end) cs.
Definition start_times (cs : list Call) : list Q :=
  flat_map (fun c => match c with StartSource _ _ t _ => [t] | _ => [] end)
           cs.

(** [source.stop()] throws on a source that was never started. *)
Definition source_stop (source : nat) : M World unit :=
  started <- read (fun w => existsb (is_start_of source) (calls w)) ;;
  call (StopSource source) ;;
  if started then ret tt else throw InvalidStateError.

(** [ctx.close()] rejects on a context that is closed already. *)
Definition context_close (ctx : nat) : M World unit :=
  closed <- read (fun w => existsb (is_close_of ctx) (calls w)) ;;
  call (CloseAudioContext ctx) ;;
  if closed then throw InvalidStateError else ret tt.

Definition session_close (session : nat) : M World unit :=
  call (CloseSession session).

(** *** [stopSession] *)

Definition stopSession : M World unit :=
  session <- read sessionRef ;;
  match session with
  | Some s => session_close s ;; write (with_sessionRef None)
  | None => ret tt
  end ;;
  write (with_isActive false) ;;
  write (with_isConnecting false) ;;
  sources <- read sourcesRef ;;
  for_of sources
    (fun source => try_catch (source_stop source) (fun _ => ret tt)) ;;
  write (with_sourcesRef []) ;;
  write (with_nextStartTimeRef 0%Q) ;;
  input <- read audioContextRef ;;
  match input with
  | Some ctx => try_catch (context_close ctx) (fun _ => ret tt)
  | None => ret tt
  end ;;
  output <- read outputAudioContextRef ;;
  match output with
  | Some ctx => try_catch (context_close ctx) (fun _ => ret tt)
  | None => ret tt
  end.

(** *** The capture tick, [scriptProcessor.onaudioprocess] *)

(** [int16[i] = inputData[i] * 32768]. *)
Definition capture_sample (s : Q) : Z := ToInt16 (s * 32768)%Q.

Definition capture_int16 (inputData : list Q) : list Z :=
  map capture_sample inputData.

(** [sessionPromise.then((session) => session.sendRealtimeInput({ media:
    pcmBlob }))].  On a fulfilled promise the callback runs before any
    other event is delivered; on a promise not fulfilled it waits, and runs
    when the promise is fulfilled (never, if the promise is rejected). *)
Definition sessionPromise_then (sessionPromise : nat)
    (data mimeType : string) : M World unit :=
  resolved <- read (fun w => existsb (Nat.eqb sessionPromise) (fulfilled w)) ;;
  if resolved
  then call (SendRealtimeInput sessionPromise data mimeType)
  else write (fun w => with_thens
                         (thens w ++ [(sessionPromise, (data, mimeType))]) w).

(** [sessionPromise] is the promise the handler closes over. *)
Definition onaudioprocess (sessionPromise : nat) (inputData : list Q)
    : M World unit :=
  let int16 := capture_int16 inputData in
  let data := encode (Uint8Array_of_Int16Array int16) in
  let mimeType := "audio/pcm;rate=16000"%string in
  sessionPromise_then sessionPromise data mimeType.

(** *** Inbound messages, [onmessage] *)

Record Blob : Type := mkBlob { data : option string }.
Record Part : Type := mkPart { inlineData : option Blob }.
Record Content : Type := mkContent { parts : option (list Part) }.
Record ServerContent : Type := mkServerContent {
  modelTurn : option Content;
  interrupted : bool
}.
Record LiveServerMessage : Type := mkMessage {
  serverContent : option ServerContent
}.

(** [message.serverContent?.modelTurn?.parts[0]?.inlineData?.data]:
    there is no [?.] after [parts], so a turn without parts throws. *)
Definition read_base64Audio (message : LiveServerMessage)
    : completion (option string) :=
  match serverContent message with
  | None => Normal None
  | Some sc =>
      match modelTurn sc with
      | None => Normal None
      | Some turn =>
          match parts turn with
          | None => Throw TypeError
          | Some [] => Normal None
          | Some (part :: _) =>
              match inlineData part with
              | None => Normal None
              | Some blob => Normal (data blob)
              end
          end
      end
  end.

(** [message.serverContent?.interrupted]. *)
Definition is_interrupted (message : LiveServerMessage) : bool :=
  match serverContent message with
  | Some sc => interrupted sc
  | None => false
  end.

(** The handler is an [async] function whose only [await] is on
    [decodeAudioData], which itself awaits nothing: the continuation runs
    before any other event is delivered, so the handler is one step.
    [currentTime] is what [ctx.currentTime] reads.  A thrown error is the
    rejection of the handler's promise. *)
Definition onmessage (currentTime : Q) (message : LiveServerMessage)
    : M World unit :=
  base64Audio <- lift (read_base64Audio message) ;;
  output <- read outputAudioContextRef ;;
  match truthy base64Audio, output with
  | Some base64, Some ctx =>
      write (fun w => with_nextStartTimeRef
                        (Math_max (nextStartTimeRef w) currentTime) w) ;;
      bytes <- lift (decode base64) ;;
      audioBuffer <- lift (decodeAudioData bytes 24000 1) ;;
      source <- new_object ;;
      when <- read nextStartTimeRef ;;
      call (StartSource source ctx when audioBuffer) ;;
      write (fun w => with_nextStartTimeRef
                        (nextStartTimeRef w + duration audioBuffer)%Q w) ;;
      write (fun w => with_sourcesRef (set_add source (sourcesRef w)) w)
  | _, _ => ret tt
  end ;;
  if is_interrupted message then
    sources <- read sourcesRef ;;
    for_of sources
      (fun source => try_catch (source_stop source) (fun _ => ret tt)) ;;
    write (with_sourcesRef []) ;;
    write (with_nextStartTimeRef 0%Q)
  else ret tt.

(** The ['ended'] listener registered on each source. *)
Definition onended (source : nat) : M World unit :=
  write (fun w => with_sourcesRef (set_delete source (sourcesRef w)) w).

(** *** [startSession]

    An [async] function runs until its next [await] and is suspended
    there; it goes on when the awaited promise settles, and other events
    can be delivered in between.  Each suspended call is kept in
    [awaiting] under its number.  [if (ctx.state === 'suspended') await
    ctx.resume()] suspends the call as well: a context that is not
    suspended is the case where the answer comes at once.  The library
    calls [onopen] and fulfils the session promise; these are two events,
    in an order and at a distance that the source does not fix. *)

Definition new_call : M World nat :=
  fun w => (Normal (nextCall w), with_nextCall (S (nextCall w)) w).

Definition suspend (id : nat) (at_ : Await) : M World unit :=
  write (fun w => with_awaiting (awaiting w ++ [(id, at_)]) w).

(** The value of [await promise]: a rejection is thrown at the [await]. *)
Definition await (answer : Answer) : M World bool :=
  match answer with
  | Resolves value => ret value
  | Rejects _ message => throw (Error message)
  end.

(** The [onopen] callback.  The media-stream source and the script
    processor it creates and connects are what later deliver
    [onaudioprocess]; the audio graph itself carries no state here. *)
Definition onopen : M World unit :=
  write (with_isActive true) ;;
  write (with_isConnecting false).

(** The [catch] block of [startSession]. *)
Definition startSession_catch (error : JsError) : M World unit :=
  write (with_errorMsg
           (Some match error with
                 | Error EmptyString => "Failed to initiate voice link."
                 | Error message => message
                 | _ => "Failed to initiate voice link."
                 end%string)) ;;
  write (with_isConnecting false).

(** [startSession], up to its first [await]. *)
Definition startSession : M World unit :=
  id <- new_call ;;
  try_catch
    (write (with_errorMsg None) ;;
     write (with_isConnecting true) ;;
     env <- read browser ;;
     if aistudio env
     then suspend id AtHasSelectedApiKey
     else suspend id AtGetUserMedia)
    startSession_catch.

(** [startSession], from the [await] it was suspended at to the next one
    or to its end. *)
Definition startSession_resume (id : nat) (at_ : Await) (answer : Answer)
    : M World unit :=
  try_catch
    match at_ with
    | AtHasSelectedApiKey =>
        hasKey <- await answer ;;
        env <- read browser ;;
        if negb hasKey && negb (API_KEY env)
        then
          write (with_needsKey true) ;;
          write (with_isConnecting false)
        else suspend id AtGetUserMedia
    | AtGetUserMedia =>
        match answer with
        | Rejects name _ =>
            if (String.eqb name "NotAllowedError"
                || String.eqb name "PermissionDeniedError")%bool
            then throw (Error "Microphone access denied. Please enable permissions in your browser and reload.")
            else throw (Error "Unable to access microphone. Please check your hardware.")
        | Resolves _ => ret tt
        end ;;
        inputCtx <- new_object ;;
        call (NewAudioContext inputCtx 16000) ;;
        outputCtx <- new_object ;;
        call (NewAudioContext outputCtx 24000) ;;
        suspend id (AtResumeInput inputCtx outputCtx)
    | AtResumeInput inputCtx outputCtx =>
        _ <- await answer ;;
        suspend id (AtResumeOutput inputCtx outputCtx)
    | AtResumeOutput inputCtx outputCtx =>
        _ <- await answer ;;
        write (with_audioContextRef (Some inputCtx)) ;;
        write (with_outputAudioContextRef (Some outputCtx)) ;;
        sessionPromise <- new_object ;;
        call (Connect sessionPromise) ;;
        suspend id (AtSessionPromise sessionPromise)
    | AtSessionPromise sessionPromise =>
        _ <- await answer ;;
        write (with_sessionRef (Some sessionPromise))
    | AtCheckKey | AtOpenSelectKey => ret tt
    end
    startSession_catch.

(** The session promise is fulfilled: the callbacks that wait on it run,
    in the order they were registered, after the [await] of
    [startSession], which was registered first. *)
Definition waiting_on (sessionPromise : nat)
    (t : nat * (string * string)) : bool :=
  Nat.eqb (fst t) sessionPromise.

Definition fulfil (sessionPromise : nat) : M World unit :=
  write (fun w => with_fulfilled (fulfilled w ++ [sessionPromise]) w) ;;
  callbacks <- read (fun w => filter (waiting_on sessionPromise) (thens w)) ;;
  write (fun w => with_thens
                    (filter (fun t => negb (waiting_on sessionPromise t))
                            (thens w)) w) ;;
  for_of callbacks
    (fun t => call (SendRealtimeInput sessionPromise
                      (fst (snd t)) (snd (snd t)))).

(** [handleOpenKeyDialog], up to its [await] and after it. *)
Definition handleOpenKeyDialog : M World unit :=
  env <- read browser ;;
  if aistudio env
  then
    id <- new_call ;;
    call OpenSelectKey ;;
    suspend id AtOpenSelectKey
  else ret tt.

Definition handleOpenKeyDialog_resume (answer : Answer) : M World unit :=
  _ <- await answer ;;
  write (with_needsKey false) ;;
  startSession.

(** *** [onerror] and [onclose] *)

Definition onerror (message : option string) : M World unit :=
  (if match message with
      | Some m => includes m "entity was not found"
      | None => false
      end
   then
     write (with_errorMsg
              (Some "API Key issue. Please re-select your key."%string)) ;;
     write (with_needsKey true)
   else
     write (with_errorMsg
              (Some "Connection interrupted. Please try again."%string))) ;;
  stopSession.

Definition onclose : M World unit := stopSession.

(** *** The rendered controls *)

Inductive Control : Type :=
| SelectApiKey
| StartConversation (disabled : bool)
| Disconnect.

(** The button the component renders: the key prompt when [needsKey],
    else the start button when not active (disabled while connecting),
    else the disconnect button. *)
Definition rendered_control (w : World) : Control :=
  if needsKey w then SelectApiKey
  else if negb (isActive w) then StartConversation (isConnecting w)
  else Disconnect.

(** A click on the button that is on screen; a disabled button does not
    deliver its click. *)
Definition click : M World unit :=
  fun w =>
    match rendered_control w with
    | SelectApiKey => handleOpenKeyDialog w
    | StartConversation false => startSession w
    | StartConversation true => ret tt w
    | Disconnect => stopSession w
    end.

(** *** The mounted component and what can happen to it *)

(** The effect run on mount: [checkKey], up to its [await] and after
    it. *)
Definition checkKey : M World unit :=
  env <- read browser ;;
  if aistudio env
  then
    id <- new_call ;;
    suspend id AtCheckKey
  else ret tt.

Definition checkKey_resume (answer : Answer) : M World unit :=
  hasKey <- await answer ;;
  env <- read browser ;;
  if negb hasKey && negb (API_KEY env)
  then write (with_needsKey true)
  else ret tt.

Definition mounted (env : Browser) : World := snd (checkKey (initial env)).

(** The promise the suspended call [id] awaits settles: the call goes on
    from its [await]. *)
Fixpoint lookup (id : nat) (l : list (nat * Await)) : option Await :=
  match l with
  | [] => None
  | (k, at_) :: rest => if Nat.eqb k id then Some at_ else lookup id rest
  end.

Definition without (id : nat) (l : list (nat * Await))
    : list (nat * Await) :=
  filter (fun e => negb (Nat.eqb (fst e) id)) l.

Definition settled (id : nat) (answer : Answer) : M World unit :=
  suspended <- read (fun w => lookup id (awaiting w)) ;;
  match suspended with
  | None => ret tt
  | Some at_ =>
      write (fun w => with_awaiting (without id (awaiting w)) w) ;;
      match at_ with
      | AtCheckKey => checkKey_resume answer
      | AtOpenSelectKey => handleOpenKeyDialog_resume answer
      | AtSessionPromise sessionPromise =>
          startSession_resume id at_ answer ;;
          match answer with
          | Resolves _ => fulfil sessionPromise
          | Rejects _ _ => ret tt
          end
      | _ => startSession_resume id at_ answer
      end
  end.

(** What can happen to the component: a click on the button on screen,
    the callbacks of a connection ([onmessage], [onerror], [onclose],
    [onopen]), the end of a source, a capture tick, the unmount, and the
    settling of the promise a suspended call awaits.  The callbacks read
    the refs, not the connection they belong to, so the events do not
    name it; the capture tick and [onopen] name the session promise their
    closure holds.  After the unmount the refs and the calls go on as
    before; the React state is still written here, where nothing shows
    it any more. *)
Inductive Event : Type :=
| Click
| ServerMessage (currentTime : Q) (message : LiveServerMessage)
| SourceEnded (source : nat)
| ServerError (message : option string)
| ServerClose
| AudioProcess (sessionPromise : nat) (inputData : list Q)
| Unmount
| Settled (id : nat) (answer : Answer)
| Opened (sessionPromise : nat).

Definition handle (ev : Event) : M World unit :=
  match ev with
  | Click => click
  | ServerMessage currentTime message => onmessage currentTime message
  | SourceEnded source => onended source
  | ServerError message => onerror message
  | ServerClose => onclose
  | AudioProcess sessionPromise inputData =>
      onaudioprocess sessionPromise inputData
  | Unmount => stopSession
  | Settled id answer => settled id answer
  | Opened _ => onopen
  end.

Definition step (ev : Event) (w : World) : World := snd (handle ev w).

Definition run (evs : list Event) (w : World) : World :=
  fold_left (fun w ev => step ev w) evs w.

(** *** Vocabulary of the statements about the scheduler *)

(** The audio buffer [onmessage] obtains from a message, if it obtains
    one: the inline payload is there, is not empty, and decodes. *)
Definition received_frame (message : LiveServerMessage)
    : option AudioBuffer :=
  match read_base64Audio message with
  | Normal base64Audio =>
      match truthy base64Audio with
      | Some base64 =>
          match decode base64 with
          | Normal bytes =>
              match decodeAudioData bytes 24000 1 with
              | Normal audioBuffer => Some audioBuffer
              | Throw _ => None
              end
          | Throw _ => None
          end
      | None => None
      end
  | Throw _ => None
  end.

(** A message that brings an audio frame and no interruption signal. *)
Definition is_audio_frame (message : LiveServerMessage) : bool :=
  match received_frame message with
  | Some _ => negb (is_interrupted message)
  | None => false
  end.

Definition frame_duration (message : LiveServerMessage) : Q :=
  match received_frame message with
  | Some audioBuffer => duration audioBuffer
  | None => 0%Q
  end.

(** An arrival is a message together with the audio-clock reading at
    which its handler runs. *)
Definition arrival_event (a : Q * LiveServerMessage) : Event :=
  ServerMessage (fst a) (snd a).

(** No gap: every arrival is handled while the audio clock has not passed
    [nextStartTime], the scheduled end of what was queued before it. *)
Fixpoint back_to_back (w : World) (arrivals : list (Q * LiveServerMessage))
    : bool :=
  match arrivals with
  | [] => true
  | a :: rest =>
      Qle_bool (fst a) (nextStartTimeRef w)
      && back_to_back (step (arrival_event a) w) rest
  end.

Definition sum_durations (ds : list Q) : Q := fold_right Qplus 0%Q ds.

(** The events on which the code resets the cursor: an inbound message
    with the interruption signal, and whatever runs [stopSession]. *)
Definition resets (ev : Event) (w : World) : bool :=
  match ev with
  | ServerMessage _ message => is_interrupted message
  | ServerError _ | ServerClose | Unmount => true
  | Click =>
      match rendered_control w with Disconnect => true | _ => false end
  | SourceEnded _ | AudioProcess _ _ | Settled _ _ | Opened _ => false
  end.

(** The Idle state of the lifecycle: no session handle held, nothing
    queued, the cursor at zero. *)
Definition Idle (w : World) : Prop :=
  isActive w = false /\ isConnecting w = false /\ sessionRef w = None
  /\ sourcesRef w = [] /\ nextStartTimeRef w = 0%Q.

(** Rounding to the nearest integer, halves upward, as [Math.round]. *)
Definition round_to_nearest (x : Q) : Z := Qfloor (x + (1 # 2))%Q.

(** A 16-bit signed integer. *)
Definition int16 (x : Z) : Prop := -32768 <= x <= 32767.

(** The integers [lo, lo + 1, ...], [n] of them. *)
Fixpoint zrange (lo : Z) (n : nat) : list Z :=
  match n with
  | O => []
  | S n' => lo :: zrange (lo + 1) n'
  end.

(** *** Messages used in the examples *)

Definition audio_message (base64 : string) (interrupted : bool)
    : LiveServerMessage :=
  mkMessage
    (Some (mkServerContent
             (Some (mkContent (Some [mkPart (Some (mkBlob (Some base64)))])))
             interrupted)).

(** An inbound message carrying the frame [samples] and nothing else:
    16-bit little-endian PCM in base64. *)
Definition frame_message (samples : list Z) : LiveServerMessage :=
  audio_message (encode (Uint8Array_of_Int16Array samples)) false.

Definition interruption_message : LiveServerMessage :=
  mkMessage (Some (mkServerContent None true)).

(** Half a second of silence at 24 kHz: 12000 zero samples, 24000 zero
    bytes, 32000 base64 digits [A]. *)
Definition half_second_of_silence : LiveServerMessage :=
  audio_message (string_of_list_ascii (repeat "A"%char (N.to_nat 32000)))
                false.

(** A page outside AI Studio, built with an API key. *)
Definition willing : Browser := mkBrowser false true.

(** A page inside AI Studio, built without an API key. *)
Definition keyless : Browser := mkBrowser true false.

(** A start that nothing refuses and nothing interrupts, as the events
    that follow the click on the start button: the microphone is granted,
    both contexts run, the connection opens and its promise is fulfilled.
    [id] numbers the call, [sessionPromise] the connection it asks for. *)
Definition granted : Answer := Resolves true.

Definition start_goes_through (id sessionPromise : nat) : list Event :=
  [Settled id granted; Settled id granted; Settled id granted;
   Opened sessionPromise; Settled id granted].

(** *** What the handlers leave behind *)

(** The calls [stopSession] makes. *)
Definition stop_calls (w : World) : list Call :=
  match sessionRef w with Some s => [CloseSession s] | None => [] end
  ++ map StopSource (sourcesRef w)
  ++ match audioContextRef w with
     | Some ctx => [CloseAudioContext ctx]
     | None => []
     end
  ++ match outputAudioContextRef w with
     | Some ctx => [CloseAudioContext ctx]
     | None => []
     end.

(** The world after [onmessage] has queued [audioBuffer]. *)
Definition scheduled (currentTime : Q) (ctx : nat) (audioBuffer : AudioBuffer)
    (w : World) : World :=
  let when := Math_max (nextStartTimeRef w) currentTime in
  mkWorld (isActive w) (isConnecting w) (errorMsg w) (needsKey w)
    (audioContextRef w) (outputAudioContextRef w) (sessionRef w)
    (when + duration audioBuffer)%Q (set_add (fresh w) (sourcesRef w))
    (calls w ++ [StartSource (fresh w) ctx when audioBuffer]) (S (fresh w))
    (browser w) (awaiting w) (nextCall w) (fulfilled w) (thens w).

(** The world after the interruption block has run. *)
Definition flushed (w : World) : World :=
  with_nextStartTimeRef 0%Q
    (with_sourcesRef []
       (with_calls (calls w ++ map StopSource (sourcesRef w)) w)).

(** The second half of [onmessage]. *)
Definition interruption_part (message : LiveServerMessage) (w : World)
    : completion unit * World :=
  if is_interrupted message then (Normal tt, flushed w) else (Normal tt, w).

Definition microphone_message (name : string) : string :=
  if (String.eqb name "NotAllowedError"
      || String.eqb name "PermissionDeniedError")%bool
  then "Microphone access denied. Please enable permissions in your browser and reload."
  else "Unable to access microphone. Please check your hardware.".

Definition message_or_default (message : string) : string :=
  match message with
  | EmptyString => "Failed to initiate voice link."
  | _ => message
  end.

(** The error message of the remote service names a key problem. *)
Definition key_issue (message : option string) : bool :=
  match message with
  | Some m => includes m "entity was not found"
  | None => false
  end.

(** *** Schedules *)

(** The start times of frames of durations [ds] laid end to end from
    [cursor]. *)
Fixpoint running_starts (cursor : Q) (ds : list Q) : list Q :=
  match ds with
  | [] => []
  | d :: ds' => cursor :: running_starts (cursor + d)%Q ds'
  end.

Definition durations (arrivals : list (Q * LiveServerMessage)) : list Q :=
  map (fun a => frame_duration (snd a)) arrivals.

(** The arrivals are on time for a cursor that starts at [cursor] and
    advances by each frame's duration. *)
Fixpoint on_time (cursor : Q) (arrivals : list (Q * LiveServerMessage))
    : Prop :=
  match arrivals with
  | [] => True
  | a :: rest =>
      (fst a <= cursor)%Q
      /\ on_time (cursor + frame_duration (snd a))%Q rest
  end.

Fixpoint same_bytes (a b : list Z) : bool :=
  match a, b with
  | [], [] => true
  | x :: a', y :: b' => (x =? y) && same_bytes a' b'
  | _, _ => false
  end.

(** *** Worlds and inputs used in the examples *)

(** The session just opened by a click on the start button. *)
Definition fresh_session : World :=
  run (Click :: start_goes_through 0 2) (mounted willing).

Definition three_of (message : LiveServerMessage)
    : list (Q * LiveServerMessage) :=
  [(0%Q, message); (1 # 4, message); (3 # 4, message)].

(** Three frames of half a second, read at clock 0, 0.25 and 0.75. *)
Definition three_frames : list (Q * LiveServerMessage) :=
  three_of half_second_of_silence.

(** The start button was pressed, the microphone is granted and both
    contexts run: the start waits for its connection. *)
Definition connecting : World :=
  run [Click; Settled 0 granted; Settled 0 granted; Settled 0 granted]
      (mounted willing).

(** The connection of the first start is refused; the second start goes
    as far as storing its contexts in the refs. *)
Definition refused_then_started_again : list Event :=
  [Click; Settled 0 granted; Settled 0 granted; Settled 0 granted;
   Settled 0 (Rejects "Error" "unavailable");
   Click; Settled 1 granted; Settled 1 granted; Settled 1 granted].

(** In AI Studio with no key selected, the key check of the mount effect
    has put the key prompt on screen. *)
Definition key_prompt : World :=
  run [Settled 0 (Resolves false)] (mounted keyless).

(** The key prompt is pressed twice before the dialog answers; then both
    dialogs answer, and each of the two starts goes through: the key is
    there, the microphone is granted, the connection opens. *)
Definition key_prompt_pressed_twice : list Event :=
  [Click; Click; Settled 1 granted; Settled 2 granted]
  ++ Settled 3 granted :: start_goes_through 3 2
  ++ Settled 4 granted :: start_goes_through 4 5.

(** Three frames, the first read at clock 1 and the others at 1.25 and
    1.75. *)
Definition three_late_of (message : LiveServerMessage)
    : list (Q * LiveServerMessage) :=
  [(1%Q, message); (5 # 4, message); (7 # 4, message)]%Q.

Definition three_late_frames : list (Q * LiveServerMessage) :=
  three_late_of half_second_of_silence.

(** Two frames are queued in the fresh session. *)
Definition two_queued : World :=
  run [ServerMessage 0 (frame_message [1; 2]);
       ServerMessage 0 (frame_message [3])] fresh_session.

(** The interruption signal together with a payload of three bytes. *)
Definition interruption_with_odd_payload : LiveServerMessage :=
  audio_message "AAAA" true.

(** A capture chunk; its first sample is 16384.75 / 32768. *)
Definition sampled_chunk : list Q :=
  [65539 # 131072; -1; 0; -(1 # 3); 32767 # 32768]%Q.

End LiveInterface.

(** ** [components/ChatInterface.tsx]: text-to-speech playback *)

Module ChatInterface.

Import JS TypedArray WebAudio.
Local Open Scope js_scope.

Definition decodeBase64 (base64 : string) : completion (list Z) :=
  match Base64.atob base64 with
  | None => Throw InvalidCharacterError
  | Some binaryString =>
      Normal (map (fun c => ToUint8 (Base64.code c))
                  (list_ascii_of_string binaryString))
  end.

Definition decodeAudioData (data : list Z) : completion AudioBuffer :=
  match Int16Array_of_buffer data with
  | None => Throw RangeError
  | Some dataInt16 =>
      if (List.length dataInt16 =? 0)%nat then Throw NotSupportedError
      else
        Normal
          (mkAudioBuffer 1 (List.length dataInt16) 24000
             [map (fun x => fround (inject_Z x / 32768)%Q) dataInt16])
  end.

Inductive Call : Type :=
| Fetch (request : nat) (text : string)
| NewAudioContext (ctx : nat)
| StartSource (source : nat) (ctx : nat) (when : Q) (buffer : AudioBuffer).

(** What [fetch] and [response.json()] come back with. *)
Inductive TtsAnswer : Type :=
| Failed (e : JsError)
| Body (audio : option string).

Record World : Type := mkWorld {
  isSpeaking : option nat;
  audioContextRef : option nat;
  awaiting : list (nat * nat);  (* calls suspended at [fetch]: request, index *)
  playing : list (nat * nat);   (* sources started and not ended: source, index *)
  calls : list Call;
  fresh : nat
}.

Definition initial : World := mkWorld None None [] [] [] 0.

Definition with_isSpeaking (v : option nat) (w : World) : World :=
  mkWorld v (audioContextRef w) (awaiting w) (playing w) (calls w) (fresh w).
Definition with_audioContextRef (v : option nat) (w : World) : World :=
  mkWorld (isSpeaking w) v (awaiting w) (playing w) (calls w) (fresh w).
Definition with_awaiting (v : list (nat * nat)) (w : World) : World :=
  mkWorld (isSpeaking w) (audioContextRef w) v (playing w) (calls w) (fresh w).
Definition with_playing (v : list (nat * nat)) (w : World) : World :=
  mkWorld (isSpeaking w) (audioContextRef w) (awaiting w) v (calls w) (fresh w).
Definition with_calls (v : list Call) (w : World) : World :=
  mkWorld (isSpeaking w) (audioContextRef w) (awaiting w) (playing w) v (fresh w).
Definition with_fresh (v : nat) (w : World) : World :=
  mkWorld (isSpeaking w) (audioContextRef w) (awaiting w) (playing w) (calls w) v.

Definition call (c : Call) : M World unit :=
  write (fun w => with_calls (calls w ++ [c]) w).

Definition new_object : M World nat :=
  fun w => (Normal (fresh w), with_fresh (S (fresh w)) w).

(** [handleSpeak] up to its first [await]: the guard, the indicator, the
    request.  The call then waits for the answer. *)
Definition handleSpeak (text : string) (index : nat) : M World unit :=
  speaking <- read isSpeaking ;;
  match speaking with
  | Some _ => ret tt
  | None =>
      write (with_isSpeaking (Some index)) ;;
      request <- new_object ;;
      call (Fetch request text) ;;
      write (fun w => with_awaiting (awaiting w ++ [(request, index)]) w)
  end.

(** The rest of [handleSpeak], once the request has been answered; the
    [catch] clause covers it all. *)
Definition handleSpeak_resume (index : nat) (answer : TtsAnswer)
    : M World unit :=
  try_catch
    (audio <- match answer with
              | Failed e => throw e
              | Body audio => ret audio
              end ;;
     match truthy audio with
     | Some base64 =>
         current <- read audioContextRef ;;
         ctx <- match current with
                | Some ctx => ret ctx
                | None =>
                    ctx <- new_object ;;
                    call (NewAudioContext ctx) ;;
                    write (with_audioContextRef (Some ctx)) ;;
                    ret ctx
                end ;;
         bytes <- lift (decodeBase64 base64) ;;
         buffer <- lift (decodeAudioData bytes) ;;
         source <- new_object ;;
         call (StartSource source ctx 0 buffer) ;;
         write (fun w => with_playing (playing w ++ [(source, index)]) w)
     | None => ret tt
     end)
    (fun _ => write (with_isSpeaking None)).

(** [source.onended]. *)
Definition onended : M World unit := write (with_isSpeaking None).

Inductive Event : Type :=
| Speak (text : string) (index : nat)
| Answered (request : nat) (answer : TtsAnswer)
| Ended (source : nat).

Definition lookup (k : nat) (l : list (nat * nat)) : option nat :=
  match find (fun p => Nat.eqb (fst p) k) l with
  | Some p => Some (snd p)
  | None => None
  end.

Definition without (k : nat) (l : list (nat * nat)) : list (nat * nat) :=
  filter (fun p => negb (Nat.eqb (fst p) k)) l.

(** An answer resumes the call that waits for it; the end of a source
    that plays fires its [onended]. *)
Definition handle (ev : Event) : M World unit :=
  match ev with
  | Speak text index => handleSpeak text index
  | Answered request answer =>
      waiting <- read awaiting ;;
      match lookup request waiting with
      | Some index =>
          write (with_awaiting (without request waiting)) ;;
          handleSpeak_resume index answer
      | None => ret tt
      end
  | Ended source =>
      sounding <- read playing ;;
      match lookup source sounding with
      | Some _ =>
          write (with_playing (without source sounding)) ;;
          onended
      | None => ret tt
      end
  end.

Definition step (ev : Event) (w : World) : World := snd (handle ev w).

Definition run (evs : list Event) (w : World) : World :=
  fold_left (fun w ev => step ev w) evs w.

(** At most one call of [handleSpeak] is under way, waiting or playing,
    and the indicator names its message. *)
Definition one_at_a_time (w : World) : Prop :=
  (List.length (awaiting w) + List.length (playing w) <= 1)%nat
  /\ forall p, In p (awaiting w ++ playing w) -> isSpeaking w = Some (snd p).

End ChatInterface.

(** ** [App.tsx]: the persisted chat sessions *)

Module App.

Import JS.

Definition SESSIONS_STORAGE_KEY : string := "waso_sessions_v2".

#[local] Set Warnings "-register-all".

Inductive JSON : Type :=
| JNull
| JBoolean (b : bool)
| JNumber (x : Q)
| JString (s : string)
| JArray (items : list JSON)
| JObject (members : list (string * JSON)).

(** [localStorage]: keys and their values. *)
Definition Storage : Type := list (string * string).

Definition getItem (storage : Storage) (key : string) : option string :=
  match find (fun kv => String.eqb (fst kv) key) storage with
  | Some kv => Some (snd kv)
  | None => None
  end.

Section Sessions.

(** [JSON.parse] is the platform's; it returns a value or throws. *)
Variable JSON_parse : string -> completion JSON.

(** The initializer of the [sessions] state. *)
Definition initial_sessions (storage : Storage) : completion JSON :=
  let saved := getItem storage SESSIONS_STORAGE_KEY in
  match truthy saved with
  | Some saved =>
      match JSON_parse saved with
      | Normal value => Normal value
      | Throw _ => Normal (JArray [])
      end
  | None => Normal (JArray [])
  end.

End Sessions.

(** A parser that knows the empty array only; it stands in for
    [JSON.parse] where an example needs one. *)
Definition parse_empty_array (text : string) : completion JSON :=
  if String.eqb text "[]" then Normal (JArray []) else Throw SyntaxError.

(** A store whose session blob was cut short. *)
Definition damaged_storage : Storage :=
  [("theme", "dark"); ("waso_sessions_v2", "[{id:")]%string.

End App.

From Stdlib Require Import DecimalString DecimalZ.

(** * More of the code

    The rest of the live component, the chat composer and the speech path
    of [ChatInterface.tsx], the session list of [App.tsx], the serverless
    handler [api/gemini.ts], and how the components fit together. *)

(** ** Vocabulary for the codec and the audio helpers *)

Module Codec.

Import Base64.

(** The base64 digits of a binary string, without the padding. *)
Fixpoint btoa_digits (l : list ascii) : list ascii :=
  match l with
  | [] => []
  | [a] =>
      let n := code a * 65536 in
      [digit (n / 262144); digit ((n / 4096) mod 64)]
  | [a; b] =>
      let n := code a * 65536 + code b * 256 in
      [digit (n / 262144); digit ((n / 4096) mod 64);
       digit ((n / 64) mod 64)]
  | a :: b :: c :: rest =>
      let n := code a * 65536 + code b * 256 + code c in
      digit (n / 262144) :: digit ((n / 4096) mod 64)
        :: digit ((n / 64) mod 64) :: digit (n mod 64) :: btoa_digits rest
  end.

(** Their 6-bit values. *)
Fixpoint sextets (l : list ascii) : list Z :=
  match l with
  | [] => []
  | [a] =>
      let n := code a * 65536 in
      [n / 262144; (n / 4096) mod 64]
  | [a; b] =>
      let n := code a * 65536 + code b * 256 in
      [n / 262144; (n / 4096) mod 64; (n / 64) mod 64]
  | a :: b :: c :: rest =>
      let n := code a * 65536 + code b * 256 + code c in
      n / 262144 :: (n / 4096) mod 64 :: (n / 64) mod 64 :: n mod 64
        :: sextets rest
  end.

(** A byte, as a [Uint8Array] holds it. *)
Definition byte (b : Z) : Prop := 0 <= b < 256.

End Codec.

(** ** Vocabulary for the traces of the live component *)

Module Traces.

Import JS TypedArray WebAudio LiveInterface.

(** The realtime inputs sent to the service, in call order: the session,
    the base64 text and the MIME type of each. *)
Definition sent (cs : list Call) : list (nat * string * string) :=
  flat_map (fun c => match c with
                     | SendRealtimeInput session data mimeType =>
                         [(session, data, mimeType)]
                     | _ => []
                     end) cs.

(** The blob a capture tick makes of its samples: the base64 text and
    the MIME type. *)
Definition blob_of (inputData : list Q) : string * string :=
  (encode (Uint8Array_of_Int16Array (capture_int16 inputData)),
   "audio/pcm;rate=16000"%string).

(** The blobs of the capture ticks of a run that close over
    [sessionPromise], in tick order. *)
Definition ticks (sessionPromise : nat) (evs : list Event)
    : list (string * string) :=
  flat_map (fun ev => match ev with
                      | AudioProcess p inputData =>
                          if Nat.eqb p sessionPromise
                          then [blob_of inputData] else []
                      | _ => []
                      end) evs.

(** The blobs sent to [session], in call order, and the blobs that wait
    for its promise, in the order they were registered. *)
Definition sent_to (session : nat) (cs : list Call)
    : list (string * string) :=
  flat_map (fun c => match c with
                     | SendRealtimeInput s data mimeType =>
                         if Nat.eqb s session then [(data, mimeType)] else []
                     | _ => []
                     end) cs.

Definition waiting_for (sessionPromise : nat) (w : World)
    : list (string * string) :=
  map snd (filter (waiting_on sessionPromise) (thens w)).

(** The sources [start()] was called on, in call order. *)
Definition started_sources (cs : list Call) : list nat :=
  flat_map (fun c => match c with StartSource s _ _ _ => [s] | _ => [] end)
           cs.

(** The live set holds each source once, and only sources that were
    started; whatever was stopped had been started. *)
Record LiveSet (w : World) : Prop := mkLiveSet {
  live_nodup : NoDup (sourcesRef w);
  live_started : incl (sourcesRef w) (started_sources (calls w));
  live_stopped : incl (stopped (calls w)) (started_sources (calls w));
  live_known : Forall (fun s => (s < fresh w)%nat)
                      (started_sources (calls w))
}.

(** The calls the start of a session and the capture make: they start
    and stop no source and close nothing. *)
Definition start_call (c : Call) : bool :=
  match c with
  | NewAudioContext _ _ | Connect _ | SendRealtimeInput _ _ _
  | OpenSelectKey => true
  | _ => false
  end.

(** A step beside the scheduler: it leaves the live set and the cursor
    alone and makes calls of that kind only. *)
Definition beside_the_scheduler (w w' : World) : Prop :=
  sourcesRef w' = sourcesRef w
  /\ nextStartTimeRef w' = nextStartTimeRef w
  /\ (fresh w <= fresh w')%nat
  /\ exists added,
       calls w' = calls w ++ added /\ forallb start_call added = true.

(** A step beside the capture: it sends no realtime input and leaves the
    session promises and what waits on them alone. *)
Definition beside_the_capture (w w' : World) : Prop :=
  thens w' = thens w
  /\ fulfilled w' = fulfilled w
  /\ exists added, calls w' = calls w ++ added /\ sent added = [].

(** [close()] was called on the context. *)
Definition was_closed (ctx : nat) (w : World) : bool :=
  existsb (is_close_of ctx) (calls w).

(** The context is one the component refers to. *)
Definition refers_to (w : World) (ctx : nat) : Prop :=
  audioContextRef w = Some ctx \/ outputAudioContextRef w = Some ctx.

(** The contexts a suspended start has created and not yet stored in
    the refs. *)
Definition keeps (at_ : Await) (ctx : nat) : Prop :=
  match at_ with
  | AtResumeInput inputCtx outputCtx
  | AtResumeOutput inputCtx outputCtx => ctx = inputCtx \/ ctx = outputCtx
  | _ => False
  end.

(** The component can still reach the context: a ref names it, or a
    suspended start keeps it for the refs. *)
Definition in_hand (w : World) (ctx : nat) : Prop :=
  refers_to w ctx
  \/ exists id at_, In (id, at_) (awaiting w) /\ keeps at_ ctx.

(** The contexts in hand are ones the component created, and the
    contexts it created are older than the next object. *)
Record Contexts (w : World) : Prop := mkContexts {
  ctx_known : forall ctx, In ctx (created_contexts (calls w)) ->
              (ctx < fresh w)%nat;
  ctx_created : forall ctx, in_hand w ctx ->
                In ctx (created_contexts (calls w))
}.

(** What a step may do to the contexts: the contexts it creates are new,
    the contexts in hand after it were in hand before it or are ones it
    has just created, and it closes only contexts a ref named. *)
Definition context_step (w w' : World) : Prop :=
  (fresh w <= fresh w')%nat
  /\ exists added,
       calls w' = calls w ++ added
       /\ (forall ctx, In ctx (created_contexts added) ->
             (fresh w <= ctx < fresh w')%nat)
       /\ (forall ctx, in_hand w' ctx ->
             in_hand w ctx \/ In ctx (created_contexts added))
       /\ (forall ctx, existsb (is_close_of ctx) added = true ->
             refers_to w ctx).

(** What stays true of the session promises of the mounted component:
    the session the ref holds and the sessions closed are sessions whose
    promise was fulfilled; a promise a suspended start awaits is not
    fulfilled, and no two starts await the same promise; every promise is
    older than the next object. *)
Record Promises (w : World) : Prop := mkPromises {
  pr_held : forall s, sessionRef w = Some s -> In s (fulfilled w);
  pr_closed : forall s, existsb (is_session_close_of s) (calls w) = true ->
              In s (fulfilled w);
  pr_known : forall s, In s (fulfilled w) -> (s < fresh w)%nat;
  pr_pending : forall id p, In (id, AtSessionPromise p) (awaiting w) ->
               (p < fresh w)%nat /\ ~ In p (fulfilled w);
  pr_unique : forall id id' p,
              In (id, AtSessionPromise p) (awaiting w) ->
              In (id', AtSessionPromise p) (awaiting w) -> id = id'
}.

(** The awaits of [startSession]. *)
Definition of_startSession (at_ : Await) : bool :=
  match at_ with
  | AtCheckKey | AtOpenSelectKey => false
  | _ => true
  end.

(** The events that run [stopSession] and nothing after it. *)
Definition stops (ev : Event) : bool :=
  match ev with
  | ServerError _ | ServerClose | Unmount => true
  | _ => false
  end.

End Traces.

(** ** Vocabulary for the speech path of [ChatInterface.tsx] *)

Module Speech.

Import JS TypedArray WebAudio ChatInterface.

(** The requests sent to [/api/gemini] for speech, in call order. *)
Definition fetches (cs : list Call) : list (nat * string) :=
  flat_map (fun c => match c with
                     | Fetch request text => [(request, text)]
                     | _ => []
                     end) cs.

(** The audio contexts created, and the sources started. *)
Definition contexts_made (cs : list Call) : list nat :=
  flat_map (fun c => match c with NewAudioContext ctx => [ctx] | _ => [] end)
           cs.
Definition starts (cs : list Call) : list (nat * nat * Q * AudioBuffer) :=
  flat_map (fun c => match c with
                     | StartSource source ctx when buffer =>
                         [(source, ctx, when, buffer)]
                     | _ => []
                     end) cs.


(** The answer makes the [try] block throw: the request or the reading
    of its body failed, or the audio does not decode. *)
Definition fails (answer : TtsAnswer) : bool :=
  match answer with
  | Failed _ => true
  | Body audio =>
      match truthy audio with
      | None => false
      | Some base64 =>
          match decodeBase64 base64 with
          | Throw _ => true
          | Normal bytes =>
              match decodeAudioData bytes with
              | Throw _ => true
              | Normal _ => false
              end
          end
      end
  end.

(** No call of [handleSpeak] is under way and the indicator is off. *)
Definition at_rest (w : World) : Prop :=
  isSpeaking w = None /\ awaiting w = [] /\ playing w = [].


(** The context every started source plays on is the one the ref names,
    the only one ever made, and every source starts at time zero. *)
Record OneContext (w : World) : Prop := mkOneContext {
  one_made : contexts_made (calls w)
             = match audioContextRef w with Some ctx => [ctx] | None => [] end;
  one_used : Forall (fun s => match s with
                              | (_, ctx, when, _) =>
                                  audioContextRef w = Some ctx /\ when = 0%Q
                              end) (starts (calls w))
}.

End Speech.

(** ** User text: JavaScript strings as UTF-16 code units

    Titles, message texts and prompts are cut by index and may hold any
    script, so they are modelled as the code units JavaScript counts. *)

Module Text.

Definition text : Type := list N.

(** A literal of the source that is plain ASCII. *)
Definition literal (s : string) : text :=
  map N_of_ascii (list_ascii_of_string s).

(** [a === b] on strings. *)
Fixpoint eqb (a b : text) : bool :=
  match a, b with
  | [], [] => true
  | x :: a', y :: b' => N.eqb x y && eqb a' b'
  | _, _ => false
  end.

(** A string under [if (...)], [||] or [!]: the empty string is falsy. *)
Definition truthy (t : option text) : option text :=
  match t with
  | Some [] => None
  | other => other
  end.

(** [t.slice(0, n)]. *)
Definition slice0 (n : nat) (t : text) : text := firstn n t.

(** White space and line terminators, the code units [trim] strips. *)
Definition is_white_space (c : N) : bool :=
  existsb (N.eqb c)
    [9; 10; 11; 12; 13; 32; 160; 5760; 8232; 8233; 8239; 8287; 12288;
     65279]%N
  || ((8192 <=? c) && (c <=? 8202))%N.

Fixpoint trimStart (t : text) : text :=
  match t with
  | c :: t' => if is_white_space c then trimStart t' else t
  | [] => []
  end.

(** [t.trim()]. *)
Definition trim (t : text) : text := rev (trimStart (rev (trimStart t))).

Fixpoint startsWith (hay needle : text) : bool :=
  match needle, hay with
  | [], _ => true
  | x :: needle', y :: hay' => N.eqb x y && startsWith hay' needle'
  | _ :: _, [] => false
  end.

(** [hay.includes(needle)]. *)
Fixpoint includes (hay needle : text) : bool :=
  startsWith hay needle
  || match hay with
     | [] => false
     | _ :: rest => includes rest needle
     end.

(** [n.toString()] for an integer below 10^21 in size: its decimal
    digits, with a minus sign when negative. *)
Definition Number_toString (n : Z) : text :=
  literal (NilEmpty.string_of_int (Z.to_int n)).

End Text.

(** ** [types.ts] *)

Module Types.

Import Text.

Inductive Role : Type := user | model.

Definition is_user (r : Role) : bool :=
  match r with user => true | model => false end.

(** [data] is base64 text.  What comes back from the server is copied
    into an attachment as it is, so [data] and [mimeType] can be absent. *)
Record Attachment : Type := mkAttachment {
  data : option string;
  mimeType : option text;
  name : text
}.

Module Message.
Record t : Type := mk {
  role : Role;
  parts : list text;                       (* the [text] of each part *)
  timestamp : Z;
  attachments : option (list Attachment);
  isImage : option bool
}.
End Message.

Module ChatSession.
Record t : Type := mk {
  id : text;
  title : text;
  messages : list Message.t;
  timestamp : Z
}.
End ChatSession.

Inductive AppMode : Type := CHAT | LIVE.

End Types.

(** ** [App.tsx]: the list of chat sessions *)

Module AppSessions.

Import JS Text Types.

Definition WARVI_INITIAL_GREETING : text :=
  literal "Hi, I'm WASO, created me Wasin. Your personal AI assistant. How can I assist you today?".

Record State : Type := mkState {
  mode : AppMode;
  sessions : list ChatSession.t;
  currentSessionId : option text;
  isHistoryOpen : bool
}.

(** The component as first rendered over the sessions read from storage. *)
Definition initial (saved : list ChatSession.t) : State :=
  mkState CHAT saved
    (match saved with
     | s :: _ => Some (ChatSession.id s)
     | [] => None
     end)
    false.

(** [createNewChat]; the three arguments are what the three calls of
    [Date.now()] return. *)
Definition createNewChat (now_id now_message now_session : Z) (st : State)
    : State :=
  let newId := Number_toString now_id in
  let newSession :=
    ChatSession.mk newId (literal "New Chat")
      [Message.mk model [WARVI_INITIAL_GREETING] now_message None None]
      now_session in
  mkState CHAT (newSession :: sessions st) (Some newId) false.

(** The title a session is given by [handleUpdateMessages]; a first user
    message without parts makes [parts[0].text] throw. *)
Definition newTitle (s : ChatSession.t) (messages : list Message.t)
    : completion text :=
  if eqb (ChatSession.title s) (literal "New Chat")
     || eqb (ChatSession.title s) (literal "Chat Session")
  then
    match find (fun m => is_user (Message.role m)) messages with
    | Some firstUserMsg =>
        match Message.parts firstUserMsg with
        | first :: _ =>
            Normal (slice0 30 first
                    ++ (if (30 <? List.length first)%nat
                        then literal "..." else []))
        | [] => Throw TypeError
        end
    | None => Normal (ChatSession.title s)
    end
  else Normal (ChatSession.title s).

(** The updater [handleUpdateMessages] hands to [setSessions].
    [Date.now()] is called once for each session that has the id, in list
    order; [now k] is what call number [k] of them returns. *)
Fixpoint updateSessions (sessionId : text) (messages : list Message.t)
    (now : nat -> Z) (prev : list ChatSession.t)
    : completion (list ChatSession.t) :=
  match prev with
  | [] => Normal []
  | s :: rest =>
      if eqb (ChatSession.id s) sessionId
      then
        match newTitle s messages with
        | Normal title =>
            match updateSessions sessionId messages
                    (fun k => now (S k)) rest with
            | Normal rest' =>
                Normal (ChatSession.mk (ChatSession.id s) title messages
                          (now O) :: rest')
            | Throw e => Throw e
            end
        | Throw e => Throw e
        end
      else
        match updateSessions sessionId messages now rest with
        | Normal rest' => Normal (s :: rest')
        | Throw e => Throw e
        end
  end.

Definition handleUpdateMessages (sessionId : text)
    (messages : list Message.t) (now : nat -> Z) (st : State)
    : completion State :=
  match updateSessions sessionId messages now (sessions st) with
  | Normal next =>
      Normal (mkState (mode st) next (currentSessionId st)
                (isHistoryOpen st))
  | Throw e => Throw e
  end.

Definition deleteSession (sessionId : text) (st : State) : State :=
  mkState (mode st)
    (filter (fun s => negb (eqb (ChatSession.id s) sessionId)) (sessions st))
    (match currentSessionId st with
     | Some current =>
         if eqb current sessionId then None else Some current
     | None => None
     end)
    (isHistoryOpen st).

(** A click on the entry at [position] of the history drawer. *)
Definition selectSession (position : nat) (st : State) : State :=
  match nth_error (sessions st) position with
  | Some s => mkState CHAT (sessions st) (Some (ChatSession.id s)) false
  | None => st
  end.

(** [sessions.find(s => s.id === currentSessionId)]. *)
Definition currentSession (st : State) : option ChatSession.t :=
  match currentSessionId st with
  | Some current =>
      find (fun s => eqb (ChatSession.id s) current) (sessions st)
  | None => None
  end.

Inductive Event : Type :=
| NewChat (now_id now_message now_session : Z)
| UpdateMessages (sessionId : text) (messages : list Message.t)
    (now : nat -> Z)
| Delete (sessionId : text)
| Select (position : nat)
| SetMode (m : AppMode)
| SetHistoryOpen (open : bool).

Definition handle (ev : Event) (st : State) : completion State :=
  match ev with
  | NewChat now_id now_message now_session =>
      Normal (createNewChat now_id now_message now_session st)
  | UpdateMessages sessionId messages now =>
      handleUpdateMessages sessionId messages now st
  | Delete sessionId => Normal (deleteSession sessionId st)
  | Select position => Normal (selectSession position st)
  | SetMode m =>
      Normal (mkState m (sessions st) (currentSessionId st)
                (isHistoryOpen st))
  | SetHistoryOpen open =>
      Normal (mkState (mode st) (sessions st) (currentSessionId st) open)
  end.

(** An error thrown by an updater takes the application down: the run
    ends there. *)
Fixpoint run (evs : list Event) (st : State) : completion State :=
  match evs with
  | [] => Normal st
  | ev :: rest =>
      match handle ev st with
      | Normal st' => run rest st'
      | Throw e => Throw e
      end
  end.

(** *** Vocabulary *)

Definition ids (l : list ChatSession.t) : list text :=
  map ChatSession.id l.

Definition is_placeholder (title : text) : bool :=
  eqb title (literal "New Chat") || eqb title (literal "Chat Session").

(** The current id, when there is one, is the id of a session. *)
Definition current_exists (st : State) : Prop :=
  forall current, currentSessionId st = Some current ->
                  In current (ids (sessions st)).

(** Every message has a part, as every message the code builds has. *)
Definition well_formed (messages : list Message.t) : Prop :=
  Forall (fun m => Message.parts m <> []) messages.

(** The title made of a first user message: its first thirty code units,
    and an ellipsis when there are more. *)
Definition title_of (first : text) : text :=
  slice0 30 first
  ++ (if (30 <? List.length first)%nat then literal "..." else []).

(** What [handleUpdateMessages] makes of one session: the named session
    takes the messages and the title of the title rule; any other stays
    as it is. *)
Definition updated (sessionId : text) (messages : list Message.t)
    (s s' : ChatSession.t) : Prop :=
  if eqb (ChatSession.id s) sessionId
  then ChatSession.id s' = ChatSession.id s
       /\ ChatSession.messages s' = messages
       /\ newTitle s messages = Normal (ChatSession.title s')
  else s' = s.

(** The clock readings of [n] calls of [Date.now()]. *)
Definition readings (now : nat -> Z) (n : nat) : list Z :=
  map now (seq 0 n).

(** The clock readings the new chats of a run take their ids from. *)
Definition created (evs : list Event) : list Z :=
  flat_map (fun ev => match ev with
                      | NewChat now_id _ _ => [now_id]
                      | _ => []
                      end) evs.

(** The sessions of the list with the id [sessionId]. *)
Definition named (sessionId : text) (l : list ChatSession.t)
    : list ChatSession.t :=
  filter (fun s => eqb (ChatSession.id s) sessionId) l.

(** The event does not touch the sessions with the id [sessionId]. *)
Definition leaves_alone (sessionId : text) (ev : Event) : Prop :=
  match ev with
  | NewChat now_id _ _ => Number_toString now_id <> sessionId
  | UpdateMessages other _ _ => other <> sessionId
  | Delete other => other <> sessionId
  | _ => True
  end.

(** A user message with the text [t]. *)
Definition said (t : text) (now : Z) : Message.t :=
  Message.mk user [t] now None None.

(** Two chats, the older one already titled. *)
Definition two_chats : State :=
  initial [ChatSession.mk (literal "1700000000001") (literal "New Chat")
             [] 1700000000001;
           ChatSession.mk (literal "1700000000000") (literal "Trip plan")
             [said (literal "Trip plan") 1700000000000] 1700000000000].

End AppSessions.

(** ** [api/gemini.ts]: the serverless handler *)

Module Api.

Import JS Text.
Local Open Scope js_scope.

(** The JSON the handler reads and passes on. *)
Module InlineData.
Record t : Type := mk { data : option string; mimeType : option text }.
End InlineData.

Module Part.
Record t : Type := mk { text : option Text.text;
                        inlineData : option InlineData.t }.
End Part.

Module Content.
Record t : Type := mk { parts : option (list Part.t) }.
End Content.

Module Body.
Record t : Type := mk {
  type : option Text.text;
  contents : option (list Content.t);
  systemInstruction : option Text.text;
  text : option Text.text
}.
End Body.

Record Request : Type := mkRequest {
  method : text;
  body : option Body.t       (* [req.body]; absent when nothing was sent *)
}.

(** The [config] of the three calls of [generateContent]. *)
Inductive Config : Type :=
| SpeechConfig (voiceName : string)
| ImageConfig (aspectRatio : string)
| GenerationConfig (systemInstruction : option text).

(** What the handler asks of the model service. *)
Inductive Call : Type :=
| GenerateContent (model : string) (contents : option (list Content.t))
    (config : Config).

(** What the service answers. *)
Module Candidate.
Record t : Type := mk { content : option Content.t }.
End Candidate.

Module GenerateContentResponse.
Record t : Type := mk {
  candidates : option (list Candidate.t);
  text : option Text.text
}.
End GenerateContentResponse.

Inductive Answer : Type :=
| Thrown (message : option text)        (* an error and its [message] *)
| Returned (response : GenerateContentResponse.t).

(** What the handler sends back. *)
Inductive Json : Type :=
| ErrorJson (error : text)
| AudioJson (audio : option string)
| ImageJson (parts : list Part.t)
| TextJson (text : option text).

Record Response : Type := mkResponse { status : Z; json : Json }.

(** [ai.models.generateContent]: the call is made, and returns or
    throws. *)
Definition generateContent (answer : Answer) (model : string)
    (contents : option (list Content.t)) (config : Config)
    : M (list Call) (sum (option text) GenerateContentResponse.t) :=
  write (fun cs => cs ++ [GenerateContent model contents config]) ;;
  ret (match answer with
       | Thrown message => inl message
       | Returned response => inr response
       end).

(** [response.candidates?.[0]?.content?.parts]. *)
Definition first_parts (response : GenerateContentResponse.t)
    : option (list Part.t) :=
  match GenerateContentResponse.candidates response with
  | Some (candidate :: _) =>
      match Candidate.content candidate with
      | Some content => Content.parts content
      | None => None
      end
  | _ => None
  end.

(** [response.candidates?.[0]?.content?.parts?.[0]?.inlineData?.data]. *)
Definition audioData (response : GenerateContentResponse.t)
    : option string :=
  match first_parts response with
  | Some (part :: _) =>
      match Part.inlineData part with
      | Some inline => InlineData.data inline
      | None => None
      end
  | _ => None
  end.

(** [contents?.[0]?.parts?.[0]?.text], or the empty string when that is
    falsy. *)
Definition prompt (contents : option (list Content.t)) : text :=
  match contents with
  | Some (content :: _) =>
      match Content.parts content with
      | Some (part :: _) =>
          match truthy (Part.text part) with
          | Some t => t
          | None => []
          end
      | _ => []
      end
  | _ => []
  end.

(** The Bangla phrase of the image check, twelve code units. *)
Definition BANGLA_IMAGE_PHRASE : text :=
  [2459; 2476; 2495; 32; 2468; 2504; 2480; 2495; 32; 2453; 2480; 2507]%N.

Section Handler.

(** [String.prototype.toLowerCase] is the platform's. *)
Variable toLowerCase : text -> text.

Definition isImageGen (contents : option (list Content.t)) : bool :=
  let promptLower := toLowerCase (prompt contents) in
  includes promptLower (literal "generate image")
  || includes promptLower (literal "create image")
  || includes promptLower BANGLA_IMAGE_PHRASE.

(** [handler].  [API_KEY] is [process.env.API_KEY] and [answer] what the
    model service does when it is called.  A request without a body makes
    the destructuring throw before the [try]. *)
Definition handler (API_KEY : option text) (req : Request) (answer : Answer)
    : M (list Call) Response :=
  if negb (eqb (method req) (literal "POST"))
  then ret (mkResponse 405 (ErrorJson (literal "Method not allowed")))
  else
    match body req with
    | None => throw TypeError
    | Some fields =>
        match truthy API_KEY with
        | None =>
            ret (mkResponse 500
                   (ErrorJson
                      (literal "Server configuration error: API Key missing.")))
        | Some _ =>
            let failed (message : option text) :=
              mkResponse 500
                (ErrorJson match truthy message with
                           | Some m => m
                           | None => literal "AI processing failed."
                           end) in
            if match Body.type fields with
               | Some t => eqb t (literal "tts")
               | None => false
               end
            then
              outcome <- generateContent answer "gemini-2.5-flash-preview-tts"
                           (Some [Content.mk
                                    (Some [Part.mk (Body.text fields) None])])
                           (SpeechConfig "Fenrir") ;;
              match outcome with
              | inr response =>
                  ret (mkResponse 200 (AudioJson (audioData response)))
              | inl message => ret (failed message)
              end
            else if isImageGen (Body.contents fields)
            then
              outcome <- generateContent answer "gemini-2.5-flash-image"
                           (Body.contents fields) (ImageConfig "1:1") ;;
              match outcome with
              | inr response =>
                  ret (mkResponse 200
                         (ImageJson match first_parts response with
                                    | Some parts => parts
                                    | None => []
                                    end))
              | inl message => ret (failed message)
              end
            else
              outcome <- generateContent answer "gemini-3-flash-preview"
                           (Body.contents fields)
                           (GenerationConfig (Body.systemInstruction fields)) ;;
              match outcome with
              | inr response =>
                  ret (mkResponse 200
                         (TextJson (GenerateContentResponse.text response)))
              | inl message => ret (failed message)
              end
        end
    end.

End Handler.

(** *** Vocabulary *)

(** [response.ok]. *)
Definition ok (r : Response) : bool := (200 <=? status r) && (status r <? 300).

(** The body names an error, and the error text is not empty. *)
Definition reports_error (r : Response) : Prop :=
  exists error, json r = ErrorJson error /\ error <> [].

(** A lower-casing that leaves its argument alone; it stands in for
    [toLowerCase] where an example needs one. *)
Definition as_written (t : text) : text := t.

(** A request to speak [t]. *)
Definition speech_request (t : text) : Request :=
  mkRequest (literal "POST")
    (Some (Body.mk (Some (literal "tts")) None None (Some t))).

End Api.

(** ** [ChatInterface.tsx]: the composer

    [handleSubmit], [performAIGeneration] and the save of an edited
    message.  [performAIGeneration] waits for the server once; it is split
    at that [await], and the second half runs when the answer arrives, with
    the [historyBefore] and the [onUpdateMessages] of the render that
    called it.  That callback is identified by the session id of its
    render. *)

Module Composer.

Import JS Text Types.
Local Open Scope js_scope.

Inductive ContentPart : Type :=
| TextPart (text : text)
| InlineDataPart (data : option string) (mimeType : option text).

Inductive Call : Type :=
| OnUpdateMessages (sessionId : text) (messages : list Message.t)
| Fetch (request : nat) (contentsParts : list ContentPart)
| RecognitionStop.

(** The answer of the server as the component reads it. *)
Module InlineData.
Record t : Type := mk { data : option string; mimeType : option text }.
End InlineData.

Module DataPart.
Record t : Type := mk { inlineData : option InlineData.t }.
End DataPart.

Module Data.
Record t : Type := mk {
  error : option Text.text;
  type : option Text.text;
  parts : option (list DataPart.t);
  text : option Text.text
}.
End Data.

(** [fetch] or [response.json()] fails, or there is a response with its
    [ok] flag and its parsed body. *)
Inductive Answer : Type :=
| Failed (e : JsError)
| Response (ok : bool) (data : Data.t).

Record Props : Type := mkProps {
  sessionId : text;
  initialMessages : list Message.t
}.

Record World : Type := mkWorld {
  input : text;
  isLoading : bool;
  isListening : bool;
  attachments : list Attachment;
  editingIdx : option nat;
  editValue : text;
  pending : list (nat * (text * list Message.t));
                      (* calls suspended at [fetch]: request, callback,
                         [historyBefore] *)
  calls : list Call;
  fresh : nat
}.

Definition initial : World := mkWorld [] false false [] None [] [] [] 0.

Definition with_input (v : text) (w : World) : World :=
  mkWorld v (isLoading w) (isListening w) (attachments w) (editingIdx w)
    (editValue w) (pending w) (calls w) (fresh w).
Definition with_isLoading (v : bool) (w : World) : World :=
  mkWorld (input w) v (isListening w) (attachments w) (editingIdx w)
    (editValue w) (pending w) (calls w) (fresh w).
Definition with_attachments (v : list Attachment) (w : World) : World :=
  mkWorld (input w) (isLoading w) (isListening w) v (editingIdx w)
    (editValue w) (pending w) (calls w) (fresh w).
Definition with_editingIdx (v : option nat) (w : World) : World :=
  mkWorld (input w) (isLoading w) (isListening w) (attachments w) v
    (editValue w) (pending w) (calls w) (fresh w).
Definition with_pending (v : list (nat * (text * list Message.t)))
    (w : World) : World :=
  mkWorld (input w) (isLoading w) (isListening w) (attachments w)
    (editingIdx w) (editValue w) v (calls w) (fresh w).
Definition with_calls (v : list Call) (w : World) : World :=
  mkWorld (input w) (isLoading w) (isListening w) (attachments w)
    (editingIdx w) (editValue w) (pending w) v (fresh w).
Definition with_fresh (v : nat) (w : World) : World :=
  mkWorld (input w) (isLoading w) (isListening w) (attachments w)
    (editingIdx w) (editValue w) (pending w) (calls w) v.

Definition call (c : Call) : M World unit :=
  write (fun w => with_calls (calls w ++ [c]) w).

Definition new_object : M World nat :=
  fun w => (Normal (fresh w), with_fresh (S (fresh w)) w).

(** [performAIGeneration] up to its [await fetch]. *)
Definition performAIGeneration (props : Props) (currentInput : text)
    (currentAttachments : list Attachment) (historyBefore : list Message.t)
    : M World unit :=
  write (with_isLoading true) ;;
  let contentsParts :=
    TextPart currentInput
      :: map (fun att => InlineDataPart (data att) (mimeType att))
             currentAttachments in
  request <- new_object ;;
  call (Fetch request contentsParts) ;;
  write (fun w => with_pending
                    (pending w ++ [(request, (sessionId props, historyBefore))])
                    w).

(** The reply built from a body that arrived with [ok] set. *)
Definition reply (data : Data.t) (now : Z) : Message.t :=
  if match Data.type data with
     | Some t => eqb t (literal "image")
     | None => false
     end
  then
    match find (fun part => match DataPart.inlineData part with
                            | Some _ => true
                            | None => false
                            end)
               (match Data.parts data with Some l => l | None => [] end) with
    | Some (DataPart.mk (Some inline)) =>
        Message.mk model [literal "Masterpiece generated by WASO."] now
          (Some [mkAttachment (InlineData.data inline)
                   (InlineData.mimeType inline) (literal "waso_art.png")])
          (Some true)
    | _ => Message.mk model [literal "Generation failed."] now None None
    end
  else
    Message.mk model
      [match truthy (Data.text data) with
       | Some t => t
       | None => literal "No response from WASO."
       end] now None None.

Definition offline (now : Z) : Message.t :=
  Message.mk model
    [literal "WASO is currently offline. Check Vercel API logs."] now None
    None.

(** The rest of [performAIGeneration]: [try], [catch] and [finally].
    The message of the error thrown on a response that is not [ok] is
    never read; [now] is what [Date.now()] returns. *)
Definition performAIGeneration_resume (callback : text)
    (historyBefore : list Message.t) (answer : Answer) (now : Z)
    : M World unit :=
  try_catch
    (data <- match answer with
             | Failed e => throw e
             | Response ok data =>
                 if negb ok then throw (Error "Uplink failure") else ret data
             end ;;
     call (OnUpdateMessages callback (historyBefore ++ [reply data now])))
    (fun _ =>
       call (OnUpdateMessages callback (historyBefore ++ [offline now]))) ;;
  write (with_isLoading false).

(** [handleSubmit]. *)
Definition handleSubmit (props : Props) (now : Z) : M World unit :=
  input <- read input ;;
  attachments <- read attachments ;;
  isLoading <- read isLoading ;;
  if (match trim input with [] => true | _ => false end
      && (List.length attachments =? 0)%nat)
     || isLoading
  then ret tt
  else
    let userMessage :=
      Message.mk user [input] now
        (if (0 <? List.length attachments)%nat then Some attachments
         else None)
        None in
    let updatedMessages := initialMessages props ++ [userMessage] in
    call (OnUpdateMessages (sessionId props) updatedMessages) ;;
    write (with_input []) ;;
    write (with_attachments []) ;;
    isListening <- read isListening ;;
    (if isListening then call RecognitionStop else ret tt) ;;
    performAIGeneration props input attachments updatedMessages.

(** The Save button of the editor, which is rendered on the message at
    [editingIdx] when there is one. *)
Definition saveEdit (props : Props) : M World unit :=
  editingIdx <- read editingIdx ;;
  editValue <- read editValue ;;
  match editingIdx with
  | Some idx =>
      match nth_error (initialMessages props) idx with
      | Some msg =>
          let newHist :=
            firstn idx (initialMessages props)
            ++ [Message.mk (Message.role msg) [editValue]
                  (Message.timestamp msg) (Message.attachments msg)
                  (Message.isImage msg)] in
          call (OnUpdateMessages (sessionId props) newHist) ;;
          write (with_editingIdx None) ;;
          performAIGeneration props editValue
            (match Message.attachments msg with
             | Some l => l
             | None => []
             end)
            newHist
      | None => ret tt
      end
  | None => ret tt
  end.

(** An answer resumes the call that waits for it. *)
Definition answered (request : nat) (answer : Answer) (now : Z)
    : M World unit :=
  waiting <- read pending ;;
  match find (fun p => Nat.eqb (fst p) request) waiting with
  | Some (_, (callback, historyBefore)) =>
      write (with_pending
               (filter (fun p => negb (Nat.eqb (fst p) request)) waiting)) ;;
      performAIGeneration_resume callback historyBefore answer now
  | None => ret tt
  end.

(** *** Vocabulary *)

(** The messages handed to [onUpdateMessages], in call order. *)
Definition updates (cs : list Call) : list (text * list Message.t) :=
  flat_map (fun c => match c with
                     | OnUpdateMessages sessionId messages =>
                         [(sessionId, messages)]
                     | _ => []
                     end) cs.

Definition requests (cs : list Call) : list (nat * list ContentPart) :=
  flat_map (fun c => match c with
                     | Fetch request contentsParts =>
                         [(request, contentsParts)]
                     | _ => []
                     end) cs.

(** The user message [handleSubmit] builds. *)
Definition userMessage (w : World) (now : Z) : Message.t :=
  Message.mk user [input w] now
    (if (0 <? List.length (attachments w))%nat then Some (attachments w)
     else None)
    None.

(** The parts [performAIGeneration] sends. *)
Definition contentsParts (currentInput : text)
    (currentAttachments : list Attachment) : list ContentPart :=
  TextPart currentInput
    :: map (fun att => InlineDataPart (data att) (mimeType att))
           currentAttachments.

(** [handleSubmit] returns at its guard. *)
Definition refused (w : World) : bool :=
  (match trim (input w) with [] => true | _ => false end
   && (List.length (attachments w) =? 0)%nat)
  || isLoading w.


(** The reply is one of the messages [performAIGeneration] can build. *)
Definition is_reply (m : Message.t) : Prop :=
  Message.role m = model /\ exists t, Message.parts m = [t] /\ t <> [].

End Composer.

(** ** The components together *)

Module Wiring.

Import JS Text Types.

(** The props [App] renders [ChatInterface] with: only in chat mode and
    with a current id that is not empty. *)
Definition props_of (st : AppSessions.State) : option Composer.Props :=
  match AppSessions.mode st, truthy (AppSessions.currentSessionId st) with
  | CHAT, Some current =>
      Some (Composer.mkProps current
              (match AppSessions.currentSession st with
               | Some s => ChatSession.messages s
               | None => []
               end))
  | _, _ => None
  end.

(** [App] handles the calls of [onUpdateMessages] in order; [now j k] is
    what call number [k] of [Date.now()] returns while call number [j] of
    [onUpdateMessages] is handled. *)
Fixpoint deliver (updates : list (text * list Message.t))
    (now : nat -> nat -> Z) (st : AppSessions.State)
    : completion AppSessions.State :=
  match updates with
  | [] => Normal st
  | (sessionId, messages) :: rest =>
      match AppSessions.handleUpdateMessages sessionId messages (now O) st
      with
      | Normal st' => deliver rest (fun j => now (S j)) st'
      | Throw e => Throw e
      end
  end.

(** The calls of [onUpdateMessages] made between two worlds of the
    composer. *)
Definition new_updates (w w' : Composer.World)
    : list (text * list Message.t) :=
  skipn (List.length (Composer.updates (Composer.calls w)))
        (Composer.updates (Composer.calls w')).

(** The request [performAIGeneration] sends, as the handler receives it;
    [systemInstruction] is the system prompt of [constants.tsx]. *)
Definition part_of (part : Composer.ContentPart) : Api.Part.t :=
  match part with
  | Composer.TextPart t => Api.Part.mk (Some t) None
  | Composer.InlineDataPart data mimeType =>
      Api.Part.mk None (Some (Api.InlineData.mk data mimeType))
  end.

Definition chat_request (systemInstruction : text)
    (contentsParts : list Composer.ContentPart) : Api.Request :=
  Api.mkRequest (literal "POST")
    (Some (Api.Body.mk None
             (Some [Api.Content.mk (Some (map part_of contentsParts))])
             (Some systemInstruction) None)).

(** How the chat component reads a response of the handler:
    [response.ok] and the fields of the parsed body. *)
Definition data_of (r : Api.Response) : Composer.Data.t :=
  match Api.json r with
  | Api.ErrorJson error => Composer.Data.mk (Some error) None None None
  | Api.AudioJson _ => Composer.Data.mk None None None None
  | Api.ImageJson parts =>
      Composer.Data.mk None (Some (literal "image"))
        (Some (map (fun part =>
                      Composer.DataPart.mk
                        match Api.Part.inlineData part with
                        | Some (Api.InlineData.mk data mimeType) =>
                            Some (Composer.InlineData.mk data mimeType)
                        | None => None
                        end) parts))
        None
  | Api.TextJson text =>
      Composer.Data.mk None (Some (literal "text")) None text
  end.

Definition chat_answer (r : Api.Response) : Composer.Answer :=
  Composer.Response (Api.ok r) (data_of r).


End Wiring.

(** ** [App.tsx] and [ChatInterface.tsx]: the chat component on screen *)

Module Screen.

Import JS Text Types.

(** [App] renders [ChatInterface] while the mode is chat and a chat is
    current, and gives it no [key]: as long as it stays rendered the
    instance and its state stay, whatever chat is current.  When it is not
    rendered the instance is unmounted.  The cleanup of its effect stops
    the speech recognition and nothing else: the requests the instance
    awaits are still answered and the sources it started still play.
    Rendered again, the component is a new instance. *)
Record Page : Type := mkPage {
  app : AppSessions.State;
  onScreen : option ChatInterface.World;
  offScreen : list ChatInterface.World     (* latest first *)
}.

Definition shown (st : AppSessions.State) : bool :=
  match Wiring.props_of st with
  | Some _ => true
  | None => false
  end.

(** The page as first rendered over the application state [st]. *)
Definition opened (st : AppSessions.State) : Page :=
  mkPage st (if shown st then Some ChatInterface.initial else None) [].

(** [App] is rendered again over its new state. *)
Definition render (st : AppSessions.State) (p : Page) : Page :=
  match onScreen p, shown st with
  | Some w, true => mkPage st (Some w) (offScreen p)
  | Some w, false => mkPage st None (w :: offScreen p)
  | None, true => mkPage st (Some ChatInterface.initial) (offScreen p)
  | None, false => mkPage st None (offScreen p)
  end.

Fixpoint replace (k : nat) (w : ChatInterface.World)
    (l : list ChatInterface.World) : list ChatInterface.World :=
  match l, k with
  | [], _ => []
  | _ :: rest, O => w :: rest
  | v :: rest, S k' => v :: replace k' w rest
  end.

(** What happens on the page: an event of the application, an event of
    the instance on screen, or an answer or the end of a source of an
    instance that is off screen (it has no button to press). *)
Inductive Event : Type :=
| OfApp (ev : AppSessions.Event)
| OfChat (ev : ChatInterface.Event)
| OffScreen (instance : nat) (ev : ChatInterface.Event).

Definition step (ev : Event) (p : Page) : Page :=
  match ev with
  | OfApp ev =>
      match AppSessions.handle ev (app p) with
      | Normal st => render st p
      | Throw _ => p
      end
  | OfChat ev =>
      match onScreen p with
      | Some w =>
          mkPage (app p) (Some (ChatInterface.step ev w)) (offScreen p)
      | None => p
      end
  | OffScreen instance ev =>
      match ev, nth_error (offScreen p) instance with
      | ChatInterface.Speak _ _, _ => p
      | _, Some w =>
          mkPage (app p) (onScreen p)
            (replace instance (ChatInterface.step ev w) (offScreen p))
      | _, None => p
      end
  end.

Definition run (evs : list Event) (p : Page) : Page :=
  fold_left (fun p ev => step ev p) evs p.

(** The sources that play on the page, with the index each was requested
    for: those of the instance on screen and those of the instances off
    screen. *)
Definition sounding (p : Page) : list (nat * nat) :=
  match onScreen p with
  | Some w => ChatInterface.playing w
  | None => []
  end
  ++ flat_map ChatInterface.playing (offScreen p).

(** The index the speaking indicator is shown at. *)
Definition indicator (p : Page) : option nat :=
  match onScreen p with
  | Some w => ChatInterface.isSpeaking w
  | None => None
  end.

(** The messages on screen: the [initialMessages] prop. *)
Definition messages_shown (p : Page) : list Message.t :=
  match Wiring.props_of (app p) with
  | Some props => Composer.initialMessages props
  | None => []
  end.

(** *** Pages used in the examples *)

(** Two chats of three messages each; the first is current. *)
Definition two_talks : AppSessions.State :=
  AppSessions.initial
    [ChatSession.mk (literal "1700000000001") (literal "Trip plan")
       [Message.mk model [AppSessions.WARVI_INITIAL_GREETING]
          1700000000001 None None;
        AppSessions.said (literal "Trip plan") 1700000000002;
        Message.mk model [literal "Pack light."] 1700000000003 None None]
       1700000000003;
     ChatSession.mk (literal "1700000000000") (literal "Soup")
       [Message.mk model [AppSessions.WARVI_INITIAL_GREETING]
          1700000000000 None None;
        AppSessions.said (literal "Soup") 1700000000004;
        Message.mk model [literal "Boil water."] 1700000000005 None None]
       1700000000005].

(** The reply at index 2 of the first chat is spoken: the request is
    answered with three silent samples, which play. *)
Definition speak_the_reply : list Event :=
  [OfChat (ChatInterface.Speak "Pack light." 2);
   OfChat (ChatInterface.Answered 0
             (ChatInterface.Body (Some "AAAAAAAA"%string)))].

Definition reply_plays : Page := run speak_the_reply (opened two_talks).

(** The greeting at index 0 is spoken. *)
Definition speak_the_greeting : list Event :=
  [OfChat (ChatInterface.Speak "Hi, I'm WASO." 0);
   OfChat (ChatInterface.Answered 0
             (ChatInterface.Body (Some "AAAAAAAA"%string)))].

(** The user looks at the live mode and comes back to the chat. *)
Definition there_and_back : list Event :=
  [OfApp (AppSessions.SetMode LIVE); OfApp (AppSessions.SetMode CHAT)].

End Screen.


(** * Facts about the language-level pieces *)

Module Facts.

Import JS.

Lemma ToInt16_in_range (x : Q) :
  -32768 <= truncate x <= 32767 -> ToInt16 x = truncate x.
Proof.
  intros H. unfold ToInt16.
  destruct (Z.leb_spec 32768 (truncate x mod 65536)) as [Hw | Hw];
    Z.div_mod_to_equations; lia.
Qed.

Lemma truncate_scaled_bounds (s : Q) :
  (-1 <= s)%Q -> (s < 1)%Q -> -32768 <= truncate (s * 32768) <= 32767.
Proof.
  destruct s as [n d]. unfold Qle, Qlt, truncate. cbn [Qnum Qden Qmult].
  intros Hlo Hhi.
  rewrite Pos.mul_1_r.
  Z.quot_rem_to_equations. nia.
Qed.

Lemma truncate_within_one (x : Q) :
  (Qabs (inject_Z (truncate x) - x) < 1)%Q.
Proof.
  destruct x as [n d]. unfold truncate. cbn [Qnum Qden].
  apply Qabs_Qlt_condition. unfold Qlt, Qminus, Qplus, Qopp, inject_Z. cbn [Qnum Qden].
  rewrite ?Pos.mul_1_l, ?Z.mul_1_r.
  Z.quot_rem_to_equations. split; nia.
Qed.

Lemma bind_read {S A B} (f : S -> A) (k : A -> M S B) (w : S) :
  bind (read f) k w = k (f w) w.
Proof. reflexivity. Qed.

Lemma bind_write {S B} (f : S -> S) (k : unit -> M S B) (w : S) :
  bind (write f) k w = k tt (f w).
Proof. reflexivity. Qed.

Lemma bind_normal {S A B} (c : M S A) (k : A -> M S B) (w w' : S) (a : A) :
  c w = (Normal a, w') -> bind c k w = k a w'.
Proof. intros H. unfold bind. now rewrite H. Qed.

Lemma bind_throw {S A B} (c : M S A) (k : A -> M S B) (w w' : S) e :
  c w = (Throw e, w') -> bind c k w = (Throw e, w').
Proof. intros H. unfold bind. now rewrite H. Qed.

Lemma bind_assoc {S A B C} (c : M S A) (k : A -> M S B) (h : B -> M S C) w :
  bind (bind c k) h w = bind c (fun a => bind (k a) h) w.
Proof. unfold bind. destruct (c w) as [[a | e] w']; reflexivity. Qed.

End Facts.

(** * The live-voice core *)

Module LiveFacts.

Import JS TypedArray WebAudio LiveInterface Facts.

Lemma capture_sample_truncates (s : Q) :
  (-1 <= s)%Q -> (s < 1)%Q -> capture_sample s = truncate (s * 32768).
Proof.
  intros Hlo Hhi. unfold capture_sample.
  apply ToInt16_in_range, truncate_scaled_bounds; assumption.
Qed.

Lemma int16_of_bytes_of_int16 (x : Z) :
  int16 x ->
  int16_of_bytes ((x mod 65536) mod 256) ((x mod 65536) / 256) = x.
Proof.
  unfold int16, int16_of_bytes. intros H.
  destruct (Z.leb_spec 32768
              ((x mod 65536) mod 256 + 256 * ((x mod 65536) / 256)));
    Z.div_mod_to_equations; lia.
Qed.

Lemma Int16Array_of_Uint8Array (samples : list Z) :
  Forall int16 samples ->
  Int16Array_of_buffer (Uint8Array_of_Int16Array samples) = Some samples.
Proof.
  induction 1 as [| x l Hx _ IH]; [reflexivity |].
  cbn [Uint8Array_of_Int16Array flat_map bytes_of_int16 app
       Int16Array_of_buffer].
  fold (Uint8Array_of_Int16Array l). rewrite IH.
  rewrite int16_of_bytes_of_int16 by assumption. reflexivity.
Qed.

Lemma map_nth_seq {A B} (f : A -> B) (d : A) (l : list A) :
  map (fun i => f (nth i l d)) (seq 0 (List.length l)) = map f l.
Proof.
  induction l as [| a l IH]; [reflexivity |].
  cbn [List.length seq map nth]. f_equal.
  rewrite <- seq_shift, map_map. exact IH.
Qed.

Lemma decodeAudioData_mono (samples : list Z) (rate : Z) :
  samples <> [] -> Forall int16 samples ->
  decodeAudioData (Uint8Array_of_Int16Array samples) rate 1
  = Normal (mkAudioBuffer 1 (List.length samples) rate
              [map decode_sample samples]).
Proof.
  intros Hne Hall. unfold decodeAudioData.
  rewrite Int16Array_of_Uint8Array by assumption.
  rewrite Nat.div_1_r.
  assert (Hlen : (List.length samples =? 0)%nat = false)
    by (destruct samples; [congruence | reflexivity]).
  rewrite Hlen. cbn [Nat.eqb orb seq map].
  do 3 f_equal.
  rewrite <- (map_nth_seq decode_sample 0 samples).
  apply map_ext. intros i. now rewrite Nat.mul_1_r, Nat.add_0_r.
Qed.

Lemma zrange_In (n : nat) : forall lo x,
  lo <= x < lo + Z.of_nat n -> In x (zrange lo n).
Proof.
  induction n as [| n IH]; intros lo x H.
  - cbn in H. lia.
  - cbn [zrange]. destruct (Z.eq_dec lo x) as [-> | Hne].
    + now left.
    + right. apply IH. lia.
Qed.

(** Every 16-bit sample survives decode and capture unchanged; the 65536
    cases are checked one by one. *)
Lemma sample_round_trip_table :
  forallb (fun x => capture_sample (decode_sample x) =? x)
          (zrange (-32768) (Z.to_nat 65536)) = true.
Proof. vm_compute. reflexivity. Qed.

Lemma sample_round_trip (x : Z) :
  int16 x -> capture_sample (decode_sample x) = x.
Proof.
  intros H. apply Z.eqb_eq.
  refine (proj1 (forallb_forall _ _) sample_round_trip_table x _).
  apply zrange_In. unfold int16 in H.
  rewrite Z2Nat.id by lia. lia.
Qed.

(** C8.  A frame of 16-bit samples, decoded for playback
    ([sample / 32768.0] into a [Float32Array]) and converted back by the
    capture loop ([float * 32768] into an [Int16Array]), comes back with
    every sample within one step of the original. *)
Theorem pcm_round_trip (samples : list Z) :
  samples <> [] -> Forall int16 samples ->
  exists audioBuffer channel,
    decodeAudioData (Uint8Array_of_Int16Array samples) 24000 1
    = Normal audioBuffer
    /\ channelData audioBuffer = [channel]
    /\ Forall2 (fun x y => Z.abs (y - x) <= 1) samples
               (capture_int16 channel).
Proof.
  intros Hne Hall.
  exists (mkAudioBuffer 1 (List.length samples) 24000
            [map decode_sample samples]), (map decode_sample samples).
  split; [now apply decodeAudioData_mono |].
  split; [reflexivity |].
  unfold capture_int16. clear Hne.
  induction Hall as [| x l Hx _ IH]; cbn [map]; constructor; [| exact IH].
  rewrite sample_round_trip by assumption. lia.
Qed.

(** C8 at a frame of six samples that includes both ends of the range. *)
Lemma pcm_round_trip_witness :
  exists audioBuffer channel,
    decodeAudioData
      (Uint8Array_of_Int16Array [0; 1; -1; 12345; 32767; -32768]) 24000 1
    = Normal audioBuffer
    /\ channelData audioBuffer = [channel]
    /\ Forall2 (fun x y => Z.abs (y - x) <= 1)
               [0; 1; -1; 12345; 32767; -32768] (capture_int16 channel).
Proof.
  apply (pcm_round_trip [0; 1; -1; 12345; 32767; -32768]).
  - discriminate.
  - repeat constructor; unfold int16; lia.
Defined.

Lemma flush_sources (sources : list nat) : forall w : World,
  for_of sources
    (fun source => try_catch (source_stop source) (fun _ => ret tt)) w
  = (Normal tt, with_calls (calls w ++ map StopSource sources) w).
Proof.
  induction sources as [| s l IH]; intros w.
  - cbn. rewrite app_nil_r. now destruct w.
  - cbn [for_of map]. unfold bind at 1.
    assert (Hs : try_catch (source_stop s) (fun _ => ret tt) w
                 = (Normal tt, with_calls (calls w ++ [StopSource s]) w)).
    { unfold try_catch, source_stop, bind, read, call, write, ret, throw.
      now destruct (existsb (is_start_of s) (calls w)). }
    rewrite Hs, IH. destruct w. cbn. now rewrite <- app_assoc.
Qed.

Lemma close_context_caught (ctx : nat) (w : World) :
  try_catch (context_close ctx) (fun _ => ret tt) w
  = (Normal tt, with_calls (calls w ++ [CloseAudioContext ctx]) w).
Proof.
  unfold try_catch, context_close, bind, read, call, write, ret, throw.
  now destruct (existsb (is_close_of ctx) (calls w)).
Qed.

(** [stopSession] always completes, and this is the world it leaves. *)
Lemma stopSession_spec (w : World) :
  stopSession w
  = (Normal tt,
     mkWorld false false (errorMsg w) (needsKey w) (audioContextRef w)
       (outputAudioContextRef w) None 0%Q [] (calls w ++ stop_calls w)
       (fresh w) (browser w) (awaiting w) (nextCall w) (fulfilled w)
       (thens w)).
Proof.
  unfold stopSession, stop_calls.
  rewrite bind_read.
  set (w1 := match sessionRef w with
             | Some s => with_sessionRef None
                           (with_calls (calls w ++ [CloseSession s]) w)
             | None => w
             end).
  rewrite (bind_normal _ _ w w1 tt)
    by (subst w1; now destruct (sessionRef w)).
  rewrite !bind_write, bind_read.
  rewrite (bind_normal _ _ _ _ tt (flush_sources _ _)).
  rewrite !bind_write, bind_read.
  set (w2 := with_nextStartTimeRef 0%Q _).
  set (w3 := match audioContextRef w2 with
             | Some ctx => with_calls (calls w2 ++ [CloseAudioContext ctx]) w2
             | None => w2
             end).
  rewrite (bind_normal _ _ w2 w3 tt)
    by (subst w3; destruct (audioContextRef w2);
        [apply close_context_caught | reflexivity]).
  rewrite bind_read.
  subst w3 w2 w1.
  destruct w as [a c e k ic oc s t src cs f br aw nc fu th].
  destruct s, ic, oc; cbn; rewrite ?close_context_caught; cbn;
    rewrite <- ?app_assoc; cbn; rewrite ?app_nil_r; reflexivity.
Qed.

(** [onmessage], case by case. *)
Lemma onmessage_unfold (currentTime : Q) (message : LiveServerMessage)
    (w : World) :
  onmessage currentTime message w
  = match read_base64Audio message with
    | Throw e => (Throw e, w)
    | Normal base64Audio =>
        match truthy base64Audio, outputAudioContextRef w with
        | Some base64, Some ctx =>
            let w1 := with_nextStartTimeRef
                        (Math_max (nextStartTimeRef w) currentTime) w in
            match decode base64 with
            | Throw e => (Throw e, w1)
            | Normal bytes =>
                match decodeAudioData bytes 24000 1 with
                | Throw e => (Throw e, w1)
                | Normal audioBuffer =>
                    interruption_part message
                      (scheduled currentTime ctx audioBuffer w)
                end
            end
        | _, _ => interruption_part message w
        end
    end.
Proof.
  unfold onmessage, interruption_part, flushed.
  unfold bind at 1. unfold lift at 1.
  destruct (read_base64Audio message) as [base64Audio | e]; [| reflexivity].
  rewrite bind_read.
  assert (Hflush : forall v : World,
    (if is_interrupted message
     then
       bind (read sourcesRef)
         (fun sources =>
            bind (for_of sources
                    (fun source =>
                       try_catch (source_stop source) (fun _ => ret tt)))
              (fun _ =>
                 bind (write (with_sourcesRef []))
                   (fun _ => write (with_nextStartTimeRef 0%Q))))
     else ret tt) v
    = if is_interrupted message
      then (Normal tt,
            with_nextStartTimeRef 0%Q
              (with_sourcesRef []
                 (with_calls (calls v ++ map StopSource (sourcesRef v)) v)))
      else (Normal tt, v)).
  { intros v. destruct (is_interrupted message); [| reflexivity].
    rewrite bind_read.
    rewrite (bind_normal _ _ _ _ tt (flush_sources _ _)).
    now rewrite bind_write. }
  destruct (truthy base64Audio) as [base64 |];
    [destruct (outputAudioContextRef w) as [ctx |] eqn:Hout |].
  - rewrite bind_assoc, bind_write.
    rewrite bind_assoc. unfold bind at 1. unfold lift at 1.
    destruct (decode base64) as [bytes | e]; [| reflexivity].
    rewrite bind_assoc. unfold bind at 1. unfold lift at 1.
    destruct (decodeAudioData bytes 24000 1) as [audioBuffer | e];
      [| reflexivity].
    unfold bind at 1. unfold bind at 1.
    cbv beta iota delta [new_object read call write bind ret].
    cbn [fst snd]. rewrite Hflush.
    destruct w; reflexivity.
  - unfold bind at 1. unfold ret at 1. apply Hflush.
  - unfold bind at 1.
    replace (match outputAudioContextRef w with
             | Some _ | _ => ret tt
             end w) with (@Normal unit tt, w)
      by (now destruct (outputAudioContextRef w)).
    apply Hflush.
Qed.

Lemma max_keeps_cursor (cursor currentTime : Q) :
  Qle_bool currentTime cursor = true -> Math_max cursor currentTime = cursor.
Proof.
  intros H. apply Qle_bool_iff in H.
  unfold Math_max, Qmax, GenericMinMax.gmax.
  destruct (cursor ?= currentTime)%Q eqn:Hc; try reflexivity.
  apply Qlt_alt in Hc. exfalso. now apply (Qle_not_lt _ _ H).
Qed.

Lemma max_takes_clock (cursor currentTime : Q) :
  (cursor < currentTime)%Q -> Math_max cursor currentTime = currentTime.
Proof.
  intros H. unfold Math_max, Qmax, GenericMinMax.gmax.
  destruct (Qcompare_spec cursor currentTime) as [Heq | Hlt | Hgt].
  - rewrite Heq in H. now apply Qlt_irrefl in H.
  - reflexivity.
  - exfalso. apply (Qle_not_lt _ _ (Qlt_le_weak _ _ H) Hgt).
Qed.

Lemma onmessage_frame (currentTime : Q) (message : LiveServerMessage)
    (w : World) (ctx : nat) (audioBuffer : AudioBuffer) :
  outputAudioContextRef w = Some ctx ->
  received_frame message = Some audioBuffer ->
  onmessage currentTime message w
  = interruption_part message (scheduled currentTime ctx audioBuffer w).
Proof.
  intros Hout Hframe. rewrite onmessage_unfold.
  unfold received_frame in Hframe.
  destruct (read_base64Audio message) as [base64Audio | e]; [| discriminate].
  destruct (truthy base64Audio) as [base64 |]; [| discriminate].
  rewrite Hout. cbv zeta.
  destruct (decode base64) as [bytes | e]; [| discriminate].
  destruct (decodeAudioData bytes 24000 1) as [b | e]; [| discriminate].
  now inversion Hframe.
Qed.

Lemma step_audio_frame (currentTime : Q) (message : LiveServerMessage)
    (w : World) (ctx : nat) :
  outputAudioContextRef w = Some ctx ->
  is_audio_frame message = true ->
  exists audioBuffer,
    received_frame message = Some audioBuffer
    /\ frame_duration message = duration audioBuffer
    /\ step (ServerMessage currentTime message) w
       = scheduled currentTime ctx audioBuffer w.
Proof.
  intros Hout Hframe. unfold is_audio_frame in Hframe.
  unfold frame_duration.
  destruct (received_frame message) as [b |] eqn:Hb; [| discriminate].
  exists b. split; [reflexivity |]. split; [reflexivity |].
  unfold step, handle. rewrite (onmessage_frame _ _ _ ctx b Hout Hb).
  unfold interruption_part.
  now destruct (is_interrupted message).
Qed.

Lemma start_times_app (cs cs' : list Call) :
  start_times (cs ++ cs') = start_times cs ++ start_times cs'.
Proof. unfold start_times. apply flat_map_app. Qed.

Lemma run_cons (ev : Event) (evs : list Event) (w : World) :
  run (ev :: evs) w = run evs (step ev w).
Proof. reflexivity. Qed.

Lemma schedule_run : forall (arrivals : list (Q * LiveServerMessage))
    (w : World) (ctx : nat),
  outputAudioContextRef w = Some ctx ->
  Forall (fun a => is_audio_frame (snd a) = true) arrivals ->
  back_to_back w arrivals = true ->
  start_times (calls (run (map arrival_event arrivals) w))
  = start_times (calls w)
    ++ running_starts (nextStartTimeRef w) (durations arrivals).
Proof.
  induction arrivals as [| [now message] rest IH]; intros w ctx Hout Hall Hb.
  - cbn. now rewrite app_nil_r.
  - inversion Hall as [| ? ? Hframe Hrest]; subst. cbn [snd] in Hframe.
    cbn [back_to_back] in Hb. apply andb_prop in Hb as [Hnow Hb].
    cbn [fst] in Hnow.
    destruct (step_audio_frame now message w ctx Hout Hframe)
      as (b & _ & Hd & Hstep).
    change (arrival_event (now, message))
      with (ServerMessage now message) in Hb.
    rewrite Hstep in Hb.
    change (map arrival_event ((now, message) :: rest))
      with (ServerMessage now message :: map arrival_event rest).
    rewrite run_cons, Hstep.
    rewrite (IH _ ctx); [| exact Hout | exact Hrest | exact Hb].
    unfold scheduled, durations.
    cbn [calls nextStartTimeRef map running_starts snd].
    rewrite (max_keeps_cursor _ _ Hnow), start_times_app, Hd.
    cbn [start_times flat_map app]. now rewrite <- app_assoc.
Qed.

Lemma running_starts_length (ds : list Q) : forall cursor,
  List.length (running_starts cursor ds) = List.length ds.
Proof. induction ds; intros; cbn; [reflexivity | now rewrite IHds]. Qed.

Lemma running_starts_nth (ds : list Q) : forall cursor k t,
  nth_error (running_starts cursor ds) k = Some t ->
  (t == cursor + sum_durations (firstn k ds))%Q.
Proof.
  induction ds as [| d ds IH]; intros cursor k t H.
  - destruct k; discriminate.
  - destruct k as [| k]; cbn in H.
    + inversion H. cbn. ring.
    + apply IH in H. rewrite H. cbn [firstn sum_durations fold_right].
      fold (sum_durations (firstn k ds)). ring.
Qed.

(** The first frame starts at the later of the cursor and the clock, and
    the frames after it, arriving back to back, follow end to end. *)
Lemma frames_concatenate_after_the_first :
  forall (w : World) (ctx : nat) (a : Q * LiveServerMessage)
         (rest : list (Q * LiveServerMessage)),
    outputAudioContextRef w = Some ctx ->
    is_audio_frame (snd a) = true ->
    Forall (fun b => is_audio_frame (snd b) = true) rest ->
    back_to_back (step (arrival_event a) w) rest = true ->
    start_times (calls (run (map arrival_event (a :: rest)) w))
    = start_times (calls w)
      ++ running_starts (Math_max (nextStartTimeRef w) (fst a))
           (durations (a :: rest)).
Proof.
  intros w ctx [now message] rest Hout Hframe Hrest Hb.
  cbn [fst snd] in *.
  destruct (step_audio_frame now message w ctx Hout Hframe)
    as (b & _ & Hd & Hstep).
  change (arrival_event (now, message))
    with (ServerMessage now message) in Hb.
  change (map arrival_event ((now, message) :: rest))
    with (ServerMessage now message :: map arrival_event rest).
  rewrite run_cons.
  rewrite (schedule_run rest _ ctx);
    [| rewrite Hstep; exact Hout | exact Hrest | exact Hb].
  rewrite Hstep. unfold scheduled, durations.
  cbn [calls nextStartTimeRef map running_starts snd].
  rewrite start_times_app, Hd.
  cbn [start_times flat_map app]. now rewrite <- app_assoc.
Qed.

(** C1, as the code has it.  Let audio frames arrive one after the other,
    each frame after the first handled while the audio clock has not
    passed [nextStartTime], the scheduled end of the frame before it.
    Then [start()] is called once per frame, in order; the first frame
    starts at [Math.max(nextStartTime, ctx.currentTime)], which is the
    clock reading at which it is handled when the cursor is behind the
    clock (as it is at the start of a session, where the cursor is zero),
    and frame [k] (counting from zero) starts that much later than the sum
    of the durations of the frames before it.  The frames play end to end
    with no overlap, from the start of the first one. *)
Theorem frames_concatenate_from_the_first_start :
  forall (w : World) (ctx : nat) (a : Q * LiveServerMessage)
         (rest : list (Q * LiveServerMessage)),
    outputAudioContextRef w = Some ctx ->
    Forall (fun b => is_audio_frame (snd b) = true) (a :: rest) ->
    back_to_back (step (arrival_event a) w) rest = true ->
    exists starts : list Q,
      start_times (calls (run (map arrival_event (a :: rest)) w))
      = start_times (calls w) ++ starts
      /\ List.length starts = List.length (a :: rest)
      /\ (forall k t, nth_error starts k = Some t ->
            (t == Math_max (nextStartTimeRef w) (fst a)
                  + sum_durations (firstn k (durations (a :: rest))))%Q)
      /\ ((nextStartTimeRef w <= fst a)%Q ->
          forall k t, nth_error starts k = Some t ->
            (t == fst a
                  + sum_durations (firstn k (durations (a :: rest))))%Q).
Proof.
  intros w ctx a rest Hout Hall Hb.
  inversion Hall as [| ? ? Hframe Hrest]; subst.
  exists (running_starts (Math_max (nextStartTimeRef w) (fst a))
            (durations (a :: rest))).
  split; [now apply (frames_concatenate_after_the_first w ctx) |].
  split; [| split].
  - rewrite running_starts_length. unfold durations. apply length_map.
  - intros k t H. now apply running_starts_nth in H.
  - intros Hle k t H. apply running_starts_nth in H. rewrite H.
    unfold Math_max. now rewrite (Q.max_r _ _ Hle).
Qed.

Lemma on_time_back_to_back : forall (arrivals : list (Q * LiveServerMessage))
    (w : World) (ctx : nat),
  outputAudioContextRef w = Some ctx ->
  Forall (fun a => is_audio_frame (snd a) = true) arrivals ->
  on_time (nextStartTimeRef w) arrivals ->
  back_to_back w arrivals = true.
Proof.
  induction arrivals as [| [now message] rest IH]; intros w ctx Hout Hall Hon.
  - reflexivity.
  - inversion Hall as [| ? ? Hframe Hrest]; subst. cbn [snd] in Hframe.
    cbn [on_time fst snd] in Hon. destruct Hon as [Hnow Hon].
    cbn [back_to_back fst]. apply andb_true_intro. split.
    + now apply Qle_bool_iff.
    + destruct (step_audio_frame now message w ctx Hout Hframe)
        as (b & _ & Hd & Hstep).
      change (arrival_event (now, message))
        with (ServerMessage now message).
      rewrite Hstep. apply (IH _ ctx); [exact Hout | exact Hrest |].
      unfold scheduled. cbn [nextStartTimeRef].
      rewrite max_keeps_cursor by now apply Qle_bool_iff.
      now rewrite <- Hd.
Qed.

Lemma received_pcm_frame (base64 : string) (flag : bool) (samples : list Z) :
  String.eqb base64 EmptyString = false ->
  decode base64 = Normal (Uint8Array_of_Int16Array samples) ->
  samples <> [] -> Forall int16 samples ->
  received_frame (audio_message base64 flag)
  = Some (mkAudioBuffer 1 (List.length samples) 24000
            [map decode_sample samples]).
Proof.
  intros Hne Hdec Hnil Hall. unfold received_frame, audio_message.
  cbn [read_base64Audio serverContent modelTurn parts inlineData data].
  assert (Ht : truthy (Some base64) = Some base64)
    by (destruct base64; [discriminate | reflexivity]).
  rewrite Ht, Hdec, decodeAudioData_mono by assumption. reflexivity.
Qed.

Lemma same_bytes_eq : forall a b, same_bytes a b = true -> a = b.
Proof.
  induction a as [| x a IH]; destruct b as [| y b]; cbn; intros H;
    try discriminate; [reflexivity |].
  apply andb_prop in H as [Hx Hab]. apply Z.eqb_eq in Hx.
  now rewrite Hx, (IH b Hab).
Qed.

Lemma half_second_of_silence_check :
  match decode (string_of_list_ascii (repeat "A"%char (N.to_nat 32000))) with
  | Normal bytes =>
      same_bytes bytes (Uint8Array_of_Int16Array (repeat 0 (N.to_nat 12000)))
  | Throw _ => false
  end = true.
Proof. vm_compute. reflexivity. Qed.

Lemma half_second_of_silence_bytes :
  decode (string_of_list_ascii (repeat "A"%char (N.to_nat 32000)))
  = Normal (Uint8Array_of_Int16Array (repeat 0 (N.to_nat 12000))).
Proof.
  pose proof half_second_of_silence_check as H.
  destruct (decode _) as [bytes | e]; [| discriminate].
  now rewrite (same_bytes_eq _ _ H).
Qed.

Lemma half_second_of_silence_frame :
  is_audio_frame half_second_of_silence = true
  /\ (frame_duration half_second_of_silence == 1 # 2)%Q.
Proof.
  assert (Hf : received_frame half_second_of_silence
               = Some (mkAudioBuffer 1
                         (List.length (repeat 0 (N.to_nat 12000))) 24000
                         [map decode_sample (repeat 0 (N.to_nat 12000))])).
  { apply received_pcm_frame.
    - vm_compute. reflexivity.
    - exact half_second_of_silence_bytes.
    - vm_compute. discriminate.
    - apply Forall_forall. intros x Hx. apply repeat_spec in Hx.
      subst x. unfold int16. lia. }
  unfold is_audio_frame, frame_duration. rewrite Hf.
  split; [reflexivity |].
  unfold duration. cbn [WebAudio.length sampleRate].
  rewrite repeat_length. vm_compute. reflexivity.
Qed.

Lemma three_of_on_time (message : LiveServerMessage) :
  (frame_duration message == 1 # 2)%Q -> on_time 0 (three_of message).
Proof.
  cbn [on_time three_of fst snd].
  generalize (frame_duration message). intros d Hd.
  rewrite !Hd. repeat split; unfold Qle; cbn; lia.
Qed.

Lemma three_of_starts (message : LiveServerMessage) :
  (frame_duration message == 1 # 2)%Q ->
  exists t0 t1 t2 : Q,
    running_starts 0 (durations (three_of message)) = [t0; t1; t2]
    /\ (t0 == 0)%Q /\ (t1 == 1 # 2)%Q /\ (t2 == 1)%Q.
Proof.
  cbn [three_of durations map snd running_starts].
  generalize (frame_duration message). intros d Hd.
  do 3 eexists. split; [reflexivity |].
  rewrite !Hd. repeat split; reflexivity.
Qed.

Lemma three_frames_are_frames :
  Forall (fun a => is_audio_frame (snd a) = true) three_frames.
Proof.
  destruct half_second_of_silence_frame as [Hf _].
  unfold three_frames, three_of.
  apply Forall_cons; [exact Hf |].
  apply Forall_cons; [exact Hf |].
  apply Forall_cons; [exact Hf |]. apply Forall_nil.
Qed.

Lemma three_frames_back_to_back :
  back_to_back fresh_session three_frames = true.
Proof.
  apply (on_time_back_to_back three_frames fresh_session 1).
  - reflexivity.
  - exact three_frames_are_frames.
  - apply three_of_on_time, half_second_of_silence_frame.
Qed.

(** When the first frame is handled with the clock at zero, three frames
    of 0.5 s with nothing in between are started at 0.0, 0.5 and 1.0. *)
Example three_half_second_frames :
  exists t0 t1 t2 : Q,
    start_times (calls (run (map arrival_event three_frames) fresh_session))
    = [t0; t1; t2]
    /\ (t0 == 0)%Q /\ (t1 == 1 # 2)%Q /\ (t2 == 1)%Q.
Proof.
  rewrite (schedule_run three_frames fresh_session 1 eq_refl
             three_frames_are_frames three_frames_back_to_back).
  apply (three_of_starts half_second_of_silence),
    half_second_of_silence_frame.
Qed.

Lemma three_late_frames_are_frames :
  Forall (fun a => is_audio_frame (snd a) = true) three_late_frames.
Proof.
  destruct half_second_of_silence_frame as [Hf _].
  unfold three_late_frames, three_late_of.
  apply Forall_cons; [exact Hf |].
  apply Forall_cons; [exact Hf |].
  apply Forall_cons; [exact Hf |]. apply Forall_nil.
Qed.

(** In a world whose cursor is at zero, the second and the third of the
    late frames are handled before the frame before them has ended. *)
Lemma three_late_back_to_back (message : LiveServerMessage) (w : World)
    (ctx : nat) :
  outputAudioContextRef w = Some ctx -> nextStartTimeRef w = 0%Q ->
  is_audio_frame message = true -> (frame_duration message == 1 # 2)%Q ->
  back_to_back (step (arrival_event (1%Q, message)) w)
    [(5 # 4, message); (7 # 4, message)]%Q = true.
Proof.
  intros Hout Hzero Hf Hd.
  destruct (step_audio_frame 1 message w ctx Hout Hf) as (b & _ & Hb & Hstep).
  change (arrival_event (1%Q, message)) with (ServerMessage 1 message).
  rewrite Hstep.
  apply (on_time_back_to_back _ _ ctx); [exact Hout | |].
  - repeat constructor; exact Hf.
  - unfold scheduled. cbn [nextStartTimeRef on_time fst snd].
    rewrite Hzero, <- Hb.
    change (Math_max 0 1) with 1%Q.
    generalize dependent (frame_duration message). intros d Hd _.
    rewrite !Hd. repeat split; unfold Qle; cbn; lia.
Qed.

Lemma three_late_starts (message : LiveServerMessage) :
  (frame_duration message == 1 # 2)%Q ->
  exists t0 t1 t2 : Q,
    running_starts (Math_max 0 1) (durations (three_late_of message))
    = [t0; t1; t2]
    /\ (t0 == 1)%Q /\ (t1 == 3 # 2)%Q /\ (t2 == 2)%Q.
Proof.
  cbn [three_late_of durations map snd running_starts].
  change (Math_max 0 1) with 1%Q.
  generalize (frame_duration message). intros d Hd.
  do 3 eexists. split; [reflexivity |].
  rewrite !Hd. repeat split; reflexivity.
Qed.

(** C1 as amended, at three half-second frames read at clock 1, 1.25 and
    1.75 in a fresh session. *)
Lemma frames_concatenate_from_the_first_start_witness :
  exists starts : list Q,
    start_times
      (calls (run (map arrival_event three_late_frames) fresh_session))
    = start_times (calls fresh_session) ++ starts
    /\ List.length starts = List.length three_late_frames
    /\ (forall k t, nth_error starts k = Some t ->
          (t == Math_max (nextStartTimeRef fresh_session) 1
                + sum_durations (firstn k (durations three_late_frames)))%Q)
    /\ ((nextStartTimeRef fresh_session <= 1)%Q ->
        forall k t, nth_error starts k = Some t ->
          (t == 1 + sum_durations
                      (firstn k (durations three_late_frames)))%Q).
Proof.
  apply (frames_concatenate_from_the_first_start fresh_session 1
           (1%Q, half_second_of_silence)
           [(5 # 4, half_second_of_silence);
            (7 # 4, half_second_of_silence)]%Q).
  - reflexivity.
  - exact three_late_frames_are_frames.
  - apply (three_late_back_to_back half_second_of_silence fresh_session 1);
      [reflexivity | reflexivity | apply half_second_of_silence_frame
      | apply half_second_of_silence_frame].
Defined.

(** C1 as stated fails.  In a fresh session three frames of 0.5 s are
    handled at clock 1, 1.25 and 1.75: the second and the third arrive
    before the frame before them has ended, so there is no gap.  They are
    started at 1, 1.5 and 2, not at 0, 0.5 and 1: the first start is the
    clock reading, not zero, and no start is the sum of the durations
    before it. *)
Lemma a_late_first_frame_shifts_every_start :
  Forall (fun a => is_audio_frame (snd a) = true) three_late_frames
  /\ back_to_back
       (step (arrival_event (1%Q, half_second_of_silence)) fresh_session)
       [(5 # 4, half_second_of_silence); (7 # 4, half_second_of_silence)]%Q
     = true
  /\ exists t0 t1 t2 : Q,
       start_times
         (calls (run (map arrival_event three_late_frames) fresh_session))
       = [t0; t1; t2]
       /\ (t0 == 1)%Q /\ (t1 == 3 # 2)%Q /\ (t2 == 2)%Q
       /\ ~ (t0 == sum_durations (firstn 0 (durations three_late_frames)))%Q
       /\ ~ (t1 == sum_durations (firstn 1 (durations three_late_frames)))%Q
       /\ ~ (t2 == sum_durations (firstn 2 (durations three_late_frames)))%Q.
Proof.
  assert (Hb : back_to_back
                 (step (arrival_event (1%Q, half_second_of_silence))
                       fresh_session)
                 [(5 # 4, half_second_of_silence);
                  (7 # 4, half_second_of_silence)]%Q = true)
    by (apply (three_late_back_to_back half_second_of_silence
                 fresh_session 1);
        [reflexivity | reflexivity | apply half_second_of_silence_frame
        | apply half_second_of_silence_frame]).
  split; [exact three_late_frames_are_frames |].
  split; [exact Hb |].
  pose proof three_late_frames_are_frames as Hall.
  inversion Hall as [| ? ? Hframe Hrest]; subst.
  unfold three_late_frames, three_late_of.
  rewrite (frames_concatenate_after_the_first fresh_session 1 _ _
             eq_refl Hframe Hrest Hb).
  destruct half_second_of_silence_frame as [_ Hd].
  destruct (three_late_starts half_second_of_silence Hd)
    as (t0 & t1 & t2 & Hs & H0 & H1 & H2).
  exists t0, t1, t2.
  split; [exact Hs |].
  split; [exact H0 |]. split; [exact H1 |]. split; [exact H2 |].
  unfold durations, three_late_of.
  cbn [map snd firstn sum_durations fold_right].
  clear Hs Hb Hall Hframe Hrest. revert Hd H0 H1 H2.
  generalize (frame_duration half_second_of_silence).
  intros d Hd H0 H1 H2. rewrite H0, H1, H2, !Hd.
  repeat split; intros H; vm_compute in H; discriminate H.
Qed.

Lemma start_times_stops (sources : list nat) :
  start_times (map StopSource sources) = [].
Proof. induction sources; [reflexivity | exact IHsources]. Qed.

Lemma stopped_app (cs cs' : list Call) :
  stopped (cs ++ cs') = stopped cs ++ stopped cs'.
Proof. unfold stopped. apply flat_map_app. Qed.

Lemma stopped_stops (sources : list nat) :
  stopped (map StopSource sources) = sources.
Proof.
  induction sources as [| s l IH]; [reflexivity |].
  cbn. f_equal. exact IH.
Qed.

(** C3.  After a gap the frame is scheduled at the clock, not at the
    stale cursor: if a message brings an audio frame while
    [nextStartTime] is already behind the audio clock, the source is
    started at exactly the clock reading. *)
Theorem gap_schedules_at_clock_time :
  forall (w : World) (ctx : nat) (currentTime : Q)
         (message : LiveServerMessage) (audioBuffer : AudioBuffer),
    outputAudioContextRef w = Some ctx ->
    received_frame message = Some audioBuffer ->
    (nextStartTimeRef w < currentTime)%Q ->
    (exists rest,
       calls (step (ServerMessage currentTime message) w)
       = calls w ++ StartSource (fresh w) ctx currentTime audioBuffer :: rest)
    /\ start_times (calls (step (ServerMessage currentTime message) w))
       = start_times (calls w) ++ [currentTime].
Proof.
  intros w ctx currentTime message audioBuffer Hout Hframe Hgap.
  unfold step, handle.
  rewrite (onmessage_frame _ _ _ ctx audioBuffer Hout Hframe).
  unfold interruption_part, flushed, scheduled.
  rewrite (max_takes_clock _ _ Hgap).
  destruct (is_interrupted message); cbn [snd calls sourcesRef with_calls
    with_sourcesRef with_nextStartTimeRef].
  - split.
    + eexists. rewrite <- app_assoc. reflexivity.
    + rewrite !start_times_app, start_times_stops, app_nil_r. reflexivity.
  - split.
    + eexists. reflexivity.
    + rewrite start_times_app. reflexivity.
Qed.

(** C3 at a two-sample frame handled at clock 1 in a fresh session, whose
    cursor is 0. *)
Lemma gap_schedules_at_clock_time_witness :
  (exists rest,
     calls (step (ServerMessage 1 (frame_message [1; 2])) fresh_session)
     = calls fresh_session
       ++ StartSource (fresh fresh_session) 1 1
            (mkAudioBuffer 1 2 24000 [map decode_sample [1; 2]]) :: rest)
  /\ start_times
       (calls (step (ServerMessage 1 (frame_message [1; 2])) fresh_session))
     = start_times (calls fresh_session) ++ [1%Q].
Proof.
  apply (gap_schedules_at_clock_time fresh_session 1 1
           (frame_message [1; 2])).
  - reflexivity.
  - vm_compute. reflexivity.
  - vm_compute. reflexivity.
Defined.

Lemma decoded_duration_nonneg (bytes : list Z) (n : nat) (b : AudioBuffer) :
  decodeAudioData bytes 24000 n = Normal b -> (0 <= duration b)%Q.
Proof.
  unfold decodeAudioData.
  destruct (Int16Array_of_buffer bytes) as [a |]; [| discriminate].
  destruct ((n =? 0)%nat || (List.length a / n =? 0)%nat); [discriminate |].
  intros H. inversion H. unfold duration, Qle. cbn. lia.
Qed.

Lemma onmessage_cursor (currentTime : Q) (message : LiveServerMessage)
    (w : World) :
  (nextStartTimeRef w <= nextStartTimeRef (snd (onmessage currentTime message w)))%Q
  \/ (is_interrupted message = true
      /\ nextStartTimeRef (snd (onmessage currentTime message w)) = 0%Q).
Proof.
  rewrite onmessage_unfold.
  assert (Hpart : forall v : World,
    (nextStartTimeRef w <= nextStartTimeRef v)%Q ->
    (nextStartTimeRef w <= nextStartTimeRef (snd (interruption_part message v)))%Q
    \/ (is_interrupted message = true
        /\ nextStartTimeRef (snd (interruption_part message v)) = 0%Q)).
  { intros v Hv. unfold interruption_part.
    destruct (is_interrupted message); [right | left]; cbn; auto. }
  destruct (read_base64Audio message) as [base64Audio | e];
    [| left; apply Qle_refl].
  destruct (truthy base64Audio) as [base64 |];
    [| apply Hpart, Qle_refl].
  destruct (outputAudioContextRef w) as [ctx |];
    [| apply Hpart, Qle_refl].
  cbv zeta.
  destruct (decode base64) as [bytes | e];
    [| left; cbn; apply Q.le_max_l].
  destruct (decodeAudioData bytes 24000 1) as [b | e] eqn:Hb;
    [| left; cbn; apply Q.le_max_l].
  apply Hpart. unfold scheduled. cbn [nextStartTimeRef].
  apply decoded_duration_nonneg in Hb.
  pose proof (Q.le_max_l (nextStartTimeRef w) currentTime) as Hmax.
  unfold Math_max. lra.
Qed.

(** [startSession] up to its first [await]: the call is numbered and
    suspended, and the component shows that it is connecting. *)
Lemma startSession_unfold (w : World) :
  startSession w
  = (Normal tt,
     with_awaiting
       (awaiting w
        ++ [(nextCall w,
             if aistudio (browser w)
             then AtHasSelectedApiKey else AtGetUserMedia)])
       (with_isConnecting true
          (with_errorMsg None (with_nextCall (S (nextCall w)) w)))).
Proof.
  unfold startSession, new_call, try_catch, bind, write, read, suspend.
  cbn. destruct (aistudio (browser w)); reflexivity.
Qed.

(** [startSession] from an [await] to the next one or to its end: it
    always completes, its [catch] takes every error. *)
Lemma startSession_resume_unfold (id : nat) (at_ : Await) (answer : Answer)
    (w : World) :
  startSession_resume id at_ answer w
  = (Normal tt,
     match at_, answer with
     | AtCheckKey, _ | AtOpenSelectKey, _ => w
     | AtGetUserMedia, Rejects name _ =>
         with_isConnecting false
           (with_errorMsg (Some (microphone_message name)) w)
     | AtGetUserMedia, Resolves _ =>
         with_awaiting
           (awaiting w ++ [(id, AtResumeInput (fresh w) (S (fresh w)))])
           (with_calls
              (calls w ++ [NewAudioContext (fresh w) 16000;
                           NewAudioContext (S (fresh w)) 24000])
              (with_fresh (S (S (fresh w))) w))
     | _, Rejects _ message =>
         with_isConnecting false
           (with_errorMsg (Some (message_or_default message)) w)
     | AtHasSelectedApiKey, Resolves hasKey =>
         if negb hasKey && negb (API_KEY (browser w))
         then with_isConnecting false (with_needsKey true w)
         else with_awaiting (awaiting w ++ [(id, AtGetUserMedia)]) w
     | AtResumeInput inputCtx outputCtx, Resolves _ =>
         with_awaiting
           (awaiting w ++ [(id, AtResumeOutput inputCtx outputCtx)]) w
     | AtResumeOutput inputCtx outputCtx, Resolves _ =>
         with_awaiting (awaiting w ++ [(id, AtSessionPromise (fresh w))])
           (with_calls (calls w ++ [Connect (fresh w)])
              (with_fresh (S (fresh w))
                 (with_outputAudioContextRef (Some outputCtx)
                    (with_audioContextRef (Some inputCtx) w))))
     | AtSessionPromise sessionPromise, Resolves _ =>
         with_sessionRef (Some sessionPromise) w
     end).
Proof.
  unfold startSession_resume, microphone_message, message_or_default.
  destruct at_, answer as [value | name message];
    unfold try_catch, bind, await, ret, throw, read, write, suspend, call,
      new_object, startSession_catch; cbn;
    try reflexivity;
    try (destruct message; reflexivity);
    try (destruct (negb value && negb (API_KEY (browser w))); reflexivity);
    try (destruct (_ || _)%bool; reflexivity).
  destruct w; cbn. now rewrite <- app_assoc.
Qed.

(** The callbacks that waited on a session promise, as calls. *)
Lemma callbacks_run (sessionPromise : nat)
    (callbacks : list (nat * (string * string))) : forall w : World,
  for_of callbacks
    (fun t => call (SendRealtimeInput sessionPromise
                      (fst (snd t)) (snd (snd t)))) w
  = (Normal tt,
     with_calls
       (calls w
        ++ map (fun t => SendRealtimeInput sessionPromise
                           (fst (snd t)) (snd (snd t))) callbacks) w).
Proof.
  induction callbacks as [| t l IH]; intros w.
  - cbn. rewrite app_nil_r. now destruct w.
  - cbn [for_of map]. unfold call at 1. rewrite bind_write, IH.
    destruct w. cbn. now rewrite <- app_assoc.
Qed.

Lemma fulfil_unfold (sessionPromise : nat) (w : World) :
  fulfil sessionPromise w
  = (Normal tt,
     with_calls
       (calls w
        ++ map (fun t => SendRealtimeInput sessionPromise
                           (fst (snd t)) (snd (snd t)))
               (filter (waiting_on sessionPromise) (thens w)))
       (with_thens
          (filter (fun t => negb (waiting_on sessionPromise t)) (thens w))
          (with_fulfilled (fulfilled w ++ [sessionPromise]) w))).
Proof.
  unfold fulfil. rewrite bind_write, bind_read, bind_write, callbacks_run.
  reflexivity.
Qed.

Lemma checkKey_resume_unfold (answer : Answer) (w : World) :
  snd (checkKey_resume answer w)
  = match answer with
    | Resolves hasKey =>
        if negb hasKey && negb (API_KEY (browser w))
        then with_needsKey true w else w
    | Rejects _ _ => w
    end.
Proof.
  unfold checkKey_resume, bind, await, ret, throw, read, write.
  destruct answer as [hasKey |]; [| reflexivity].
  cbn. now destruct (negb hasKey && negb (API_KEY (browser w))).
Qed.

Lemma handleOpenKeyDialog_unfold (w : World) :
  handleOpenKeyDialog w
  = (Normal tt,
     if aistudio (browser w)
     then with_awaiting (awaiting w ++ [(nextCall w, AtOpenSelectKey)])
            (with_calls (calls w ++ [OpenSelectKey])
               (with_nextCall (S (nextCall w)) w))
     else w).
Proof.
  unfold handleOpenKeyDialog. rewrite bind_read.
  destruct (aistudio (browser w)); reflexivity.
Qed.

Lemma handleOpenKeyDialog_resume_unfold (answer : Answer) (w : World) :
  snd (handleOpenKeyDialog_resume answer w)
  = match answer with
    | Resolves _ => snd (startSession (with_needsKey false w))
    | Rejects _ _ => w
    end.
Proof.
  unfold handleOpenKeyDialog_resume.
  destruct answer; [| reflexivity].
  unfold await. unfold bind at 1. unfold ret at 1. now rewrite bind_write.
Qed.

(** The answer to an [await], by where the call was suspended. *)
Lemma settled_unfold (id : nat) (answer : Answer) (w : World) :
  step (Settled id answer) w
  = match lookup id (awaiting w) with
    | None => w
    | Some at_ =>
        let v := with_awaiting (without id (awaiting w)) w in
        match at_ with
        | AtCheckKey => snd (checkKey_resume answer v)
        | AtOpenSelectKey => snd (handleOpenKeyDialog_resume answer v)
        | AtSessionPromise sessionPromise =>
            match answer with
            | Resolves _ =>
                snd (fulfil sessionPromise
                       (with_sessionRef (Some sessionPromise) v))
            | Rejects _ _ => snd (startSession_resume id at_ answer v)
            end
        | _ => snd (startSession_resume id at_ answer v)
        end
    end.
Proof.
  unfold step, handle, settled. rewrite bind_read.
  destruct (lookup id (awaiting w)) as [at_ |]; [| reflexivity].
  rewrite bind_write. cbv zeta.
  destruct at_; try reflexivity.
  destruct answer as [value | name message].
  - rewrite (bind_normal _ _ _ _ tt (startSession_resume_unfold _ _ _ _)).
    reflexivity.
  - rewrite (bind_normal _ _ _ _ tt (startSession_resume_unfold _ _ _ _)).
    now rewrite startSession_resume_unfold.
Qed.

(** What a click does to the world, by the button on screen. *)
Lemma click_spec (w : World) :
  step Click w
  = match rendered_control w with
    | SelectApiKey => snd (handleOpenKeyDialog w)
    | StartConversation false => snd (startSession w)
    | StartConversation true => w
    | Disconnect => snd (stopSession w)
    end.
Proof.
  unfold step, handle, click.
  now destruct (rendered_control w) as [| [|] |].
Qed.

Lemma onaudioprocess_unfold (sessionPromise : nat) (inputData : list Q)
    (w : World) :
  onaudioprocess sessionPromise inputData w
  = (Normal tt,
     if existsb (Nat.eqb sessionPromise) (fulfilled w)
     then with_calls
            (calls w
             ++ [SendRealtimeInput sessionPromise
                   (encode (Uint8Array_of_Int16Array
                              (capture_int16 inputData)))
                   "audio/pcm;rate=16000"]) w
     else with_thens
            (thens w
             ++ [(sessionPromise,
                  (encode (Uint8Array_of_Int16Array
                             (capture_int16 inputData)),
                   "audio/pcm;rate=16000"%string))]) w).
Proof.
  unfold onaudioprocess, sessionPromise_then. rewrite bind_read.
  now destruct (existsb (Nat.eqb sessionPromise) (fulfilled w)).
Qed.

(** The start of a session and the answers to its awaits leave the
    cursor alone. *)
Lemma startSession_cursor (w : World) :
  nextStartTimeRef (snd (startSession w)) = nextStartTimeRef w.
Proof. now rewrite startSession_unfold. Qed.

Lemma settled_cursor (id : nat) (answer : Answer) (w : World) :
  nextStartTimeRef (step (Settled id answer) w) = nextStartTimeRef w.
Proof.
  rewrite settled_unfold.
  destruct (lookup id (awaiting w)) as [at_ |]; [| reflexivity].
  cbv zeta. destruct at_, answer as [value | name message];
    rewrite ?checkKey_resume_unfold, ?handleOpenKeyDialog_resume_unfold,
      ?startSession_resume_unfold, ?startSession_unfold, ?fulfil_unfold;
    try reflexivity;
    now destruct (negb value && negb (API_KEY (browser _))).
Qed.

Lemma onerror_spec (message : option string) (w : World) :
  onerror message w
  = stopSession
      (if key_issue message
       then with_needsKey true
              (with_errorMsg
                 (Some "API Key issue. Please re-select your key."%string) w)
       else with_errorMsg
              (Some "Connection interrupted. Please try again."%string) w).
Proof.
  unfold onerror. fold (key_issue message).
  destruct (key_issue message).
  - now rewrite bind_assoc, !bind_write.
  - now rewrite bind_write.
Qed.

Lemma stopSession_idle (w : World) : Idle (snd (stopSession w)).
Proof. rewrite stopSession_spec. repeat split. Qed.

(** C6.  [stopSession] completes without error from every state and
    leaves the component Idle: no session handle, no live source, the
    cursor at zero.  Called again it completes again, and changes nothing
    but the list of calls made (the contexts are asked to close once
    more, and the rejection is swallowed). *)
Theorem stop_is_valid_everywhere_and_idempotent : forall w : World,
  exists w1 w2 : World,
    stopSession w = (Normal tt, w1) /\ Idle w1
    /\ stopSession w1 = (Normal tt, w2) /\ Idle w2
    /\ with_calls (calls w1) w2 = w1.
Proof.
  intros w. eexists. eexists.
  split; [apply stopSession_spec |].
  split; [repeat split |].
  split; [apply stopSession_spec |].
  split; [repeat split |]. reflexivity.
Qed.

(** C7.  Across any one event the cursor [nextStartTime] does not
    decrease, unless the event is one that resets it (a message with the
    interruption signal, or anything that runs [stopSession]), in which
    case it is zero afterwards. *)
Theorem cursor_is_monotone_between_resets : forall (ev : Event) (w : World),
  (nextStartTimeRef w <= nextStartTimeRef (step ev w))%Q
  \/ (resets ev w = true /\ nextStartTimeRef (step ev w) = 0%Q).
Proof.
  intros ev w. destruct ev as [| now message | source | message | |
                               promise inputData | | id answer | promise].
  - rewrite click_spec. unfold resets.
    destruct (rendered_control w) as [| [|] |].
    + left. rewrite handleOpenKeyDialog_unfold.
      destruct (aistudio (browser w)); apply Qle_refl.
    + left. apply Qle_refl.
    + left. rewrite startSession_cursor. apply Qle_refl.
    + right. split; [reflexivity |]. now rewrite stopSession_spec.
  - apply onmessage_cursor.
  - left. apply Qle_refl.
  - right. split; [reflexivity |]. unfold step, handle.
    now rewrite onerror_spec, stopSession_spec.
  - right. split; [reflexivity |]. unfold step, handle, onclose.
    now rewrite stopSession_spec.
  - left. unfold step, handle. rewrite onaudioprocess_unfold.
    destruct (existsb _ _); apply Qle_refl.
  - right. split; [reflexivity |]. unfold step, handle.
    now rewrite stopSession_spec.
  - left. rewrite settled_cursor. apply Qle_refl.
  - left. apply Qle_refl.
Qed.

Lemma created_contexts_app (cs cs' : list Call) :
  created_contexts (cs ++ cs') = created_contexts cs ++ created_contexts cs'.
Proof. unfold created_contexts. apply flat_map_app. Qed.

(** C5.  [handleOpenKeyDialog] and [startSession] test neither
    [isConnecting], [isActive] nor [sessionRef]; what keeps a second start
    away is the button on screen, and the key prompt stays on screen while
    [openSelectKey()] is awaited.  In AI Studio without a key the prompt
    is shown; pressed twice before the dialog answers, it runs
    [handleOpenKeyDialog] twice, and each call goes on to [startSession]:
    the second start begins while the component is Connecting, each start
    creates its pair of contexts and opens its connection, and two remote
    sessions are open at once.  [sessionRef] names the later one only, so
    the disconnect button closes that one and the other stays open. *)
Theorem a_second_press_on_the_key_prompt_opens_a_second_session :
  rendered_control key_prompt = SelectApiKey
  /\ rendered_control (step Click key_prompt) = SelectApiKey
  /\ isConnecting (run [Click; Click; Settled 1 granted] key_prompt) = true
  /\ awaiting (run [Click; Click; Settled 1 granted; Settled 2 granted]
                   key_prompt)
     = [(3%nat, AtHasSelectedApiKey); (4%nat, AtHasSelectedApiKey)]
  /\ open_sessions (run key_prompt_pressed_twice key_prompt)
     = [2%nat; 5%nat]
  /\ open_contexts (run key_prompt_pressed_twice key_prompt)
     = [0%nat; 1%nat; 3%nat; 4%nat]
  /\ sessionRef (run key_prompt_pressed_twice key_prompt) = Some 5%nat
  /\ rendered_control (run key_prompt_pressed_twice key_prompt) = Disconnect
  /\ open_sessions (step Click (run key_prompt_pressed_twice key_prompt))
     = [2%nat].
Proof. vm_compute. repeat split. Qed.

(** The same through the [await] of [startSession] on
    [hasSelectedApiKey()]: the start button is pressed while the key check
    of the mount effect is still waiting; the check then puts the key
    prompt on screen, which starts a second session next to the first. *)
Example a_late_key_check_opens_a_second_session :
  rendered_control (mounted keyless) = StartConversation false
  /\ rendered_control
       (run [Click; Settled 0 (Resolves false)] (mounted keyless))
     = SelectApiKey
  /\ open_sessions
       (run ([Click; Settled 0 (Resolves false); Click; Settled 2 granted;
              Settled 1 granted] ++ start_goes_through 1 2
             ++ [Settled 3 granted] ++ start_goes_through 3 5)
            (mounted keyless))
     = [2%nat; 5%nat].
Proof. vm_compute. repeat split. Qed.

Lemma set_add_incl (x : nat) (s : list nat) : incl s (set_add x s).
Proof.
  unfold set_add. destruct (existsb (Nat.eqb x) s).
  - apply incl_refl.
  - apply incl_appl, incl_refl.
Qed.

(** When the handler reaches the interruption block, every source that
    was live is stopped, together with the one the same message queued;
    the set is left empty and the cursor at zero. *)
Lemma interruption_flushes_when_handled (currentTime : Q)
    (message : LiveServerMessage) (w : World) :
  is_interrupted message = true ->
  fst (onmessage currentTime message w) = Normal tt ->
  sourcesRef (step (ServerMessage currentTime message) w) = []
  /\ nextStartTimeRef (step (ServerMessage currentTime message) w) = 0%Q
  /\ exists live,
       incl (sourcesRef w) live
       /\ stopped (calls (step (ServerMessage currentTime message) w))
          = stopped (calls w) ++ live.
Proof.
  intros Hint. unfold step, handle. rewrite onmessage_unfold.
  assert (Hpart : forall v : World,
    stopped (calls v) = stopped (calls w) ->
    incl (sourcesRef w) (sourcesRef v) ->
    sourcesRef (snd (interruption_part message v)) = []
    /\ nextStartTimeRef (snd (interruption_part message v)) = 0%Q
    /\ exists live,
         incl (sourcesRef w) live
         /\ stopped (calls (snd (interruption_part message v)))
            = stopped (calls w) ++ live).
  { intros v Hst Hincl. unfold interruption_part. rewrite Hint.
    cbn. repeat split. exists (sourcesRef v). split; [exact Hincl |].
    now rewrite stopped_app, stopped_stops, Hst. }
  destruct (read_base64Audio message) as [base64Audio | e];
    [| discriminate].
  destruct (truthy base64Audio) as [base64 |];
    [| intros _; apply Hpart; [reflexivity | apply incl_refl]].
  destruct (outputAudioContextRef w) as [ctx |];
    [| intros _; apply Hpart; [reflexivity | apply incl_refl]].
  cbv zeta.
  destruct (decode base64) as [bytes | e]; [| discriminate].
  destruct (decodeAudioData bytes 24000 1) as [b | e]; [| discriminate].
  intros _. apply Hpart.
  - unfold scheduled. cbn [calls]. rewrite stopped_app. cbn.
    now rewrite app_nil_r.
  - apply set_add_incl.
Qed.

(** C2.  The interruption block is reached only if the audio block before
    it does not throw.  With two sources live, a message that carries the
    interruption signal together with an inline payload of three bytes
    makes [new Int16Array] throw a [RangeError]: the handler is left, no
    source is stopped, both stay in the set, and the cursor is not reset.
    ([interruption_flushes_when_handled] above is the flush when the
    handler does reach the block.) *)
Theorem interruption_is_lost_when_the_payload_does_not_decode :
  is_interrupted interruption_with_odd_payload = true
  /\ sourcesRef two_queued = [3%nat; 4%nat]
  /\ fst (onmessage 2 interruption_with_odd_payload two_queued)
     = Throw RangeError
  /\ sourcesRef
       (step (ServerMessage 2 interruption_with_odd_payload) two_queued)
     = [3%nat; 4%nat]
  /\ stopped
       (calls (step (ServerMessage 2 interruption_with_odd_payload)
                    two_queued))
     = []
  /\ nextStartTimeRef
       (step (ServerMessage 2 interruption_with_odd_payload) two_queued)
     = 2%Q.
Proof. vm_compute. repeat split. Qed.

(** Two of three frames are queued when the interruption arrives: two
    stop-calls, nothing live, the cursor at zero. *)
Example interruption_after_two_frames :
  stopped (calls (step (ServerMessage 0 interruption_message) two_queued))
  = [3%nat; 4%nat]
  /\ sourcesRef (step (ServerMessage 0 interruption_message) two_queued) = []
  /\ nextStartTimeRef
       (step (ServerMessage 0 interruption_message) two_queued) = 0%Q.
Proof. vm_compute. repeat split. Qed.

(** C4, as the code has it.  On a capture tick every sample [s] with
    [-1 <= s < 1] becomes the integer part of [s * 32768], rounded toward
    zero (the store into [Int16Array] truncates; it does not round to
    nearest).  That integer is a 16-bit value less than one step away
    from [s * 32768], and the chunk of these integers is what is encoded
    and sent to the session under the fixed MIME string. *)
Theorem capture_tick_truncates :
  forall (session : nat) (inputData : list Q) (w : World),
    Forall (fun s => (-1 <= s)%Q /\ (s < 1)%Q) inputData ->
    capture_int16 inputData
    = map (fun s => truncate (s * 32768)%Q) inputData
    /\ Forall int16 (capture_int16 inputData)
    /\ Forall (fun s => (Qabs (inject_Z (capture_sample s) - s * 32768) < 1)%Q)
              inputData
    /\ onaudioprocess session inputData w
       = (Normal tt,
          if existsb (Nat.eqb session) (fulfilled w)
          then
            with_calls
              (calls w
               ++ [SendRealtimeInput session
                     (encode
                        (Uint8Array_of_Int16Array
                           (map (fun s => truncate (s * 32768)%Q)
                                inputData)))
                     "audio/pcm;rate=16000"]) w
          else
            with_thens
              (thens w
               ++ [(session,
                    (encode
                       (Uint8Array_of_Int16Array
                          (map (fun s => truncate (s * 32768)%Q)
                               inputData)),
                     "audio/pcm;rate=16000"%string))]) w).
Proof.
  intros session inputData w Hall.
  assert (Hmap : capture_int16 inputData
                 = map (fun s => truncate (s * 32768)%Q) inputData).
  { unfold capture_int16. induction Hall as [| s l [Hlo Hhi] _ IH];
      [reflexivity |].
    cbn [map]. now rewrite IH, capture_sample_truncates. }
  split; [exact Hmap |]. split; [| split].
  - rewrite Hmap. clear Hmap.
    induction Hall as [| s l [Hlo Hhi] _ IH]; constructor; [| exact IH].
    apply truncate_scaled_bounds; assumption.
  - eapply Forall_impl; [| exact Hall]. intros s [Hlo Hhi].
    rewrite capture_sample_truncates by assumption.
    apply truncate_within_one.
  - rewrite onaudioprocess_unfold. now rewrite Hmap.
Qed.

(** C4 as amended, at a chunk of five samples. *)
Lemma capture_tick_truncates_witness :
  capture_int16 sampled_chunk
  = map (fun s => truncate (s * 32768)%Q) sampled_chunk
  /\ Forall int16 (capture_int16 sampled_chunk)
  /\ Forall (fun s => (Qabs (inject_Z (capture_sample s) - s * 32768) < 1)%Q)
            sampled_chunk
  /\ onaudioprocess 2 sampled_chunk fresh_session
     = (Normal tt,
        with_calls
          (calls fresh_session
           ++ [SendRealtimeInput 2
                 (encode
                    (Uint8Array_of_Int16Array
                       (map (fun s => truncate (s * 32768)%Q)
                            sampled_chunk)))
                 "audio/pcm;rate=16000"]) fresh_session).
Proof.
  apply (capture_tick_truncates 2 sampled_chunk fresh_session).
  repeat constructor; vm_compute; discriminate || reflexivity.
Defined.

(** C4 as stated fails: the float32 sample 16384.75 / 32768 lies in
    [-1, 1]; the code stores 16384, rounding to nearest gives 16385. *)
Lemma capture_does_not_round_to_nearest :
  (-1 <= 65539 # 131072)%Q /\ (65539 # 131072 <= 1)%Q
  /\ (fround (65539 # 131072) == 65539 # 131072)%Q
  /\ capture_sample (65539 # 131072) = 16384
  /\ round_to_nearest ((65539 # 131072) * 32768) = 16385.
Proof.
  repeat split; try (vm_compute; discriminate).
Qed.

(** A full-scale sample [1.0] is beyond the range: 32768 wraps. *)
Example full_scale_wraps : capture_sample 1 = -32768.
Proof. reflexivity. Qed.

Example captured_chunk :
  capture_int16 sampled_chunk = [16384; -32768; 0; -10922; 32767].
Proof. vm_compute. reflexivity. Qed.

(** A start whose connection is refused leaves its two contexts open, and
    the next start adds two more. *)
Example refused_connection_leaves_contexts_open :
  open_contexts
    (run ([Click; Settled 0 granted; Settled 0 granted; Settled 0 granted;
           Settled 0 (Rejects "Error" "unavailable"); Click]
          ++ start_goes_through 1 5) (mounted willing))
  = [0%nat; 1%nat; 3%nat; 4%nat].
Proof. vm_compute. reflexivity. Qed.

End LiveFacts.

(** * Text-to-speech playback *)

Module SpeakFacts.

Import JS WebAudio ChatInterface Facts.

Lemma handleSpeak_guard (text : string) (index : nat) (w : World) :
  isSpeaking w <> None -> handleSpeak text index w = (Normal tt, w).
Proof.
  intros H. unfold handleSpeak. rewrite bind_read.
  destruct (isSpeaking w); [reflexivity | now contradiction H].
Qed.

Lemma handleSpeak_begins (text : string) (index : nat) (w : World) :
  isSpeaking w = None ->
  handleSpeak text index w
  = (Normal tt,
     mkWorld (Some index) (audioContextRef w)
       (awaiting w ++ [(fresh w, index)]) (playing w)
       (calls w ++ [Fetch (fresh w) text]) (S (fresh w))).
Proof.
  intros H. unfold handleSpeak. rewrite bind_read, H.
  now destruct w.
Qed.

(** The three ways the rest of [handleSpeak] can end. *)
Lemma handleSpeak_resume_cases (index : nat) (answer : TtsAnswer)
    (w : World) :
  let w' := snd (handleSpeak_resume index answer w) in
  awaiting w' = awaiting w
  /\ ((playing w' = playing w /\ isSpeaking w' = None)
      \/ (playing w' = playing w /\ isSpeaking w' = isSpeaking w)
      \/ (exists source, playing w' = playing w ++ [(source, index)]
                         /\ isSpeaking w' = isSpeaking w)).
Proof.
  cbv zeta.
  unfold handleSpeak_resume, try_catch, bind, ret, throw, lift, read,
    write, call, new_object.
  destruct answer as [e | audio];
    cbn -[truthy decodeBase64 decodeAudioData].
  - split; [reflexivity | left; split; reflexivity].
  - destruct (truthy audio) as [base64 |];
      cbn -[decodeBase64 decodeAudioData];
      [| split; [reflexivity | right; left; split; reflexivity]].
    destruct (audioContextRef w) as [ctx |];
      cbn -[decodeBase64 decodeAudioData];
      (destruct (decodeBase64 base64) as [bytes | e];
       cbn -[decodeAudioData];
       [| split; [reflexivity | left; split; reflexivity]]);
      (destruct (decodeAudioData bytes) as [buffer | e]; cbn;
       [| split; [reflexivity | left; split; reflexivity]]);
      (split;
       [reflexivity | right; right; eexists; split; reflexivity]).
Qed.

Lemma lookup_in (k : nat) (l : list (nat * nat)) (v : nat) :
  lookup k l = Some v -> In (k, v) l.
Proof.
  unfold lookup.
  destruct (find (fun p => Nat.eqb (fst p) k) l) as [[k' v'] |] eqn:Hf;
    [| discriminate].
  intros H. inversion H; subst. apply find_some in Hf as [Hin Hk].
  cbn in Hk. apply Nat.eqb_eq in Hk. now subst.
Qed.

Lemma without_shorter (k : nat) (l : list (nat * nat)) (v : nat) :
  In (k, v) l -> (List.length (without k l) < List.length l)%nat.
Proof.
  unfold without.
  induction l as [| [k' v'] l IH]; intros Hin; [contradiction |].
  cbn [filter fst List.length].
  destruct (Nat.eqb_spec k' k) as [-> | Hne]; cbn [negb List.length].
  - pose proof (filter_length_le
                  (fun p : nat * nat => negb (Nat.eqb (fst p) k)) l).
    lia.
  - destruct Hin as [H | H]; [inversion H; congruence |].
    specialize (IH H). lia.
Qed.

Lemma without_incl (k : nat) (l : list (nat * nat)) : incl (without k l) l.
Proof. intros p Hp. unfold without in Hp. now apply filter_In in Hp. Qed.

Lemma step_one_at_a_time (ev : Event) (w : World) :
  one_at_a_time w -> one_at_a_time (step ev w).
Proof.
  intros Hinv. pose proof Hinv as [Hlen Hind]. unfold step, handle.
  destruct ev as [text index | request answer | source].
  - destruct (isSpeaking w) as [i |] eqn:Hs.
    + rewrite handleSpeak_guard by congruence. exact Hinv.
    + rewrite (handleSpeak_begins _ _ _ Hs). cbn [snd].
      assert (Hnone : awaiting w ++ playing w = []).
      { destruct (awaiting w ++ playing w) as [| p l] eqn:Hl;
          [reflexivity |].
        specialize (Hind p (or_introl eq_refl)). congruence. }
      apply app_eq_nil in Hnone as [Ha Hp].
      split; cbn [awaiting playing isSpeaking]; rewrite Ha, Hp.
      * cbn. lia.
      * intros p [<- | []]. reflexivity.
  - rewrite bind_read.
    destruct (lookup request (awaiting w)) as [index |] eqn:Hl;
      [| exact Hinv].
    rewrite bind_write.
    apply lookup_in in Hl.
    pose proof (without_shorter _ _ _ Hl) as Hshort.
    set (w0 := with_awaiting (without request (awaiting w)) w).
    destruct (handleSpeak_resume_cases index answer w0)
      as (Ha & [(Hp & Hs) | [(Hp & Hs) | (source & Hp & Hs)]]);
      cbv zeta in Ha, Hp, Hs; subst w0;
      cbn [awaiting playing isSpeaking with_awaiting] in Ha, Hp, Hs.
    + split; rewrite Ha, Hp.
      * lia.
      * intros p Hin. exfalso.
        assert (Hz : List.length (without request (awaiting w)) = 0%nat
                     /\ List.length (playing w) = 0%nat) by lia.
        destruct Hz as [Hz1 Hz2].
        apply length_zero_iff_nil in Hz1, Hz2.
        rewrite Hz1, Hz2 in Hin. contradiction.
    + split; rewrite Ha, Hp.
      * lia.
      * intros p Hin. rewrite Hs. apply Hind.
        apply in_app_or in Hin as [Hin | Hin]; apply in_or_app;
          [left; now apply (without_incl request) | now right].
    + assert (Hz : List.length (without request (awaiting w)) = 0%nat
                   /\ List.length (playing w) = 0%nat) by lia.
      destruct Hz as [Hz1 Hz2].
      apply length_zero_iff_nil in Hz1, Hz2.
      split; rewrite ?Hs, Ha, Hp, Hz1, Hz2.
      * cbn. lia.
      * intros p [<- | []]. cbn [snd].
        apply (Hind (request, index)). apply in_or_app. now left.
  - rewrite bind_read.
    destruct (lookup source (playing w)) as [index |] eqn:Hl;
      [| exact Hinv].
    rewrite bind_write. unfold onended, write. cbn [snd].
    apply lookup_in in Hl.
    pose proof (without_shorter _ _ _ Hl) as Hshort.
    assert (Hz : List.length (awaiting w) = 0%nat
                 /\ List.length (without source (playing w)) = 0%nat)
      by lia.
    destruct Hz as [Hz1 Hz2]. apply length_zero_iff_nil in Hz1, Hz2.
    split; cbn [awaiting playing isSpeaking with_isSpeaking with_playing];
      rewrite Hz1, Hz2.
    + cbn. lia.
    + intros p [].
Qed.

Lemma run_one_at_a_time (evs : list Event) : forall w : World,
  one_at_a_time w -> one_at_a_time (run evs w).
Proof.
  induction evs as [| ev evs IH]; intros w H; [exact H |].
  apply (IH (step ev w)), step_one_at_a_time, H.
Qed.

Lemma initial_one_at_a_time : one_at_a_time initial.
Proof. split; [cbn; lia | intros p []]. Qed.

(** Within one mounted instance: in every state it reaches,
    [handleSpeak] called while [isSpeaking] is set does nothing at all (no
    request, no change of state); at most one of its sources plays; and if
    one plays, the indicator holds the index it was requested for. *)
Lemma speak_is_guarded :
  forall (evs : list Event) (text : string) (index : nat),
    (isSpeaking (run evs initial) <> None ->
     handleSpeak text index (run evs initial)
     = (Normal tt, run evs initial))
    /\ (List.length (playing (run evs initial)) <= 1)%nat
    /\ (forall source i,
          In (source, i) (playing (run evs initial)) ->
          isSpeaking (run evs initial) = Some i).
Proof.
  intros evs text index.
  destruct (run_one_at_a_time evs initial initial_one_at_a_time)
    as [Hlen Hind].
  split; [apply handleSpeak_guard |]. split; [lia |].
  intros source i Hin. apply (Hind (source, i)), in_or_app. now right.
Qed.

(** C9.  The guard of [handleSpeak] is the state [isSpeaking] of one
    instance, and nothing stops a source when the instance goes.  The
    reply at index 2 plays; the user looks at the live mode and comes
    back: [App] has unmounted the chat component and mounted a new one,
    whose [isSpeaking] is null, while the source of the old one still
    plays.  The speak button of the greeting is not guarded any more: its
    request is sent and its audio starts, so two playbacks sound at once,
    and the indicator names one of them only.  Without leaving the chat
    mode: when another chat is selected while the reply plays, the
    instance stays (it has no [key]) and the indicator stays at index 2,
    where the list on screen now shows another message than the one that
    plays. *)
Theorem a_remount_allows_a_second_playback :
  Screen.sounding Screen.reply_plays = [(2%nat, 2%nat)]
  /\ Screen.indicator Screen.reply_plays = Some 2%nat
  /\ Screen.onScreen (Screen.run Screen.there_and_back Screen.reply_plays)
     = Some initial
  /\ Screen.sounding (Screen.run Screen.there_and_back Screen.reply_plays)
     = [(2%nat, 2%nat)]
  /\ Screen.sounding
       (Screen.run (Screen.there_and_back ++ Screen.speak_the_greeting)
                   Screen.reply_plays)
     = [(2%nat, 0%nat); (2%nat, 2%nat)]
  /\ Screen.indicator
       (Screen.run (Screen.there_and_back ++ Screen.speak_the_greeting)
                   Screen.reply_plays)
     = Some 0%nat
  /\ Screen.indicator
       (Screen.step (Screen.OfApp (AppSessions.Select 1)) Screen.reply_plays)
     = Some 2%nat
  /\ Screen.sounding
       (Screen.step (Screen.OfApp (AppSessions.Select 1)) Screen.reply_plays)
     = [(2%nat, 2%nat)]
  /\ option_map Types.Message.parts
       (nth_error (Screen.messages_shown Screen.reply_plays) 2)
     = Some [Text.literal "Pack light."]
  /\ option_map Types.Message.parts
       (nth_error
          (Screen.messages_shown
             (Screen.step (Screen.OfApp (AppSessions.Select 1))
                          Screen.reply_plays)) 2)
     = Some [Text.literal "Boil water."].
Proof. vm_compute. repeat split. Qed.

End SpeakFacts.

(** * The persisted sessions *)

Module SessionFacts.

Import JS App.

(** C10.  If the storage has no item under the sessions key, or has one
    that [JSON.parse] rejects, the [sessions] state starts as the empty
    list and nothing is thrown. *)
Theorem unparsable_sessions_start_empty :
  forall (JSON_parse : string -> completion JSON) (storage : Storage),
    getItem storage SESSIONS_STORAGE_KEY = None
    \/ (exists saved e,
          getItem storage SESSIONS_STORAGE_KEY = Some saved
          /\ JSON_parse saved = Throw e) ->
    initial_sessions JSON_parse storage = Normal (JArray []).
Proof.
  intros JSON_parse storage [Hnone | (saved & e & Hsome & Hthrow)];
    unfold initial_sessions.
  - now rewrite Hnone.
  - rewrite Hsome. destruct saved; [reflexivity |].
    cbn [truthy]. now rewrite Hthrow.
Qed.

Lemma unparsable_sessions_start_empty_witness :
  (exists saved e,
     getItem damaged_storage SESSIONS_STORAGE_KEY = Some saved
     /\ parse_empty_array saved = Throw e)
  /\ initial_sessions parse_empty_array damaged_storage = Normal (JArray []).
Proof.
  assert (H : exists saved e,
            getItem damaged_storage SESSIONS_STORAGE_KEY = Some saved
            /\ parse_empty_array saved = Throw e)
    by (exists "[{id:"%string, SyntaxError; split; reflexivity).
  split; [exact H |].
  apply (unparsable_sessions_start_empty parse_empty_array damaged_storage).
  right. exact H.
Defined.

Example absent_sessions_start_empty :
  initial_sessions parse_empty_array [("theme", "dark")]%string
  = Normal (JArray []).
Proof. reflexivity. Qed.

Example saved_sessions_are_restored :
  initial_sessions parse_empty_array [("waso_sessions_v2", "[]")]%string
  = Normal (JArray []).
Proof. reflexivity. Qed.

End SessionFacts.

(** * The codec and the audio helpers *)

Module CodecFacts.

Import JS TypedArray WebAudio LiveInterface Facts LiveFacts Base64 Codec.

Lemma list_ind3 {A} (P : list A -> Prop) :
  P [] -> (forall a, P [a]) -> (forall a b, P [a; b]) ->
  (forall a b c l, P l -> P (a :: b :: c :: l)) ->
  forall l, P l.
Proof.
  intros H0 H1 H2 H3.
  assert (H : forall l, P l /\ (forall a, P (a :: l))
                        /\ (forall a b, P (a :: b :: l))).
  { induction l as [| x l (IH0 & IH1 & IH2)].
    - auto.
    - split; [apply IH1 |]. split; [intros a; apply IH2 |].
      intros a b. apply H3, IH0. }
  intros l. apply H.
Qed.

Lemma code_range (c : ascii) : 0 <= code c < 256.
Proof.
  unfold code. pose proof (N_ascii_bounded c). lia.
Qed.

Lemma digit_table :
  forallb (fun n =>
             match value (digit n) with Some v => v =? n | None => false end
             && negb (Ascii.eqb (digit n) "=")
             && negb (is_ascii_whitespace (digit n)))
          (zrange 0 64) = true.
Proof. vm_compute. reflexivity. Qed.

Lemma digit_facts (n : Z) :
  0 <= n < 64 ->
  value (digit n) = Some n /\ Ascii.eqb (digit n) "=" = false
  /\ is_ascii_whitespace (digit n) = false.
Proof.
  intros H.
  pose proof (proj1 (forallb_forall _ _) digit_table n
                (zrange_In 64 0 n ltac:(lia))) as Hn.
  cbv beta in Hn. apply andb_prop in Hn as [Hn Hw].
  apply andb_prop in Hn as [Hv He].
  destruct (value (digit n)) as [v |]; [| discriminate].
  apply Z.eqb_eq in Hv. subst v.
  repeat split; now apply negb_true_iff.
Qed.

Ltac code_bounds :=
  repeat match goal with
         | c : ascii |- _ =>
             lazymatch goal with
             | H : 0 <= code c < 256 |- _ => fail
             | _ => pose proof (code_range c)
             end
         end.

Ltac sextet_in_range := code_bounds; Z.div_mod_to_equations; lia.

Lemma btoa_chars_no_whitespace (l : list ascii) :
  filter (fun c => negb (is_ascii_whitespace c)) (btoa_chars l)
  = btoa_chars l.
Proof.
  induction l as [| a | a b | a b c l IH] using list_ind3;
    [reflexivity | | |];
    cbn [btoa_chars filter]; cbv zeta;
    repeat match goal with
           | |- context [is_ascii_whitespace (digit ?n)] =>
               rewrite (proj2 (proj2 (digit_facts n ltac:(sextet_in_range))))
           end; cbn [negb]; try rewrite IH; reflexivity.
Qed.

Lemma btoa_chars_length (l : list ascii) :
  Z.of_nat (List.length (btoa_chars l)) mod 4 = 0.
Proof.
  induction l as [| a | a b | a b c l IH] using list_ind3;
    try reflexivity.
  cbn [btoa_chars]. cbv zeta. cbn [List.length].
  rewrite !Nat2Z.inj_succ. Z.div_mod_to_equations. lia.
Qed.

Lemma btoa_digits_length (l : list ascii) :
  Z.of_nat (List.length (btoa_digits l)) mod 4 <> 1.
Proof.
  induction l as [| a | a b | a b c l IH] using list_ind3;
    try (cbn; discriminate).
  cbn [btoa_digits]. cbv zeta. cbn [List.length].
  rewrite !Nat2Z.inj_succ. Z.div_mod_to_equations. lia.
Qed.

Lemma btoa_chars_shape (l : list ascii) :
  btoa_chars l = []
  \/ exists x1 x2 x3 x4 r, btoa_chars l = x1 :: x2 :: x3 :: x4 :: r.
Proof.
  destruct l as [| a [| b [| c l]]]; [now left | right ..];
    cbn [btoa_chars]; cbv zeta; repeat eexists.
Qed.

Lemma btoa_chars_nil (l : list ascii) :
  btoa_chars l = [] -> btoa_digits l = [].
Proof. destruct l as [| a [| b [| c l]]]; [reflexivity | discriminate ..]. Qed.

Lemma drop_padding_of_btoa (l : list ascii) :
  drop_trailing_padding (btoa_chars l) = btoa_digits l.
Proof.
  induction l as [| a | a b | a b c l IH] using list_ind3;
    [reflexivity | | |].
  - cbn [btoa_chars btoa_digits]. cbv zeta. reflexivity.
  - cbn [btoa_chars btoa_digits]. cbv zeta.
    cbn [drop_trailing_padding].
    repeat match goal with
           | |- context [Ascii.eqb (digit ?n) "="] =>
               rewrite (proj1 (proj2 (digit_facts n ltac:(sextet_in_range))))
           end.
    reflexivity.
  - cbn [btoa_chars btoa_digits]. cbv zeta.
    destruct (btoa_chars_shape l) as [Hnil | (x1 & x2 & x3 & x4 & r & Hs)].
    + rewrite Hnil, (btoa_chars_nil l Hnil).
      cbn [drop_trailing_padding].
      repeat match goal with
           | |- context [Ascii.eqb (digit ?n) "="] =>
               rewrite (proj1 (proj2 (digit_facts n ltac:(sextet_in_range))))
           end.
      reflexivity.
    + rewrite <- IH, Hs. reflexivity.
Qed.

Lemma values_of_digits (l : list ascii) :
  values (btoa_digits l) = Some (sextets l).
Proof.
  induction l as [| a | a b | a b c l IH] using list_ind3;
    [reflexivity | | |];
    cbn [btoa_digits sextets values]; cbv zeta;
    repeat match goal with
           | |- context [value (digit ?n)] =>
               rewrite (proj1 (digit_facts n ltac:(sextet_in_range)))
           end; try rewrite IH; reflexivity.
Qed.

Lemma decode_groups_of_sextets (l : list ascii) :
  decode_groups (sextets l) = map code l.
Proof.
  induction l as [| a | a b | a b c l IH] using list_ind3;
    [reflexivity | | |];
    pose proof (code_range a); try pose proof (code_range b);
    try pose proof (code_range c);
    cbn [sextets decode_groups map]; cbv zeta; try rewrite IH;
    repeat f_equal; Z.div_mod_to_equations; lia.
Qed.

Lemma ascii_of_code (c : ascii) : ascii_of_N (Z.to_N (code c)) = c.
Proof. unfold code. rewrite N2Z.id. apply ascii_N_embedding. Qed.

(** [atob] undoes [btoa] on every binary string. *)
Lemma atob_btoa (binary : string) : atob (btoa binary) = Some binary.
Proof.
  unfold atob, btoa.
  rewrite list_ascii_of_string_of_list_ascii, btoa_chars_no_whitespace.
  unfold strip_padding. rewrite btoa_chars_length. cbn [Z.eqb].
  rewrite drop_padding_of_btoa.
  destruct (Z.eqb_spec
              (Z.of_nat (List.length
                           (btoa_digits (list_ascii_of_string binary)))
               mod 4) 1) as [H | _];
    [now apply btoa_digits_length in H |].
  rewrite values_of_digits, decode_groups_of_sextets, map_map.
  rewrite (map_ext _ (fun c => c) ascii_of_code), map_id.
  now rewrite string_of_list_ascii_of_string.
Qed.

Lemma binary_string_of_bytes (bytes : list Z) (acc : string) :
  fold_left (fun binary b => (binary ++ fromCharCode b)%string) bytes acc
  = (acc ++ string_of_list_ascii
              (map (fun b => ascii_of_N (Z.to_N b)) bytes))%string.
Proof.
  revert acc. induction bytes as [| b l IH]; intros acc.
  - cbn. clear. induction acc; cbn; congruence.
  - cbn [fold_left map string_of_list_ascii]. rewrite IH.
    unfold fromCharCode. clear.
    induction acc; cbn; [reflexivity | now f_equal].
Qed.

Lemma decode_of_encode (bytes : list Z) :
  Forall byte bytes -> decode (encode bytes) = Normal bytes.
Proof.
  intros Hb. unfold decode, encode.
  rewrite atob_btoa, binary_string_of_bytes. cbn [append].
  rewrite list_ascii_of_string_of_list_ascii, map_map.
  f_equal. rewrite <- (map_id bytes) at 2. apply map_ext_in.
  intros b Hin. pose proof (proj1 (Forall_forall _ _) Hb b Hin) as Hr.
  unfold byte in Hr. unfold ToUint8, code.
  rewrite N_ascii_embedding by lia.
  rewrite Z2N.id by lia. Z.div_mod_to_equations. lia.
Qed.

Lemma string_of_list_ascii_length (l : list ascii) :
  String.length (string_of_list_ascii l) = List.length l.
Proof. induction l as [| c l IH]; [reflexivity | cbn; now rewrite IH]. Qed.

Lemma btoa_chars_count (l : list ascii) :
  List.length (btoa_chars l) = (4 * ((List.length l + 2) / 3))%nat.
Proof.
  induction l as [| a | a b | a b c l IH] using list_ind3;
    try reflexivity.
  cbn [btoa_chars List.length]. rewrite IH.
  replace (S (S (S (List.length l))) + 2)%nat
    with (List.length l + 2 + 1 * 3)%nat by lia.
  rewrite Nat.div_add by lia. lia.
Qed.

Lemma encode_length (bytes : list Z) :
  String.length (encode bytes) = (4 * ((List.length bytes + 2) / 3))%nat.
Proof.
  unfold encode, btoa.
  rewrite binary_string_of_bytes. cbn [append].
  rewrite string_of_list_ascii_length, list_ascii_of_string_of_list_ascii.
  now rewrite btoa_chars_count, length_map.
Qed.

(** X1.  [decode] undoes [encode]: whatever bytes are encoded for the
    wire, decoding the text gives the same bytes back and never throws;
    the decoder of the chat component reads the same text to the same
    bytes.  The text is four characters for every three bytes, the last
    group padded. *)
Theorem decode_encode (bytes : list Z) :
  Forall byte bytes ->
  decode (encode bytes) = Normal bytes
  /\ ChatInterface.decodeBase64 (encode bytes) = Normal bytes
  /\ String.length (encode bytes)
     = (4 * ((List.length bytes + 2) / 3))%nat.
Proof.
  intros Hb. split; [| split].
  - now apply decode_of_encode.
  - change (ChatInterface.decodeBase64 (encode bytes))
      with (decode (encode bytes)).
    now apply decode_of_encode.
  - apply encode_length.
Qed.

Lemma decode_encode_witness :
  decode (encode [0; 1; 127; 128; 255]) = Normal [0; 1; 127; 128; 255]
  /\ ChatInterface.decodeBase64 (encode [0; 1; 127; 128; 255])
     = Normal [0; 1; 127; 128; 255]
  /\ String.length (encode [0; 1; 127; 128; 255])
     = (4 * ((List.length [0; 1; 127; 128; 255] + 2) / 3))%nat.
Proof.
  apply (decode_encode [0; 1; 127; 128; 255]).
  repeat constructor; unfold byte; lia.
Defined.

End CodecFacts.

(** * The capture and playback paths *)

Module AudioFacts.

Import JS TypedArray WebAudio LiveInterface Facts LiveFacts Base64 Codec
  CodecFacts.

Lemma ToInt16_range (x : Q) : int16 (ToInt16 x).
Proof.
  unfold int16, ToInt16.
  destruct (Z.leb_spec 32768 (truncate x mod 65536));
    Z.div_mod_to_equations; lia.
Qed.

Lemma capture_int16_range (inputData : list Q) :
  Forall int16 (capture_int16 inputData).
Proof.
  unfold capture_int16. apply Forall_forall. intros x Hx.
  apply in_map_iff in Hx as (s & <- & _). apply ToInt16_range.
Qed.

Lemma buffer_bytes (a : list Z) :
  Forall byte (Uint8Array_of_Int16Array a)
  /\ List.length (Uint8Array_of_Int16Array a) = (2 * List.length a)%nat.
Proof.
  induction a as [| x l [IHb IHl]]; [split; [constructor | reflexivity] |].
  unfold Uint8Array_of_Int16Array in *. cbn [flat_map bytes_of_int16 app].
  split.
  - constructor; [| constructor; [| exact IHb]]; unfold byte;
      Z.div_mod_to_equations; lia.
  - cbn [List.length]. rewrite IHl. lia.
Qed.

(** X2.  What a capture tick sends can be read back.  The tick sends its
    blob to the session at once when the session promise is fulfilled, and
    otherwise keeps it for the time the promise is fulfilled; the text of
    the blob decodes, without error, to two bytes per input sample, and
    these bytes are the little-endian form of the converted samples,
    whatever the input samples are. *)
Theorem captured_blob_decodes :
  forall (session : nat) (inputData : list Q) (w : World),
    exists data bytes,
      onaudioprocess session inputData w
      = (Normal tt,
         if existsb (Nat.eqb session) (fulfilled w)
         then
           with_calls
             (calls w
              ++ [SendRealtimeInput session data "audio/pcm;rate=16000"])
             w
         else
           with_thens
             (thens w ++ [(session, (data, "audio/pcm;rate=16000"%string))])
             w)
      /\ decode data = Normal bytes
      /\ List.length bytes = (2 * List.length inputData)%nat
      /\ Int16Array_of_buffer bytes = Some (capture_int16 inputData).
Proof.
  intros session inputData w.
  exists (encode (Uint8Array_of_Int16Array (capture_int16 inputData))),
         (Uint8Array_of_Int16Array (capture_int16 inputData)).
  destruct (buffer_bytes (capture_int16 inputData)) as [Hb Hl].
  split; [apply onaudioprocess_unfold |].
  split; [now apply decode_of_encode |].
  split; [rewrite Hl; unfold capture_int16; now rewrite length_map |].
  apply Int16Array_of_Uint8Array, capture_int16_range.
Qed.

Lemma encode_not_empty (bytes : list Z) :
  bytes <> [] -> String.eqb (encode bytes) EmptyString = false.
Proof.
  intros Hne. unfold encode, btoa.
  rewrite binary_string_of_bytes. cbn [append].
  rewrite list_ascii_of_string_of_list_ascii.
  destruct bytes as [| b l]; [congruence |].
  cbn [map].
  destruct (btoa_chars_shape (ascii_of_N (Z.to_N b)
                              :: map (fun b0 => ascii_of_N (Z.to_N b0)) l))
    as [Hnil | (x1 & x2 & x3 & x4 & r & Hs)].
  - destruct l as [| c [| d l]]; discriminate.
  - rewrite Hs. reflexivity.
Qed.

(** X3.  A well-formed inbound frame is always queued: a message whose
    payload is the base64 text of a non-empty frame of 16-bit samples
    makes [onmessage] complete, start exactly one source holding the
    decoded samples, and move the cursor on by [n / 24000] seconds. *)
Theorem pcm_frame_is_queued :
  forall (samples : list Z) (currentTime : Q) (ctx : nat) (w : World),
    samples <> [] -> Forall int16 samples ->
    outputAudioContextRef w = Some ctx ->
    let audioBuffer :=
      mkAudioBuffer 1 (List.length samples) 24000
        [map decode_sample samples] in
    onmessage currentTime (frame_message samples) w
    = (Normal tt, scheduled currentTime ctx audioBuffer w)
    /\ (duration audioBuffer
        == inject_Z (Z.of_nat (List.length samples)) / 24000)%Q.
Proof.
  intros samples currentTime ctx w Hne Hall Hout audioBuffer.
  split; [| reflexivity].
  assert (Hf : received_frame (frame_message samples) = Some audioBuffer).
  { unfold frame_message. apply received_pcm_frame; try assumption.
    - apply encode_not_empty. destruct samples; [congruence | discriminate].
    - apply decode_of_encode, buffer_bytes. }
  rewrite (onmessage_frame _ _ _ ctx audioBuffer Hout Hf).
  reflexivity.
Qed.

Lemma pcm_frame_is_queued_witness :
  onmessage 1 (frame_message [1; -2; 3]) fresh_session
  = (Normal tt,
     scheduled 1 1
       (mkAudioBuffer 1 3 24000 [map decode_sample [1; -2; 3]])
       fresh_session)
  /\ (duration (mkAudioBuffer 1 3 24000 [map decode_sample [1; -2; 3]%Z])
      == inject_Z 3 / 24000)%Q.
Proof.
  apply (pcm_frame_is_queued [1; -2; 3] 1 1 fresh_session).
  - discriminate.
  - repeat constructor; unfold int16; lia.
  - reflexivity.
Defined.

Lemma list_ind2 {A} (P : list A -> Prop) :
  P [] -> (forall a, P [a]) -> (forall a b l, P l -> P (a :: b :: l)) ->
  forall l, P l.
Proof.
  intros H0 H1 H2.
  assert (H : forall l, P l /\ forall a, P (a :: l)).
  { induction l as [| x l [IH0 IH1]]; [auto |].
    split; [apply IH1 | intros a; apply H2, IH0]. }
  intros l. apply H.
Qed.

Lemma Int16Array_of_buffer_odd (bytes : list Z) :
  Nat.odd (List.length bytes) = true -> Int16Array_of_buffer bytes = None.
Proof.
  induction bytes as [| a | a b l IH] using list_ind2; intros H.
  - discriminate.
  - reflexivity.
  - cbn [Int16Array_of_buffer]. rewrite IH; [reflexivity |].
    exact H.
Qed.

Lemma Int16Array_of_buffer_even (bytes : list Z) :
  Nat.even (List.length bytes) = true ->
  exists a, Int16Array_of_buffer bytes = Some a
            /\ (2 * List.length a)%nat = List.length bytes.
Proof.
  induction bytes as [| a | a b l IH] using list_ind2; intros H.
  - exists []. now split.
  - discriminate.
  - destruct (IH H) as (x & Hx & Hl).
    exists (int16_of_bytes a b :: x). cbn [Int16Array_of_buffer].
    rewrite Hx. split; [reflexivity |]. cbn [List.length]. lia.
Qed.

(** X4.  When [decodeAudioData] fails and when it does not.  An odd
    number of bytes is a [RangeError], for any channel count; an even
    number with no channel or less than one whole frame is a
    [NotSupportedError]; anything else, within the channel counts and
    rates every implementation of [createBuffer] supports, decodes to a
    buffer of the asked rate and channel count that holds the whole
    frames: a trailing part of a frame is dropped. *)
Theorem decodeAudioData_outcomes :
  forall (data : list Z) (rate : Z) (numChannels : nat),
    (Nat.odd (List.length data) = true ->
     decodeAudioData data rate numChannels = Throw RangeError)
    /\ (Nat.even (List.length data) = true ->
        (numChannels = 0%nat
         \/ (List.length data / 2 < numChannels)%nat) ->
        decodeAudioData data rate numChannels = Throw NotSupportedError)
    /\ (Nat.even (List.length data) = true ->
        (0 < numChannels <= List.length data / 2)%nat ->
        (numChannels <= 32)%nat -> 8000 <= rate <= 96000 ->
        exists audioBuffer,
          decodeAudioData data rate numChannels = Normal audioBuffer
          /\ numberOfChannels audioBuffer = numChannels
          /\ sampleRate audioBuffer = rate
          /\ WebAudio.length audioBuffer
             = (List.length data / 2 / numChannels)%nat
          /\ List.length (channelData audioBuffer) = numChannels
          /\ Forall (fun channel =>
                       List.length channel = WebAudio.length audioBuffer)
                    (channelData audioBuffer)).
Proof.
  intros data rate numChannels. unfold decodeAudioData.
  split; [| split].
  - intros H. now rewrite Int16Array_of_buffer_odd.
  - intros He Hn. destruct (Int16Array_of_buffer_even data He)
      as (a & -> & Hl).
    replace (List.length data / 2)%nat with (List.length a) in Hn
      by (rewrite <- Hl, Nat.mul_comm; now rewrite Nat.div_mul).
    destruct Hn as [-> | Hlt]; [reflexivity |].
    rewrite (Nat.div_small _ _ Hlt). cbn [Nat.eqb].
    now rewrite orb_true_r.
  - intros He Hn _ _. destruct (Int16Array_of_buffer_even data He)
      as (a & -> & Hl).
    replace (List.length data / 2)%nat with (List.length a) in *
      by (rewrite <- Hl, Nat.mul_comm; now rewrite Nat.div_mul).
    assert (H0 : (numChannels =? 0)%nat = false)
      by (apply Nat.eqb_neq; lia).
    assert (H1 : (List.length a / numChannels =? 0)%nat = false).
    { apply Nat.eqb_neq. intros Hz.
      apply Nat.div_small_iff in Hz; lia. }
    rewrite H0, H1. cbn [orb]. eexists. split; [reflexivity |].
    cbn [numberOfChannels sampleRate WebAudio.length channelData].
    repeat split.
    + now rewrite length_map, length_seq.
    + apply Forall_forall. intros ch Hch.
      apply in_map_iff in Hch as (c & <- & _).
      now rewrite length_map, length_seq.
Qed.

Lemma decodeAudioData_outcomes_witness :
  Nat.even (List.length [1; 0; 2; 0; 3; 0; 4; 0; 5; 0]) = true
  /\ (0 < 2 <= List.length [1; 0; 2; 0; 3; 0; 4; 0; 5; 0] / 2)%nat
  /\ decodeAudioData [1; 0; 2] 24000 2 = Throw RangeError
  /\ decodeAudioData [1; 0] 24000 2 = Throw NotSupportedError
  /\ exists audioBuffer,
       decodeAudioData [1; 0; 2; 0; 3; 0; 4; 0; 5; 0] 24000 2
       = Normal audioBuffer
       /\ numberOfChannels audioBuffer = 2%nat
       /\ sampleRate audioBuffer = 24000
       /\ WebAudio.length audioBuffer
          = (List.length [1; 0; 2; 0; 3; 0; 4; 0; 5; 0] / 2 / 2)%nat
       /\ List.length (channelData audioBuffer) = 2%nat
       /\ Forall (fun channel =>
                    List.length channel = WebAudio.length audioBuffer)
                 (channelData audioBuffer).
Proof.
  split; [reflexivity |]. split; [cbn; lia |].
  split; [apply (decodeAudioData_outcomes [1; 0; 2] 24000 2); reflexivity |].
  split.
  - apply (decodeAudioData_outcomes [1; 0] 24000 2);
      [reflexivity | right; cbn; lia].
  - apply (decodeAudioData_outcomes [1; 0; 2; 0; 3; 0; 4; 0; 5; 0] 24000 2);
      [reflexivity | cbn; lia | lia | lia].
Defined.

Lemma decode_sample_table :
  forallb (fun x => Qeq_bool (decode_sample x) (inject_Z x / 32768))
          (zrange (-32768) (Z.to_nat 65536)) = true.
Proof. vm_compute. reflexivity. Qed.

(** The float32 store of the playback decode is exact. *)
Lemma decode_sample_exact (x : Z) :
  int16 x -> (decode_sample x == inject_Z x / 32768)%Q.
Proof.
  intros H. apply Qeq_bool_iff.
  refine (proj1 (forallb_forall _ _) decode_sample_table x _).
  apply zrange_In. unfold int16 in H. rewrite Z2Nat.id by lia. lia.
Qed.

Lemma decode_sample_normalised (x : Z) :
  int16 x -> (-1 <= decode_sample x)%Q /\ (decode_sample x < 1)%Q.
Proof.
  intros H. rewrite (decode_sample_exact x H). unfold int16 in H.
  unfold Qle, Qlt, Qdiv, Qmult, Qinv, inject_Z. cbn. lia.
Qed.

Lemma nth_concat_frames {A} (n : nat) (d : A) (frames : list (list A)) :
  Forall (fun frame => List.length frame = n) frames ->
  forall i c, (c < n)%nat ->
    nth (i * n + c) (List.concat frames) d = nth c (nth i frames []) d.
Proof.
  induction 1 as [| fr l Hfr _ IH]; intros i c Hc.
  - destruct i, c; cbn; try reflexivity; now destruct (_ + _)%nat.
  - cbn [List.concat]. destruct i as [| i].
    + cbn [Nat.mul Nat.add nth]. apply app_nth1. lia.
    + cbn [nth].
      rewrite app_nth2 by (cbn; lia).
      replace (S i * n + c - List.length fr)%nat with (i * n + c)%nat
        by (cbn; lia).
      now apply IH.
Qed.

Lemma concat_frames_length {A} (n : nat) (frames : list (list A)) :
  Forall (fun frame => List.length frame = n) frames ->
  List.length (List.concat frames) = (List.length frames * n)%nat.
Proof.
  induction 1 as [| fr l Hfr _ IH]; [reflexivity |].
  cbn [List.concat List.length]. rewrite length_app, IH, Hfr. lia.
Qed.

(** X5.  [decodeAudioData] takes interleaved frames apart.  For frames of
    [numChannels] 16-bit samples each, channel [c] of the decoded buffer
    holds sample [c] of every frame, in frame order, each divided by
    32768 exactly, so every decoded sample lies in [-1, 1).  The channel
    count and the rate are kept within what every implementation of
    [createBuffer] accepts. *)
Theorem decodeAudioData_deinterleaves :
  forall (frames : list (list Z)) (rate : Z) (numChannels : nat),
    (0 < numChannels <= 32)%nat -> 8000 <= rate <= 96000 ->
    frames <> [] ->
    Forall (fun frame => List.length frame = numChannels
                         /\ Forall int16 frame) frames ->
    decodeAudioData (Uint8Array_of_Int16Array (List.concat frames)) rate
      numChannels
    = Normal
        (mkAudioBuffer numChannels (List.length frames) rate
           (map (fun channel =>
                   map (fun frame => decode_sample (nth channel frame 0%Z))
                       frames)
                (seq 0 numChannels)))
    /\ forall channel frame,
         (channel < numChannels)%nat -> In frame frames ->
         (decode_sample (nth channel frame 0%Z)
          == inject_Z (nth channel frame 0%Z) / 32768)%Q
         /\ (-1 <= decode_sample (nth channel frame 0%Z))%Q
         /\ (decode_sample (nth channel frame 0%Z) < 1)%Q.
Proof.
  intros frames rate n Hn _ Hne Hall.
  assert (Hlen : Forall (fun frame => List.length frame = n) frames)
    by (eapply Forall_impl; [| exact Hall]; now intros fr [H _]).
  assert (Hint : Forall int16 (List.concat frames)).
  { apply Forall_concat. eapply Forall_impl; [| exact Hall].
    now intros fr [_ H]. }
  split.
  - unfold decodeAudioData.
    rewrite (Int16Array_of_Uint8Array _ Hint).
    rewrite (concat_frames_length n frames Hlen).
    rewrite Nat.div_mul by lia.
    assert (H0 : (n =? 0)%nat = false) by (apply Nat.eqb_neq; lia).
    assert (H1 : (List.length frames =? 0)%nat = false)
      by (destruct frames; [congruence | reflexivity]).
    rewrite H0, H1. cbn [orb]. do 2 f_equal.
    apply map_ext_in. intros c Hc. apply in_seq in Hc.
    rewrite <- (map_nth_seq
                  (fun frame => decode_sample (nth c frame 0)) [] frames).
    apply map_ext. intros i.
    now rewrite (nth_concat_frames n 0 frames Hlen i c) by lia.
  - intros c fr Hc Hin.
    pose proof (proj1 (Forall_forall _ _) Hall fr Hin) as [Hl Hi].
    assert (Hx : int16 (nth c fr 0)).
    { apply (proj1 (Forall_forall _ _) Hi). apply nth_In. lia. }
    split; [now apply decode_sample_exact |].
    now apply decode_sample_normalised.
Qed.

Lemma decodeAudioData_deinterleaves_witness :
  decodeAudioData
    (Uint8Array_of_Int16Array (List.concat [[1; -1]; [2; -2]; [3; -3]]))
    48000 2
  = Normal
      (mkAudioBuffer 2 (List.length [[1; -1]; [2; -2]; [3; -3]]) 48000
         (map (fun channel =>
                 map (fun frame => decode_sample (nth channel frame 0))
                     [[1; -1]; [2; -2]; [3; -3]])
              (seq 0 2)))
  /\ (decode_sample (nth 1 [2; -2]%Z 0%Z)
      == inject_Z (nth 1 [2; -2]%Z 0%Z) / 32768)%Q
  /\ (-1 <= decode_sample (nth 1 [2; -2]%Z 0%Z))%Q
  /\ (decode_sample (nth 1 [2; -2]%Z 0%Z) < 1)%Q.
Proof.
  assert (H : (0 < 2 <= 32)%nat
              /\ 8000 <= 48000 <= 96000
              /\ [[1; -1]; [2; -2]; [3; -3]] <> []
              /\ Forall (fun frame => List.length frame = 2%nat
                                      /\ Forall int16 frame)
                        [[1; -1]; [2; -2]; [3; -3]]).
  { split; [lia |]. split; [lia |]. split; [discriminate |].
    repeat constructor; unfold int16; lia. }
  destruct H as (Hn & Hr & Hne & Hall).
  split.
  - exact (proj1 (decodeAudioData_deinterleaves _ 48000 2%nat Hn Hr Hne Hall)).
  - apply (proj2 (decodeAudioData_deinterleaves _ 48000 2%nat Hn Hr Hne Hall)
             1%nat [2; -2]).
    + lia.
    + right. left. reflexivity.
Defined.

End AudioFacts.

(** * The capture conversion outside and inside the nominal range *)

Module CaptureFacts.

Import JS TypedArray WebAudio LiveInterface Facts LiveFacts.

Lemma truncate_nonneg (x : Q) :
  0 <= Qnum x -> truncate x = Qfloor x.
Proof.
  destruct x as [n d]. cbn. intros H. now apply Z.quot_div_nonneg.
Qed.

Lemma truncate_neg (x : Q) :
  Qnum x <= 0 -> truncate x = Qceiling x.
Proof.
  destruct x as [n d]. unfold truncate, Qceiling, Qfloor, Qopp. cbn. intros H.
  rewrite <- (Z.quot_div_nonneg (- n) (Zpos d)) by lia.
  rewrite Z.quot_opp_l by lia. lia.
Qed.

Lemma truncate_le (x y : Q) : (x <= y)%Q -> truncate x <= truncate y.
Proof.
  intros H.
  destruct (Z.le_gt_cases 0 (Qnum x)) as [Hx | Hx];
    destruct (Z.le_gt_cases 0 (Qnum y)) as [Hy | Hy].
  - rewrite !truncate_nonneg by assumption. now apply Qfloor_resp_le.
  - exfalso. unfold Qle in H. nia.
  - rewrite truncate_neg, truncate_nonneg by lia.
    assert (Qceiling x <= 0).
    { change 0 with (Qceiling 0). apply Qceiling_resp_le.
      unfold Qle. cbn. lia. }
    assert (0 <= Qfloor y).
    { change 0 with (Qfloor 0). apply Qfloor_resp_le.
      unfold Qle. cbn. lia. }
    lia.
  - rewrite !truncate_neg by lia. now apply Qceiling_resp_le.
Qed.

(** X6.  On the nominal range the conversion keeps the order of the
    samples: a louder sample never becomes a smaller integer. *)
Theorem capture_is_monotone :
  forall s t : Q,
    (-1 <= s)%Q -> (s <= t)%Q -> (t < 1)%Q ->
    capture_sample s <= capture_sample t.
Proof.
  intros s t Hs Hst Ht.
  rewrite !capture_sample_truncates;
    [| eapply Qle_trans; eassumption | assumption | assumption
     | eapply Qle_lt_trans; eassumption].
  apply truncate_le. apply Qmult_le_compat_r; [assumption | discriminate].
Qed.

Lemma capture_is_monotone_witness :
  capture_sample (-(1 # 3)) <= capture_sample (1 # 2).
Proof.
  apply (capture_is_monotone (-(1 # 3)) (1 # 2));
    unfold Qle, Qlt; cbn; lia.
Defined.

(** X7.  Nothing clamps a sample.  A sample from full scale up to, but
    not reaching, twice full scale comes out negative, 65536 below its
    truncation; one from below [-1 - 1/32768] down to, but not reaching,
    minus twice full scale comes out non-negative, 65536 above it. *)
Theorem capture_wraps_out_of_range :
  forall s : Q,
    ((1 <= s)%Q -> (s < 2)%Q ->
     capture_sample s = truncate (s * 32768) - 65536
     /\ -32768 <= capture_sample s < 0)
    /\ ((-2 < s)%Q -> (s <= -(32769 # 32768))%Q ->
        capture_sample s = truncate (s * 32768) + 65536
        /\ 0 <= capture_sample s <= 32767).
Proof.
  intros s. split; intros Hlo Hhi.
  - assert (H : 32768 <= truncate (s * 32768) <= 65535).
    { destruct s as [n d]. unfold Qle, Qlt, truncate in *.
      cbn [Qnum Qden Qmult] in *. rewrite Pos.mul_1_r.
      Z.quot_rem_to_equations. nia. }
    unfold capture_sample, ToInt16.
    destruct (Z.leb_spec 32768 (truncate (s * 32768) mod 65536));
      Z.div_mod_to_equations; lia.
  - assert (H : -65535 <= truncate (s * 32768) <= -32769).
    { destruct s as [n d]. unfold Qle, Qlt, truncate in *.
      cbn [Qnum Qden Qmult Qopp] in *. rewrite Pos.mul_1_r.
      Z.quot_rem_to_equations. nia. }
    unfold capture_sample, ToInt16.
    destruct (Z.leb_spec 32768 (truncate (s * 32768) mod 65536));
      Z.div_mod_to_equations; lia.
Qed.

Lemma capture_wraps_out_of_range_witness :
  (capture_sample (3 # 2) = truncate ((3 # 2) * 32768) - 65536
   /\ -32768 <= capture_sample (3 # 2) < 0)
  /\ (capture_sample (-(3 # 2)) = truncate (-(3 # 2) * 32768) + 65536
      /\ 0 <= capture_sample (-(3 # 2)) <= 32767).
Proof.
  split.
  - apply (capture_wraps_out_of_range (3 # 2));
      unfold Qle, Qlt; cbn; lia.
  - apply (capture_wraps_out_of_range (-(3 # 2)));
      unfold Qle, Qlt; cbn; lia.
Defined.

End CaptureFacts.

(** * Traces of the live component *)

Module TraceFacts.

Import JS TypedArray WebAudio LiveInterface Facts LiveFacts Traces.

Lemma sent_app (cs cs' : list Call) : sent (cs ++ cs') = sent cs ++ sent cs'.
Proof. apply flat_map_app. Qed.

Lemma sent_to_app (session : nat) (cs cs' : list Call) :
  sent_to session (cs ++ cs') = sent_to session cs ++ sent_to session cs'.
Proof. apply flat_map_app. Qed.

Lemma started_sources_app (cs cs' : list Call) :
  started_sources (cs ++ cs') = started_sources cs ++ started_sources cs'.
Proof. apply flat_map_app. Qed.

Lemma sent_stops (sources : list nat) : sent (map StopSource sources) = [].
Proof. induction sources; [reflexivity | assumption]. Qed.

Lemma started_sources_stops (sources : list nat) :
  started_sources (map StopSource sources) = [].
Proof. induction sources; [reflexivity | assumption]. Qed.

Lemma closes_stops (ctx : nat) (sources : list nat) :
  existsb (is_close_of ctx) (map StopSource sources) = false.
Proof. induction sources; [reflexivity | assumption]. Qed.

(** What [stopSession] adds to the trace. *)
Lemma stop_calls_shape (w : World) :
  sent (stop_calls w) = []
  /\ started_sources (stop_calls w) = []
  /\ stopped (stop_calls w) = sourcesRef w
  /\ forall ctx, existsb (is_close_of ctx) (stop_calls w) = true
                 <-> refers_to w ctx.
Proof.
  unfold stop_calls, refers_to.
  repeat split.
  - rewrite !sent_app, sent_stops.
    destruct (sessionRef w), (audioContextRef w), (outputAudioContextRef w);
      reflexivity.
  - rewrite !started_sources_app, started_sources_stops.
    destruct (sessionRef w), (audioContextRef w), (outputAudioContextRef w);
      reflexivity.
  - rewrite !stopped_app, stopped_stops.
    destruct (sessionRef w), (audioContextRef w), (outputAudioContextRef w);
      cbn; now rewrite ?app_nil_r.
  - rewrite !existsb_app, closes_stops.
    destruct (sessionRef w), (audioContextRef w) as [a |],
      (outputAudioContextRef w) as [b |]; cbn;
      rewrite ?orb_false_r; intros H;
      repeat match goal with
             | H : _ || _ = true |- _ => apply orb_true_iff in H as [H | H]
             | H : Nat.eqb _ _ = true |- _ => apply Nat.eqb_eq in H; subst
             end; auto; discriminate.
  - rewrite !existsb_app, closes_stops.
    destruct (sessionRef w), (audioContextRef w) as [a |],
      (outputAudioContextRef w) as [b |]; cbn;
      intros [H | H]; inversion H; subst;
      rewrite ?Nat.eqb_refl, ?orb_true_r; reflexivity.
Qed.

Lemma flushed_fields (w : World) :
  calls (flushed w) = calls w ++ map StopSource (sourcesRef w)
  /\ sourcesRef (flushed w) = [] /\ fresh (flushed w) = fresh w
  /\ audioContextRef (flushed w) = audioContextRef w
  /\ outputAudioContextRef (flushed w) = outputAudioContextRef w.
Proof. repeat split. Qed.

(** The worlds [onmessage] can leave behind. *)
Lemma onmessage_shape (currentTime : Q) (message : LiveServerMessage)
    (w : World) :
  snd (onmessage currentTime message w) = w
  \/ (exists t, snd (onmessage currentTime message w)
                = with_nextStartTimeRef t w)
  \/ snd (onmessage currentTime message w) = flushed w
  \/ exists ctx audioBuffer,
       snd (onmessage currentTime message w)
       = scheduled currentTime ctx audioBuffer w
       \/ snd (onmessage currentTime message w)
          = flushed (scheduled currentTime ctx audioBuffer w).
Proof.
  rewrite onmessage_unfold.
  destruct (read_base64Audio message) as [base64Audio | e]; [| now left].
  assert (Hplain : snd (interruption_part message w) = w
                   \/ snd (interruption_part message w) = flushed w)
    by (unfold interruption_part; destruct (is_interrupted message); auto).
  assert (Hdone : snd (interruption_part message w) = w
                  \/ (exists t, snd (interruption_part message w)
                                = with_nextStartTimeRef t w)
                  \/ snd (interruption_part message w) = flushed w
                  \/ exists ctx audioBuffer,
                       snd (interruption_part message w)
                       = scheduled currentTime ctx audioBuffer w
                       \/ snd (interruption_part message w)
                          = flushed (scheduled currentTime ctx audioBuffer w)).
  { destruct Hplain as [H | H]; rewrite H.
    - now left.
    - right. right. now left. }
  destruct (truthy base64Audio) as [base64 |]; [| exact Hdone].
  destruct (outputAudioContextRef w) as [ctx |]; [| exact Hdone].
  cbv zeta.
  destruct (decode base64) as [bytes | e].
  - destruct (decodeAudioData bytes 24000 1) as [audioBuffer | e].
    + right. right. right. exists ctx, audioBuffer.
      unfold interruption_part. destruct (is_interrupted message).
      * now right.
      * now left.
    + right. left. eexists. reflexivity.
  - right. left. eexists. reflexivity.
Qed.

(** Every event, by what it leaves behind. *)
Lemma step_unfold (ev : Event) (w : World) :
  step ev w
  = match ev with
    | Click =>
        match rendered_control w with
        | SelectApiKey => snd (handleOpenKeyDialog w)
        | StartConversation false => snd (startSession w)
        | StartConversation true => w
        | Disconnect => snd (stopSession w)
        end
    | ServerMessage currentTime message =>
        snd (onmessage currentTime message w)
    | SourceEnded source =>
        with_sourcesRef (set_delete source (sourcesRef w)) w
    | ServerError message =>
        snd (stopSession
               (if key_issue message
                then with_needsKey true
                       (with_errorMsg
                          (Some "API Key issue. Please re-select your key."%string)
                          w)
                else with_errorMsg
                       (Some "Connection interrupted. Please try again."%string)
                       w))
    | ServerClose | Unmount => snd (stopSession w)
    | AudioProcess sessionPromise inputData =>
        snd (onaudioprocess sessionPromise inputData w)
    | Settled id answer => step (Settled id answer) w
    | Opened _ => with_isConnecting false (with_isActive true w)
    end.
Proof.
  destruct ev as [| currentTime message | source | message | |
                  sessionPromise inputData | | id answer | sessionPromise];
    try reflexivity.
  - apply click_spec.
  - unfold step, handle. now rewrite onerror_spec.
Qed.

(** The fields of a world written with the setters. *)
Ltac fields :=
  cbn [isActive isConnecting errorMsg needsKey audioContextRef
       outputAudioContextRef sessionRef nextStartTimeRef sourcesRef calls
       fresh browser awaiting nextCall fulfilled thens
       with_isActive with_isConnecting with_errorMsg with_needsKey
       with_audioContextRef with_outputAudioContextRef with_sessionRef
       with_nextStartTimeRef with_sourcesRef with_calls with_fresh
       with_awaiting with_nextCall with_fulfilled with_thens].

(** The cases of an answer to an [await], each with the world it leaves
    written out. *)
Ltac settled_cases id answer w :=
  rewrite settled_unfold;
  destruct (lookup id (awaiting w)) as [at_ |] eqn:Hat; cbv zeta;
  [ destruct at_, answer as [value | name message];
    rewrite ?checkKey_resume_unfold, ?handleOpenKeyDialog_resume_unfold,
      ?startSession_resume_unfold, ?startSession_unfold, ?fulfil_unfold;
    cbn [snd];
    try (destruct (negb value && negb (API_KEY (browser _))))
  | ].

Lemma beside_refl (w : World) : beside_the_scheduler w w.
Proof.
  repeat split; [apply Nat.le_refl |].
  exists []. now rewrite app_nil_r.
Qed.

Lemma start_calls_of_callbacks (session : nat)
    (callbacks : list (nat * (string * string))) :
  forallb start_call
    (map (fun t => SendRealtimeInput session (fst (snd t)) (snd (snd t)))
         callbacks) = true.
Proof. induction callbacks; [reflexivity | exact IHcallbacks]. Qed.

Ltac beside :=
  repeat split;
  [ cbn; lia
  | first [ exists []; split; [cbn; now rewrite app_nil_r | reflexivity]
          | eexists; split; [cbn; reflexivity | reflexivity] ] ].

Lemma startSession_beside (w : World) :
  beside_the_scheduler w (snd (startSession w)).
Proof. rewrite startSession_unfold. beside. Qed.

Lemma handleOpenKeyDialog_beside (w : World) :
  beside_the_scheduler w (snd (handleOpenKeyDialog w)).
Proof.
  rewrite handleOpenKeyDialog_unfold.
  destruct (aistudio (browser w)); beside.
Qed.

(** The answers to the awaits of a start, the capture ticks and [onopen]
    leave the scheduler alone. *)
Lemma settled_beside (id : nat) (answer : Answer) (w : World) :
  beside_the_scheduler w (step (Settled id answer) w).
Proof.
  settled_cases id answer w; try beside; try apply beside_refl.
  repeat split; [cbn; lia |].
  eexists. split; [cbn; reflexivity | apply start_calls_of_callbacks].
Qed.

Lemma onaudioprocess_beside (sessionPromise : nat) (inputData : list Q)
    (w : World) :
  beside_the_scheduler w (snd (onaudioprocess sessionPromise inputData w)).
Proof.
  rewrite onaudioprocess_unfold.
  destruct (existsb _ _); beside.
Qed.

(** ** The capture *)

Lemma sent_to_nothing_sent (session : nat) (cs : list Call) :
  sent cs = [] -> sent_to session cs = [].
Proof.
  induction cs as [| c cs IH]; [reflexivity |].
  destruct c; cbn; try exact IH. discriminate.
Qed.

Lemma capture_refl (w : World) : beside_the_capture w w.
Proof. repeat split. exists []. now rewrite app_nil_r. Qed.

Lemma capture_stop (v w : World) :
  thens v = thens w -> fulfilled v = fulfilled w -> calls v = calls w ->
  beside_the_capture w (snd (stopSession v)).
Proof.
  intros Ht Hf Hc. rewrite stopSession_spec. cbn [snd].
  repeat split; [exact Ht | exact Hf |].
  exists (stop_calls v). split; [cbn; now rewrite Hc |].
  apply stop_calls_shape.
Qed.

Ltac capture :=
  repeat split;
  first [ exists []; split; [cbn; now rewrite app_nil_r | reflexivity]
        | eexists; split; [cbn; reflexivity | reflexivity] ].

(** Every event but a capture tick and the fulfilment of a session
    promise is beside the capture. *)
Lemma step_beside_the_capture (ev : Event) (w : World) :
  match ev with
  | AudioProcess _ _ => True
  | Settled id (Resolves _) =>
      match lookup id (awaiting w) with
      | Some (AtSessionPromise _) => True
      | _ => beside_the_capture w (step ev w)
      end
  | _ => beside_the_capture w (step ev w)
  end.
Proof.
  destruct ev as [| currentTime message | source | message | |
                  sessionPromise inputData | | id answer | sessionPromise];
    try exact I.
  - rewrite step_unfold.
    destruct (rendered_control w) as [| [|] |].
    + rewrite handleOpenKeyDialog_unfold.
      destruct (aistudio (browser w)); capture.
    + apply capture_refl.
    + rewrite startSession_unfold. capture.
    + now apply capture_stop.
  - rewrite step_unfold.
    destruct (onmessage_shape currentTime message w)
      as [-> | [[t ->] | [-> | (ctx & b & [-> | ->])]]].
    + apply capture_refl.
    + capture.
    + repeat split. eexists. split; [reflexivity | apply sent_stops].
    + capture.
    + repeat split. eexists. split; [cbn; rewrite <- app_assoc; reflexivity |].
      cbn. apply sent_stops.
  - rewrite step_unfold. capture.
  - rewrite step_unfold.
    apply capture_stop; now destruct (key_issue message).
  - rewrite step_unfold. now apply capture_stop.
  - rewrite step_unfold. now apply capture_stop.
  - assert (H : match lookup id (awaiting w) with
                | Some (AtSessionPromise _) =>
                    match answer with
                    | Resolves _ => True
                    | Rejects _ _ => beside_the_capture w (step (Settled id answer) w)
                    end
                | _ => beside_the_capture w (step (Settled id answer) w)
                end).
    { settled_cases id answer w; try exact I; try capture;
        try apply capture_refl. }
    destruct answer; [exact H |].
    now destruct (lookup id (awaiting w)) as [[] |].
  - rewrite step_unfold. capture.
Qed.

Lemma waiting_for_tick (p q : nat) (b : string * string) (w : World) :
  waiting_for p (with_thens (thens w ++ [(q, b)]) w)
  = waiting_for p w ++ (if Nat.eqb q p then [b] else []).
Proof.
  unfold waiting_for. cbn [thens with_thens].
  rewrite filter_app, map_app. cbn [filter]. unfold waiting_on at 2.
  cbn [fst]. now destruct (Nat.eqb q p).
Qed.

Lemma sent_to_callbacks (session q : nat)
    (callbacks : list (nat * (string * string))) :
  sent_to session
    (map (fun t => SendRealtimeInput q (fst (snd t)) (snd (snd t)))
         callbacks)
  = if Nat.eqb q session then map snd callbacks else [].
Proof.
  unfold sent_to.
  induction callbacks as [| [k [d m]] l IH]; cbn.
  - now destruct (Nat.eqb q session).
  - rewrite IH. now destruct (Nat.eqb q session).
Qed.

Lemma filter_waiting_twice (p q : nat) (l : list (nat * (string * string))) :
  filter (waiting_on p) (filter (fun t => negb (waiting_on q t)) l)
  = if Nat.eqb q p then [] else filter (waiting_on p) l.
Proof.
  induction l as [| t l IH].
  - cbn. now destruct (Nat.eqb q p).
  - cbn [filter].
    destruct (waiting_on q t) eqn:Eq; cbn [negb filter]; rewrite IH.
    + destruct (Nat.eqb q p) eqn:Eqp; [reflexivity |].
      assert (H : waiting_on p t = false).
      { unfold waiting_on in *. apply Nat.eqb_eq in Eq. now rewrite Eq. }
      now rewrite H.
    + destruct (waiting_on p t) eqn:Ep, (Nat.eqb q p) eqn:Eqp;
        try reflexivity.
      exfalso. unfold waiting_on in *.
      apply Nat.eqb_eq in Ep, Eqp. subst.
      rewrite Nat.eqb_refl in Eq. discriminate.
Qed.

Lemma sent_to_one (p q : nat) (data mimeType : string) :
  sent_to p [SendRealtimeInput q data mimeType]
  = if Nat.eqb q p then [(data, mimeType)] else [].
Proof. cbn. now destruct (Nat.eqb q p). Qed.

Lemma ticks_one (p q : nat) (inputData : list Q) :
  ticks p [AudioProcess q inputData]
  = if Nat.eqb q p then [blob_of inputData] else [].
Proof. cbn. now destruct (Nat.eqb q p). Qed.

(** One step, as far as the blobs of one session promise are concerned. *)
Lemma step_capture (ev : Event) (w : World) (p : nat) :
  (In p (fulfilled w) -> waiting_for p w = []) ->
  (~ In p (fulfilled w) -> sent_to p (calls w) = []) ->
  sent_to p (calls (step ev w)) ++ waiting_for p (step ev w)
  = (sent_to p (calls w) ++ waiting_for p w) ++ ticks p [ev]
  /\ (In p (fulfilled (step ev w)) -> waiting_for p (step ev w) = [])
  /\ (~ In p (fulfilled (step ev w)) -> sent_to p (calls (step ev w)) = []).
Proof.
  intros Hdone Hnot.
  assert (Hquiet : beside_the_capture w (step ev w) ->
            ticks p [ev] = [] ->
            sent_to p (calls (step ev w)) ++ waiting_for p (step ev w)
            = (sent_to p (calls w) ++ waiting_for p w) ++ ticks p [ev]
            /\ (In p (fulfilled (step ev w)) ->
                waiting_for p (step ev w) = [])
            /\ (~ In p (fulfilled (step ev w)) ->
                sent_to p (calls (step ev w)) = [])).
  { intros (Ht & Hf & added & Hc & Hs) Hticks.
    unfold waiting_for in *. rewrite Ht, Hf, Hc, Hticks, sent_to_app.
    rewrite (sent_to_nothing_sent p added Hs), !app_nil_r.
    repeat split; assumption. }
  pose proof (step_beside_the_capture ev w) as Hb.
  destruct ev as [| currentTime message | source | message | |
                  q inputData | | id answer | q];
    try (apply Hquiet; [exact Hb | reflexivity]).
  - (* a capture tick *)
    clear Hb Hquiet. rewrite step_unfold, onaudioprocess_unfold.
    cbn [snd]. rewrite (ticks_one p q inputData).
    destruct (existsb (Nat.eqb q) (fulfilled w)) eqn:Ef.
    + unfold waiting_for. fields. fold (waiting_for p w).
      rewrite sent_to_app, sent_to_one. fold (blob_of inputData).
      destruct (Nat.eqb q p) eqn:Eqp.
      * apply Nat.eqb_eq in Eqp. subst q.
        assert (Hin : In p (fulfilled w)).
        { apply existsb_exists in Ef as (x & Hx & Hxp).
          apply Nat.eqb_eq in Hxp. now subst x. }
        rewrite (Hdone Hin), !app_nil_r.
        split; [reflexivity |]. split; [reflexivity |].
        intros Hn. contradiction.
      * rewrite !app_nil_r.
        split; [reflexivity |]. split; [exact Hdone | exact Hnot].
    + rewrite !waiting_for_tick. fields. fold (blob_of inputData).
      destruct (Nat.eqb q p) eqn:Eqp.
      * apply Nat.eqb_eq in Eqp. subst q.
        assert (Hq : ~ In p (fulfilled w)).
        { intros Hin.
          assert (existsb (Nat.eqb p) (fulfilled w) = true)
            by (apply existsb_exists; exists p; split;
                [exact Hin | apply Nat.eqb_refl]).
          congruence. }
        split; [now rewrite app_assoc |].
        split; [intros Hin; contradiction | exact Hnot].
      * rewrite !app_nil_r.
        split; [reflexivity |]. split; [exact Hdone | exact Hnot].
  - (* an answer *)
    destruct answer as [value | name message];
      [| apply Hquiet; [exact Hb | reflexivity]].
    destruct (lookup id (awaiting w)) as [at_ |] eqn:Hat;
      [| apply Hquiet; [exact Hb | reflexivity]].
    destruct at_ as [| | | | | | q];
      try (apply Hquiet; [exact Hb | reflexivity]).
    clear Hb Hquiet. rewrite settled_unfold, Hat. cbv zeta.
    rewrite fulfil_unfold. cbn [snd ticks flat_map].
    unfold waiting_for. fields.
    rewrite sent_to_app, sent_to_callbacks, !filter_waiting_twice,
      !app_nil_r.
    fold (waiting_for p w).
    destruct (Nat.eqb q p) eqn:Eqp.
    + apply Nat.eqb_eq in Eqp. subst q. cbn [map].
      fold (waiting_for p w). rewrite app_nil_r.
      split; [reflexivity |]. split; [reflexivity |].
      intros Hn. exfalso. apply Hn.
      apply in_or_app. right. now left.
    + rewrite app_nil_r. fold (waiting_for p w).
      assert (Hiff : In p (fulfilled w ++ [q]) <-> In p (fulfilled w)).
      { split; [| intros H; apply in_or_app; now left].
        intros H. apply in_app_or in H as [H | [H | []]]; [exact H |].
        subst q. now rewrite Nat.eqb_refl in Eqp. }
      split; [reflexivity |]. split.
      * intros H. now apply Hdone, Hiff.
      * intros H. apply Hnot. intros Hin. now apply H, Hiff.
Qed.

Lemma ticks_app (p : nat) (evs evs' : list Event) :
  ticks p (evs ++ evs') = ticks p evs ++ ticks p evs'.
Proof. apply flat_map_app. Qed.

Lemma run_app (evs evs' : list Event) (w : World) :
  run (evs ++ evs') w = run evs' (run evs w).
Proof. apply fold_left_app. Qed.

Lemma mounted_unfold (env : Browser) :
  mounted env
  = if aistudio env
    then with_awaiting [(0%nat, AtCheckKey)] (with_nextCall 1 (initial env))
    else initial env.
Proof. unfold mounted, checkKey. cbn. now destruct (aistudio env). Qed.

(** X8.  The microphone chunks reach the service one blob per capture
    tick, in tick order, each the base64 of the tick's converted samples
    under the MIME type [audio/pcm;rate=16000], and each once.  For every
    session promise: the blobs sent to its session, followed by the blobs
    that still wait for it, are the blobs of the capture ticks that close
    over it, in tick order; nothing waits once the promise is fulfilled
    (what waited was sent then, in order), and nothing is sent to a session
    whose promise is not fulfilled. *)
Theorem capture_ticks_are_forwarded_in_order :
  forall (env : Browser) (evs : list Event) (sessionPromise : nat),
    sent_to sessionPromise (calls (run evs (mounted env)))
    ++ waiting_for sessionPromise (run evs (mounted env))
    = ticks sessionPromise evs
    /\ (In sessionPromise (fulfilled (run evs (mounted env))) ->
        waiting_for sessionPromise (run evs (mounted env)) = [])
    /\ (~ In sessionPromise (fulfilled (run evs (mounted env))) ->
        sent_to sessionPromise (calls (run evs (mounted env))) = []).
Proof.
  intros env evs p.
  induction evs as [| ev evs IH] using rev_ind.
  - rewrite mounted_unfold.
    destruct (aistudio env); cbn; repeat split; intros [].
  - destruct IH as (Hsum & Hdone & Hnot).
    rewrite run_app. cbn [run fold_left].
    destruct (step_capture ev (run evs (mounted env)) p Hdone Hnot)
      as (Hsum' & Hdone' & Hnot').
    split; [| split; assumption].
    now rewrite Hsum', Hsum, ticks_app.
Qed.


(** ** The live set *)

Lemma set_add_nodup (x : nat) (s : list nat) :
  NoDup s -> NoDup (set_add x s).
Proof.
  intros H. unfold set_add. destruct (existsb (Nat.eqb x) s) eqn:E;
    [exact H |].
  apply NoDup_app; [exact H | repeat constructor; intros [] | ].
  intros y Hy [<- | []].
  assert (existsb (Nat.eqb x) s = true);
    [apply existsb_exists; exists x; split; [exact Hy | apply Nat.eqb_refl]
    | congruence].
Qed.

Lemma set_add_members (x : nat) (s : list nat) :
  incl (set_add x s) (s ++ [x]).
Proof.
  unfold set_add. destruct (existsb _ s); [apply incl_appl |];
    apply incl_refl.
Qed.

Lemma set_delete_nodup (x : nat) (s : list nat) :
  NoDup s -> NoDup (set_delete x s).
Proof. apply NoDup_filter. Qed.

Lemma set_delete_incl (x : nat) (s : list nat) : incl (set_delete x s) s.
Proof. apply incl_filter. Qed.

Lemma LiveSet_extend (w w' : World) (added : list Call) :
  LiveSet w -> calls w' = calls w ++ added -> (fresh w <= fresh w')%nat ->
  started_sources added = [] -> incl (stopped added) (sourcesRef w) ->
  incl (sourcesRef w') (sourcesRef w) -> NoDup (sourcesRef w') ->
  LiveSet w'.
Proof.
  intros [Hn Hs Hp Hk] Hc Hf Ha Hst Hi Hd. constructor.
  - exact Hd.
  - rewrite Hc, started_sources_app, Ha, app_nil_r.
    eapply incl_tran; eassumption.
  - rewrite Hc, stopped_app, started_sources_app, Ha, app_nil_r.
    apply incl_app; [exact Hp |].
    eapply incl_tran; [exact Hst | exact Hs].
  - rewrite Hc, started_sources_app, Ha, app_nil_r.
    eapply Forall_impl; [| exact Hk]. cbn. intros. lia.
Qed.

Lemma LiveSet_fields (w v : World) :
  sourcesRef v = sourcesRef w -> calls v = calls w -> fresh v = fresh w ->
  LiveSet w -> LiveSet v.
Proof.
  intros Hs Hc Hf [Hn Hst Hp Hk].
  constructor; rewrite ?Hs, ?Hc, ?Hf; assumption.
Qed.

Lemma start_calls_start_nothing (added : list Call) :
  forallb start_call added = true ->
  started_sources added = [] /\ stopped added = []
  /\ forall ctx, existsb (is_close_of ctx) added = false.
Proof.
  induction added as [| c l IH]; intros H; [repeat split |].
  cbn [forallb] in H. apply andb_prop in H as [Hc Hl].
  destruct (IH Hl) as (Hs & Hp & Hx).
  destruct c; try discriminate Hc; cbn; repeat split; auto.
Qed.

(** A step beside the scheduler keeps the live set as it is. *)
Lemma LiveSet_beside (w w' : World) :
  beside_the_scheduler w w' -> LiveSet w -> LiveSet w'.
Proof.
  intros (Hs & _ & Hf & added & Hc & Ha) H.
  destruct (start_calls_start_nothing added Ha) as (Hst & Hp & _).
  apply (LiveSet_extend w _ added H Hc Hf Hst).
  - rewrite Hp. intros x [].
  - rewrite Hs. apply incl_refl.
  - rewrite Hs. apply H.
Qed.

Lemma LiveSet_stop (w : World) : LiveSet w -> LiveSet (snd (stopSession w)).
Proof.
  intros H. rewrite stopSession_spec. cbn [snd].
  destruct (stop_calls_shape w) as (_ & Hs & Hp & _).
  apply (LiveSet_extend w _ (stop_calls w) H);
    [reflexivity | apply Nat.le_refl | exact Hs | | | ].
  - rewrite Hp. apply incl_refl.
  - intros x [].
  - constructor.
Qed.

Lemma LiveSet_flushed (w : World) : LiveSet w -> LiveSet (flushed w).
Proof.
  intros H.
  apply (LiveSet_extend w _ (map StopSource (sourcesRef w)) H);
    [reflexivity | apply Nat.le_refl | apply started_sources_stops | | | ].
  - rewrite stopped_stops. apply incl_refl.
  - intros x [].
  - constructor.
Qed.

Lemma LiveSet_scheduled (currentTime : Q) (ctx : nat) (b : AudioBuffer)
    (w : World) :
  LiveSet w -> LiveSet (scheduled currentTime ctx b w).
Proof.
  intros [Hn Hs Hp Hk]. constructor; cbn.
  - now apply set_add_nodup.
  - rewrite started_sources_app. cbn.
    eapply incl_tran; [apply set_add_members |].
    apply incl_app; [now apply incl_appl | apply incl_appr, incl_refl].
  - rewrite stopped_app, started_sources_app. cbn. rewrite app_nil_r.
    now apply incl_appl.
  - rewrite started_sources_app. cbn. apply Forall_app. split.
    + eapply Forall_impl; [| exact Hk]. cbn. intros. lia.
    + repeat constructor.
Qed.

Lemma step_LiveSet (ev : Event) (w : World) :
  LiveSet w -> LiveSet (step ev w).
Proof.
  intros H. rewrite step_unfold.
  destruct ev as [| currentTime message | source | message | |
                  sessionPromise inputData | | id answer | sessionPromise].
  - destruct (rendered_control w) as [| [|] |].
    + exact (LiveSet_beside _ _ (handleOpenKeyDialog_beside w) H).
    + exact H.
    + exact (LiveSet_beside _ _ (startSession_beside w) H).
    + now apply LiveSet_stop.
  - destruct (onmessage_shape currentTime message w)
      as [-> | [[t ->] | [-> | (ctx & b & [-> | ->])]]].
    + exact H.
    + now apply (LiveSet_fields w).
    + now apply LiveSet_flushed.
    + now apply LiveSet_scheduled.
    + now apply LiveSet_flushed, LiveSet_scheduled.
  - apply (LiveSet_extend w _ [] H);
      [cbn; now rewrite app_nil_r | apply Nat.le_refl | reflexivity | | | ].
    + intros x [].
    + apply set_delete_incl.
    + apply set_delete_nodup, H.
  - apply LiveSet_stop.
    destruct (key_issue message); now apply (LiveSet_fields w).
  - now apply LiveSet_stop.
  - exact (LiveSet_beside _ _ (onaudioprocess_beside _ _ w) H).
  - now apply LiveSet_stop.
  - exact (LiveSet_beside _ _ (settled_beside id answer w) H).
  - now apply (LiveSet_fields w).
Qed.

Lemma mounted_LiveSet (env : Browser) : LiveSet (mounted env).
Proof.
  rewrite mounted_unfold.
  destruct (aistudio env);
    (constructor; cbn; [constructor | intros x [] | intros x [] | constructor]).
Qed.

Lemma run_LiveSet (evs : list Event) : forall w : World,
  LiveSet w -> LiveSet (run evs w).
Proof.
  induction evs as [| ev evs IH]; intros w H; [exact H |].
  rewrite run_cons. apply IH. now apply step_LiveSet.
Qed.

Lemma started_source_was_started (source : nat) (cs : list Call) :
  In source (started_sources cs) -> existsb (is_start_of source) cs = true.
Proof.
  intros H. apply in_flat_map in H as (c & Hc & Hin).
  apply existsb_exists. exists c. split; [exact Hc |].
  destruct c; try (now destruct Hin).
  destruct Hin as [<- | []]. apply Nat.eqb_refl.
Qed.

(** X9.  Whatever happens to the mounted component, the live set holds
    each queued source once, every [stop()] the component has called was
    on a source it had started, and [stop()] on any source of the live set
    completes without the [InvalidStateError] of a source never started:
    the [try] around it in the flush is never needed for that. *)
Theorem live_sources_can_be_stopped :
  forall (env : Browser) (evs : list Event),
    NoDup (sourcesRef (run evs (mounted env)))
    /\ incl (stopped (calls (run evs (mounted env))))
            (started_sources (calls (run evs (mounted env))))
    /\ forall source,
         In source (sourcesRef (run evs (mounted env))) ->
         source_stop source (run evs (mounted env))
         = (Normal tt,
            with_calls (calls (run evs (mounted env)) ++ [StopSource source])
              (run evs (mounted env))).
Proof.
  intros env evs.
  pose proof (run_LiveSet evs _ (mounted_LiveSet env)) as [Hn Hs Hp Hk].
  repeat split; [exact Hn | exact Hp |].
  intros source Hin. unfold source_stop.
  rewrite bind_read.
  rewrite (started_source_was_started _ _ (Hs source Hin)).
  reflexivity.
Qed.

Lemma live_sources_can_be_stopped_witness :
  In 3%nat
     (sourcesRef
        (run (Click :: start_goes_through 0 2
              ++ [ServerMessage 0 (frame_message [1; 2])])
             (mounted willing)))
  /\ source_stop 3
       (run (Click :: start_goes_through 0 2
             ++ [ServerMessage 0 (frame_message [1; 2])])
            (mounted willing))
     = (Normal tt,
        with_calls
          (calls (run (Click :: start_goes_through 0 2
                       ++ [ServerMessage 0 (frame_message [1; 2])])
                      (mounted willing))
           ++ [StopSource 3])
          (run (Click :: start_goes_through 0 2
                ++ [ServerMessage 0 (frame_message [1; 2])])
               (mounted willing))).
Proof.
  assert (H : In 3%nat
                (sourcesRef
                   (run (Click :: start_goes_through 0 2
                         ++ [ServerMessage 0 (frame_message [1; 2])])
                        (mounted willing))))
    by (vm_compute; left; reflexivity).
  split; [exact H |].
  exact (proj2 (proj2 (live_sources_can_be_stopped willing
                         (Click :: start_goes_through 0 2
                          ++ [ServerMessage 0 (frame_message [1; 2])])))
               3%nat H).
Defined.


(** ** The audio contexts *)

Lemma closes_app (ctx : nat) (w : World) (added : list Call) (w' : World) :
  calls w' = calls w ++ added ->
  was_closed ctx w' = was_closed ctx w || existsb (is_close_of ctx) added.
Proof. intros H. unfold was_closed. now rewrite H, existsb_app. Qed.

Lemma lookup_In (id : nat) (l : list (nat * Await)) (at_ : Await) :
  lookup id l = Some at_ -> In (id, at_) l.
Proof.
  induction l as [| [k a] l IH]; [discriminate |].
  cbn [lookup]. destruct (Nat.eqb k id) eqn:E.
  - intros H. inversion H. subst. apply Nat.eqb_eq in E. subst. now left.
  - intros H. right. now apply IH.
Qed.

Lemma without_In (id : nat) (l : list (nat * Await)) (e : nat * Await) :
  In e (without id l) -> In e l.
Proof. unfold without. intros H. now apply filter_In in H. Qed.

(** The contexts in hand after a step that leaves the refs alone and
    changes the suspended calls. *)
Lemma in_hand_kept (w w' : World) (P : nat -> Prop) :
  audioContextRef w' = audioContextRef w ->
  outputAudioContextRef w' = outputAudioContextRef w ->
  (forall id at_ ctx, In (id, at_) (awaiting w') -> keeps at_ ctx ->
     in_hand w ctx \/ P ctx) ->
  forall ctx, in_hand w' ctx -> in_hand w ctx \/ P ctx.
Proof.
  intros Ha Ho Hk ctx [Hr | (id & at_ & Hin & Hkeep)].
  - left. left. unfold refers_to in *. now rewrite <- Ha, <- Ho.
  - exact (Hk id at_ ctx Hin Hkeep).
Qed.

Lemma in_hand_same (w w' : World) :
  audioContextRef w' = audioContextRef w ->
  outputAudioContextRef w' = outputAudioContextRef w ->
  awaiting w' = awaiting w ->
  forall ctx, in_hand w' ctx -> in_hand w ctx \/ False.
Proof.
  intros Ha Ho Hw. apply in_hand_kept; [exact Ha | exact Ho |].
  intros id at_ ctx Hin Hkeep. left. right. exists id, at_.
  split; [now rewrite <- Hw | exact Hkeep].
Qed.

Lemma context_step_intro (w w' : World) (added : list Call) :
  calls w' = calls w ++ added -> (fresh w <= fresh w')%nat ->
  (forall ctx, In ctx (created_contexts added) ->
     (fresh w <= ctx < fresh w')%nat) ->
  (forall ctx, existsb (is_close_of ctx) added = false) ->
  (forall ctx, in_hand w' ctx ->
     in_hand w ctx \/ In ctx (created_contexts added)) ->
  context_step w w'.
Proof.
  intros Hc Hf Hnew Hn Hh. split; [exact Hf |].
  exists added. repeat split; try assumption.
  - now apply Hnew.
  - now apply Hnew.
  - intros ctx H. rewrite Hn in H. discriminate.
Qed.

(** A step that leaves the refs and the suspended calls alone and closes
    nothing. *)
Lemma context_step_refs (w w' : World) (added : list Call) :
  calls w' = calls w ++ added -> (fresh w <= fresh w')%nat ->
  audioContextRef w' = audioContextRef w ->
  outputAudioContextRef w' = outputAudioContextRef w ->
  awaiting w' = awaiting w ->
  created_contexts added = [] ->
  (forall ctx, existsb (is_close_of ctx) added = false) ->
  context_step w w'.
Proof.
  intros Hc Hf Ha Ho Hw Hcr Hn.
  apply (context_step_intro w w' added); try assumption.
  - rewrite Hcr. intros ctx [].
  - intros ctx H. destruct (in_hand_same w w' Ha Ho Hw ctx H) as [H' | []].
    now left.
Qed.

Lemma context_step_stop (v w : World) :
  calls v = calls w -> fresh v = fresh w ->
  audioContextRef v = audioContextRef w ->
  outputAudioContextRef v = outputAudioContextRef w ->
  awaiting v = awaiting w ->
  context_step w (snd (stopSession v)).
Proof.
  intros Hc Hf Ha Ho Hw. rewrite stopSession_spec. cbn [snd].
  split; [cbn; lia |].
  exists (stop_calls v). split; [cbn; now rewrite Hc |].
  assert (Hcr : created_contexts (stop_calls v) = []).
  { unfold stop_calls. rewrite !created_contexts_app.
    assert (Hs : created_contexts (map StopSource (sourcesRef v)) = [])
      by (induction (sourcesRef v); [reflexivity | assumption]).
    rewrite Hs.
    destruct (sessionRef v), (audioContextRef v), (outputAudioContextRef v);
      reflexivity. }
  split; [rewrite Hcr; intros ctx [] |]. split.
  - intros ctx H.
    assert (H' : in_hand w ctx \/ False).
    { revert ctx H. apply in_hand_same; cbn; assumption. }
    destruct H' as [H' | []]. now left.
  - intros ctx H. apply (proj2 (proj2 (proj2 (stop_calls_shape v)))) in H.
    unfold refers_to in *. now rewrite <- Ha, <- Ho.
Qed.

(** A suspended call is taken from the list and put back at another
    [await] where it keeps the contexts it kept, or none. *)
Lemma in_hand_resuspended (w w' : World) (id : nat) (at_ next : Await) :
  audioContextRef w' = audioContextRef w ->
  outputAudioContextRef w' = outputAudioContextRef w ->
  lookup id (awaiting w) = Some at_ ->
  awaiting w' = without id (awaiting w) ++ [(id, next)] ->
  (forall ctx, keeps next ctx -> keeps at_ ctx) ->
  forall ctx, in_hand w' ctx -> in_hand w ctx \/ False.
Proof.
  intros Ha Ho Hat Hw Hk. apply in_hand_kept; [exact Ha | exact Ho |].
  intros k a ctx Hin Hkeep. left. right.
  rewrite Hw in Hin. apply in_app_or in Hin as [Hin | [Hin | []]].
  - exists k, a. split; [now apply without_In in Hin | exact Hkeep].
  - inversion Hin. subst k a. exists id, at_.
    split; [now apply lookup_In | now apply Hk].
Qed.

Lemma in_hand_dropped (w w' : World) (id : nat) :
  audioContextRef w' = audioContextRef w ->
  outputAudioContextRef w' = outputAudioContextRef w ->
  awaiting w' = without id (awaiting w) ->
  forall ctx, in_hand w' ctx -> in_hand w ctx \/ False.
Proof.
  intros Ha Ho Hw. apply in_hand_kept; [exact Ha | exact Ho |].
  intros k a ctx Hin Hkeep. left. right. exists k, a.
  rewrite Hw in Hin. split; [now apply without_In in Hin | exact Hkeep].
Qed.

Lemma in_hand_suspended (w w' : World) (next : Await) :
  audioContextRef w' = audioContextRef w ->
  outputAudioContextRef w' = outputAudioContextRef w ->
  (exists l id, awaiting w' = l ++ [(id, next)] /\ incl l (awaiting w)) ->
  (forall ctx, ~ keeps next ctx) ->
  forall ctx, in_hand w' ctx -> in_hand w ctx \/ False.
Proof.
  intros Ha Ho (l & id & Hw & Hl) Hk.
  apply in_hand_kept; [exact Ha | exact Ho |].
  intros k a ctx Hin Hkeep. left. right.
  rewrite Hw in Hin. apply in_app_or in Hin as [Hin | [Hin | []]].
  - exists k, a. split; [now apply Hl | exact Hkeep].
  - inversion Hin. subst k a. now apply Hk in Hkeep.
Qed.

Lemma without_subset (id : nat) (l : list (nat * Await)) :
  incl (without id l) l.
Proof. intros e. apply without_In. Qed.

Ltac quiet_context_step w added :=
  apply (context_step_intro w _ added);
  [ fields; rewrite ?app_nil_r; reflexivity
  | fields; lia
  | cbn; intros ctx []
  | reflexivity
  | intros ctx H;
    match goal with
    | |- in_hand w ctx \/ _ =>
        assert (H' : in_hand w ctx \/ False); [| destruct H' as [H' | []]; now left]
    end ].

Lemma startSession_context_step (v w : World) (pre : list Call) :
  calls v = calls w ++ pre -> fresh v = fresh w ->
  audioContextRef v = audioContextRef w ->
  outputAudioContextRef v = outputAudioContextRef w ->
  incl (awaiting v) (awaiting w) ->
  created_contexts pre = [] ->
  (forall ctx, existsb (is_close_of ctx) pre = false) ->
  context_step w
    (with_awaiting
       (awaiting v
        ++ [(nextCall v,
             if aistudio (browser v)
             then AtHasSelectedApiKey else AtGetUserMedia)])
       (with_isConnecting true
          (with_errorMsg None (with_nextCall (S (nextCall v)) v)))).
Proof.
  intros Hc Hf Ha Ho Hw Hcr Hn.
  apply (context_step_intro w _ pre).
  - fields. exact Hc.
  - fields. lia.
  - rewrite Hcr. intros ctx [].
  - exact Hn.
  - intros ctx H.
    assert (H' : in_hand w ctx \/ False).
    { revert ctx H. eapply in_hand_suspended.
      - fields. exact Ha.
      - fields. exact Ho.
      - fields. eexists. eexists. split; [reflexivity | exact Hw].
      - intros ctx. now destruct (aistudio (browser v)). }
    destruct H' as [H' | []]. now left.
Qed.

Lemma step_context_step (ev : Event) (w : World) :
  context_step w (step ev w).
Proof.
  assert (Hsame : context_step w w).
  { apply (context_step_refs w w []); auto. now rewrite app_nil_r. }
  destruct ev as [| currentTime message | source | message | |
                  sessionPromise inputData | | id answer | sessionPromise].
  - rewrite step_unfold. destruct (rendered_control w) as [| [|] |].
    + rewrite handleOpenKeyDialog_unfold.
      destruct (aistudio (browser w)); [| exact Hsame].
      cbn [snd]. apply (context_step_intro w _ [OpenSelectKey]);
        [reflexivity | fields; lia | intros ctx [] | reflexivity |].
      intros ctx H.
      assert (H' : in_hand w ctx \/ False).
      { revert ctx H. eapply in_hand_suspended; try reflexivity.
        - fields. eexists. eexists. split; [reflexivity | apply incl_refl].
        - intros ctx H. exact H. }
      destruct H' as [H' | []]. now left.
    + exact Hsame.
    + rewrite startSession_unfold. cbn [snd].
      apply (startSession_context_step w w []); auto.
      * now rewrite app_nil_r.
      * apply incl_refl.
    + now apply context_step_stop.
  - rewrite step_unfold.
    destruct (onmessage_shape currentTime message w)
      as [-> | [[t ->] | [-> | (ctx & b & [-> | ->])]]].
    + exact Hsame.
    + apply (context_step_refs w _ []); auto. cbn. now rewrite app_nil_r.
    + apply (context_step_refs w _ (map StopSource (sourcesRef w)));
        auto using closes_stops.
      induction (sourcesRef w); [reflexivity | assumption].
    + apply (context_step_refs w _ [StartSource (fresh w) ctx
               (Math_max (nextStartTimeRef w) currentTime) b]);
        cbn; auto.
    + apply (context_step_refs w _
               ([StartSource (fresh w) ctx
                   (Math_max (nextStartTimeRef w) currentTime) b]
                ++ map StopSource
                     (set_add (fresh w) (sourcesRef w))));
        cbn; auto using closes_stops.
      * now rewrite <- app_assoc.
      * induction (set_add (fresh w) (sourcesRef w));
          [reflexivity | assumption].
  - rewrite step_unfold.
    apply (context_step_refs w _ []); auto. cbn. now rewrite app_nil_r.
  - rewrite step_unfold.
    apply context_step_stop; now destruct (key_issue message).
  - rewrite step_unfold. now apply context_step_stop.
  - rewrite step_unfold, onaudioprocess_unfold. cbn [snd].
    destruct (existsb _ _).
    + apply (context_step_refs w _ [SendRealtimeInput sessionPromise
               (encode (Uint8Array_of_Int16Array (capture_int16 inputData)))
               "audio/pcm;rate=16000"]); auto.
    + apply (context_step_refs w _ []); auto. cbn. now rewrite app_nil_r.
  - rewrite step_unfold. now apply context_step_stop.
  - settled_cases id answer w; try exact Hsame.
    (* checkKey *)
    + quiet_context_step w (@nil Call).
      revert ctx H. now apply (in_hand_dropped w _ id).
    + quiet_context_step w (@nil Call).
      revert ctx H. now apply (in_hand_dropped w _ id).
    + quiet_context_step w (@nil Call).
      revert ctx H. now apply (in_hand_dropped w _ id).
    (* handleOpenKeyDialog *)
    + apply (startSession_context_step _ w []); fields; auto.
      * now rewrite app_nil_r.
      * apply without_subset.
    + quiet_context_step w (@nil Call).
      revert ctx H. now apply (in_hand_dropped w _ id).
    (* hasSelectedApiKey *)
    + quiet_context_step w (@nil Call).
      revert ctx H. now apply (in_hand_dropped w _ id).
    + quiet_context_step w (@nil Call).
      revert ctx H.
      apply (in_hand_resuspended w _ id AtHasSelectedApiKey AtGetUserMedia);
        auto.
    + quiet_context_step w (@nil Call).
      revert ctx H. now apply (in_hand_dropped w _ id).
    (* getUserMedia *)
    + apply (context_step_intro w _ [NewAudioContext (fresh w) 16000;
                                     NewAudioContext (S (fresh w)) 24000]);
        [reflexivity | fields; lia | | reflexivity |].
      * fields. intros ctx [<- | [<- | []]]; lia.
      * apply in_hand_kept; [reflexivity | reflexivity |].
        fields. intros k a ctx Hin Hkeep.
        apply in_app_or in Hin as [Hin | [Hin | []]].
        -- left. right. exists k, a.
           split; [now apply without_In in Hin | exact Hkeep].
        -- inversion Hin. subst k a. right.
           destruct Hkeep as [-> | ->]; cbn; auto.
    + quiet_context_step w (@nil Call).
      revert ctx H. now apply (in_hand_dropped w _ id).
    (* resume *)
    + quiet_context_step w (@nil Call).
      revert ctx H.
      apply (in_hand_resuspended w _ id (AtResumeInput inputCtx outputCtx)
               (AtResumeOutput inputCtx outputCtx)); auto.
    + quiet_context_step w (@nil Call).
      revert ctx H. now apply (in_hand_dropped w _ id).
    + apply (context_step_intro w _ [Connect (fresh w)]);
        [reflexivity | fields; lia | intros ctx [] | reflexivity |].
      intros ctx [Hr | (k & a & Hin & Hkeep)].
      * left. right. exists id, (AtResumeOutput inputCtx outputCtx).
        split; [now apply lookup_In |].
        unfold refers_to in Hr. fields. cbn [keeps].
        destruct Hr as [Hr | Hr]; inversion Hr; auto.
      * left. right. revert Hin. fields. intros Hin.
        apply in_app_or in Hin as [Hin | [Hin | []]].
        -- exists k, a. split; [now apply without_In in Hin | exact Hkeep].
        -- inversion Hin. subst k a. destruct Hkeep.
    + quiet_context_step w (@nil Call).
      revert ctx H. now apply (in_hand_dropped w _ id).
    (* the session promise *)
    + apply (context_step_intro w _
               (map (fun t => SendRealtimeInput sessionPromise
                                (fst (snd t)) (snd (snd t)))
                    (filter (waiting_on sessionPromise) (thens w))));
        [reflexivity | fields; lia | | |].
      * intros ctx H. exfalso. revert H.
        induction (filter (waiting_on sessionPromise) (thens w));
          [intros [] | assumption].
      * intros ctx.
        induction (filter (waiting_on sessionPromise) (thens w));
          [reflexivity | assumption].
      * intros ctx H.
        assert (H' : in_hand w ctx \/ False);
          [| destruct H' as [H' | []]; now left].
        revert ctx H. now apply (in_hand_dropped w _ id).
    + quiet_context_step w (@nil Call).
      revert ctx H. now apply (in_hand_dropped w _ id).
  - rewrite step_unfold.
    apply (context_step_refs w _ []); auto. cbn. now rewrite app_nil_r.
Qed.

Lemma step_Contexts (ev : Event) (w : World) :
  Contexts w -> Contexts (step ev w).
Proof.
  intros [Hk Hc].
  destruct (step_context_step ev w) as (Hf & added & Hcs & Hnew & Hh & _).
  constructor; intros ctx H.
  - rewrite Hcs, created_contexts_app in H.
    apply in_app_or in H as [H | H].
    + specialize (Hk ctx H). lia.
    + specialize (Hnew ctx H). lia.
  - rewrite Hcs, created_contexts_app. apply in_or_app.
    destruct (Hh ctx H) as [H' | H']; [left | now right].
    now apply Hc.
Qed.

Lemma mounted_Contexts (env : Browser) : Contexts (mounted env).
Proof.
  rewrite mounted_unfold.
  destruct (aistudio env); constructor; cbn;
    first [ now intros ctx []
          | intros ctx [[H | H] | (id & at_ & Hin & Hkeep)];
            try discriminate H; try destruct Hin as [Hin | []];
            try (inversion Hin; subst; destruct Hkeep) ].
Qed.

Lemma run_Contexts (evs : list Event) : forall w : World,
  Contexts w -> Contexts (run evs w).
Proof.
  induction evs as [| ev evs IH]; intros w H; [exact H |].
  rewrite run_cons. apply IH. now apply step_Contexts.
Qed.

(** A context that is out of hand stays out of hand and as it is. *)
Lemma out_of_hand_stays (ctx : nat) (evs : list Event) : forall w : World,
  (ctx < fresh w)%nat -> ~ in_hand w ctx -> was_closed ctx w = false ->
  was_closed ctx (run evs w) = false.
Proof.
  induction evs as [| ev evs IH]; intros w Hlt Hout Hcl; [exact Hcl |].
  rewrite run_cons.
  destruct (step_context_step ev w)
    as (Hf & added & Hcs & Hnew & Hh & Hclose).
  apply IH; [lia | |].
  - intros H. destruct (Hh ctx H) as [H' | H']; [now apply Hout |].
    specialize (Hnew ctx H'). lia.
  - rewrite (closes_app ctx w added _ Hcs), Hcl. cbn.
    destruct (existsb (is_close_of ctx) added) eqn:E; [| reflexivity].
    exfalso. apply Hout. left. now apply Hclose.
Qed.

(** X10.  An audio context that is out of hand is never closed.  The
    component closes the contexts its two refs name and no other; a start
    overwrites the refs without closing what they named, and a start that
    fails after it has created its contexts drops them without closing
    them.  So, whatever the mounted component has been through, a context
    it has created that no ref names, that no suspended start keeps for
    the refs and that is not closed stays open whatever happens later: it
    is among the open contexts for the rest of the component's life. *)
Theorem contexts_out_of_hand_are_never_closed :
  forall (env : Browser) (evs0 : list Event) (ctx : nat)
         (evs : list Event),
    In ctx (created_contexts (calls (run evs0 (mounted env)))) ->
    ~ in_hand (run evs0 (mounted env)) ctx ->
    was_closed ctx (run evs0 (mounted env)) = false ->
    was_closed ctx (run evs (run evs0 (mounted env))) = false
    /\ In ctx (open_contexts (run evs (run evs0 (mounted env)))).
Proof.
  intros env evs0 ctx evs Hmade Hout Hopen.
  pose proof (run_Contexts evs0 _ (mounted_Contexts env)) as [Hk Hc].
  set (w := run evs0 (mounted env)) in *.
  assert (Hclosed : was_closed ctx (run evs w) = false)
    by (apply out_of_hand_stays; auto).
  split; [exact Hclosed |].
  unfold open_contexts, contexts_left_open. apply filter_In. split.
  - assert (Hgrow : forall l (v : World),
              In ctx (created_contexts (calls v)) ->
              In ctx (created_contexts (calls (run l v)))).
    { induction l as [| e l IH]; intros v Hv; [exact Hv |].
      rewrite run_cons. apply IH.
      destruct (step_context_step e v) as (_ & a & -> & _).
      rewrite created_contexts_app. apply in_or_app. now left. }
    now apply Hgrow.
  - unfold was_closed in Hclosed. now rewrite Hclosed.
Qed.

(** X10 after a refused connection: the second start has stored its
    contexts 3 and 4 in the refs, and context 0 of the first start, which
    the refs named until then, stays open through the unmount. *)
Lemma contexts_out_of_hand_are_never_closed_witness :
  In 0%nat
     (created_contexts
        (calls (run refused_then_started_again (mounted willing))))
  /\ ~ in_hand (run refused_then_started_again (mounted willing)) 0
  /\ was_closed 0
       (run [Unmount] (run refused_then_started_again (mounted willing)))
     = false
  /\ In 0%nat
       (open_contexts
          (run [Unmount]
               (run refused_then_started_again (mounted willing)))).
Proof.
  assert (Hmade : In 0%nat
            (created_contexts
               (calls (run refused_then_started_again (mounted willing)))))
    by (vm_compute; now left).
  assert (Hout : ~ in_hand
                     (run refused_then_started_again (mounted willing)) 0).
  { assert (Ha : audioContextRef
                    (run refused_then_started_again (mounted willing))
                  = Some 3%nat) by (vm_compute; reflexivity).
    assert (Ho : outputAudioContextRef
                    (run refused_then_started_again (mounted willing))
                  = Some 4%nat) by (vm_compute; reflexivity).
    assert (Hw : awaiting
                    (run refused_then_started_again (mounted willing))
                  = [(1%nat, AtSessionPromise 5)])
      by (vm_compute; reflexivity).
    unfold in_hand, refers_to. rewrite Ha, Ho, Hw.
    intros [[H | H] | (id & at_ & Hin & Hkeep)].
    - discriminate H.
    - discriminate H.
    - destruct Hin as [Hin | []].
      inversion Hin. subst at_. destruct Hkeep. }
  split; [exact Hmade |]. split; [exact Hout |].
  apply (contexts_out_of_hand_are_never_closed willing
           refused_then_started_again 0%nat [Unmount] Hmade Hout).
  vm_compute. reflexivity.
Defined.


(** ** The session promises *)

Lemma session_closes_app (s : nat) (cs cs' : list Call) :
  existsb (is_session_close_of s) (cs ++ cs')
  = existsb (is_session_close_of s) cs || existsb (is_session_close_of s) cs'.
Proof. apply existsb_app. Qed.

Lemma stop_calls_close (w : World) (s : nat) :
  existsb (is_session_close_of s) (stop_calls w) = true ->
  sessionRef w = Some s.
Proof.
  unfold stop_calls. rewrite !session_closes_app.
  assert (Hs : existsb (is_session_close_of s)
                 (map StopSource (sourcesRef w)) = false)
    by (induction (sourcesRef w); [reflexivity | assumption]).
  rewrite Hs.
  destruct (sessionRef w) as [r |], (audioContextRef w),
    (outputAudioContextRef w); cbn; rewrite ?orb_false_r;
    intros H; try discriminate H;
    apply Nat.eqb_eq in H; now subst.
Qed.

(** A step that fulfils no promise and suspends no start at its session
    promise. *)
Lemma Promises_step (w w' : World) (added : list Call) :
  Promises w ->
  calls w' = calls w ++ added -> (fresh w <= fresh w')%nat ->
  (forall s, existsb (is_session_close_of s) added = true ->
     sessionRef w = Some s) ->
  fulfilled w' = fulfilled w ->
  sessionRef w' = sessionRef w \/ sessionRef w' = None ->
  (forall id p, In (id, AtSessionPromise p) (awaiting w') ->
     In (id, AtSessionPromise p) (awaiting w)) ->
  Promises w'.
Proof.
  intros [Hh Hc Hk Hp Hu] Hcs Hf Hcl Hfu Hs Hw. constructor.
  - intros s H. rewrite Hfu. apply Hh.
    destruct Hs as [Hs | Hs]; rewrite Hs in H; [exact H | discriminate H].
  - intros s H. rewrite Hfu. rewrite Hcs, session_closes_app in H.
    apply orb_true_iff in H as [H | H]; [now apply Hc |].
    now apply Hh, Hcl.
  - intros s H. rewrite Hfu in H. specialize (Hk s H). lia.
  - intros id p H. rewrite Hfu. destruct (Hp id p (Hw id p H)). split;
      [lia | assumption].
  - intros id id' p H H'. exact (Hu id id' p (Hw id p H) (Hw id' p H')).
Qed.

Lemma Promises_stop (v w : World) :
  Promises w -> calls v = calls w -> fresh v = fresh w ->
  fulfilled v = fulfilled w -> sessionRef v = sessionRef w ->
  awaiting v = awaiting w ->
  Promises (snd (stopSession v)).
Proof.
  intros H Hc Hf Hfu Hs Hw. rewrite stopSession_spec. cbn [snd].
  apply (Promises_step w _ (stop_calls v) H).
  - cbn. now rewrite Hc.
  - cbn. lia.
  - intros s Hcl. rewrite <- Hs. now apply stop_calls_close.
  - exact Hfu.
  - now right.
  - cbn. now rewrite Hw.
Qed.

Ltac same_promises w added :=
  match goal with
  | H : Promises w |- _ =>
      apply (Promises_step w _ added H);
      [ fields; rewrite ?app_nil_r; reflexivity
      | fields; lia
      | intros s Hs; cbn in Hs; discriminate Hs
      | reflexivity
      | left; reflexivity
      | fields; intros k q Hin;
        repeat match goal with
               | Hi : In _ (_ ++ _) |- _ =>
                   apply in_app_or in Hi as [Hi | [Hi | []]]
               end;
        solve [ now apply without_In in Hin
              | discriminate Hin
              | exact Hin
              | inversion Hin ] ]
  end.

Lemma startSession_Promises (v w : World) (pre : list Call) :
  Promises w -> calls v = calls w ++ pre -> fresh v = fresh w ->
  (forall s, existsb (is_session_close_of s) pre = false) ->
  fulfilled v = fulfilled w -> sessionRef v = sessionRef w ->
  incl (awaiting v) (awaiting w) ->
  Promises
    (with_awaiting
       (awaiting v
        ++ [(nextCall v,
             if aistudio (browser v)
             then AtHasSelectedApiKey else AtGetUserMedia)])
       (with_isConnecting true
          (with_errorMsg None (with_nextCall (S (nextCall v)) v)))).
Proof.
  intros H Hc Hf Hn Hfu Hs Hw.
  apply (Promises_step w _ pre H); fields; auto.
  - lia.
  - intros s Hcl. rewrite Hn in Hcl. discriminate Hcl.
  - intros k q Hin. apply in_app_or in Hin as [Hin | [Hin | []]].
    + now apply Hw.
    + inversion Hin. now destruct (aistudio (browser v)).
Qed.

Lemma step_Promises (ev : Event) (w : World) :
  Promises w -> Promises (step ev w).
Proof.
  intros H.
  destruct ev as [| currentTime message | source | message | |
                  sessionPromise inputData | | id answer | sessionPromise].
  - rewrite step_unfold. destruct (rendered_control w) as [| [|] |].
    + rewrite handleOpenKeyDialog_unfold.
      destruct (aistudio (browser w)); [| exact H]. cbn [snd].
      same_promises w [OpenSelectKey].
    + exact H.
    + rewrite startSession_unfold. cbn [snd].
      apply (startSession_Promises w w []); auto.
      * now rewrite app_nil_r.
      * apply incl_refl.
    + now apply (Promises_stop w w).
  - rewrite step_unfold.
    destruct (onmessage_shape currentTime message w)
      as [-> | [[t ->] | [-> | (ctx & b & [-> | ->])]]].
    + exact H.
    + same_promises w (@nil Call).
    + apply (Promises_step w _ (map StopSource (sourcesRef w)) H); auto.
      intros s Hs. exfalso. revert Hs.
      induction (sourcesRef w); [discriminate | assumption].
    + apply (Promises_step w _ [StartSource (fresh w) ctx
               (Math_max (nextStartTimeRef w) currentTime) b] H);
        cbn; auto. discriminate.
    + apply (Promises_step w _
               ([StartSource (fresh w) ctx
                   (Math_max (nextStartTimeRef w) currentTime) b]
                ++ map StopSource (set_add (fresh w) (sourcesRef w))) H);
        cbn; auto.
      * now rewrite <- app_assoc.
      * intros s Hs. exfalso. revert Hs.
        induction (set_add (fresh w) (sourcesRef w));
          [discriminate | assumption].
  - rewrite step_unfold. same_promises w (@nil Call).
  - rewrite step_unfold.
    apply (Promises_stop _ w); auto; now destruct (key_issue message).
  - rewrite step_unfold. now apply (Promises_stop w w).
  - rewrite step_unfold, onaudioprocess_unfold. cbn [snd].
    destruct (existsb _ _).
    + same_promises w [SendRealtimeInput sessionPromise
               (encode (Uint8Array_of_Int16Array (capture_int16 inputData)))
               "audio/pcm;rate=16000"].
    + same_promises w (@nil Call).
  - rewrite step_unfold. now apply (Promises_stop w w).
  - settled_cases id answer w; try exact H;
      try solve [same_promises w (@nil Call)].
    + (* the key dialog has answered: [startSession] begins *)
      apply (startSession_Promises _ w []); fields; auto.
      * now rewrite app_nil_r.
      * apply without_subset.
    + (* the microphone is granted: two contexts are created *)
      same_promises w [NewAudioContext (fresh w) 16000;
                       NewAudioContext (S (fresh w)) 24000].
    + (* the contexts run: the connection is asked for *)
      destruct H as [Hh Hc Hk Hp Hu]. constructor; fields.
      * intros s Hs. now apply Hh.
      * intros s Hs. rewrite session_closes_app in Hs. cbn in Hs.
        rewrite orb_false_r in Hs. now apply Hc.
      * intros s Hs. specialize (Hk s Hs). lia.
      * intros k q Hin. apply in_app_or in Hin as [Hin | [Hin | []]].
        -- apply without_In in Hin. destruct (Hp k q Hin). split; [lia |].
           assumption.
        -- inversion Hin. subst k q. split; [lia |].
           intros Hin'. specialize (Hk _ Hin'). lia.
      * intros k k' q Hin Hin'.
        apply in_app_or in Hin as [Hin | [Hin | []]];
          apply in_app_or in Hin' as [Hin' | [Hin' | []]].
        -- apply without_In in Hin, Hin'. exact (Hu k k' q Hin Hin').
        -- apply without_In in Hin. inversion Hin'. subst k' q.
           destruct (Hp k _ Hin). lia.
        -- apply without_In in Hin'. inversion Hin. subst k q.
           destruct (Hp k' _ Hin'). lia.
        -- inversion Hin. inversion Hin'. congruence.
    + (* the session promise is fulfilled *)
      pose proof (lookup_In _ _ _ Hat) as Hmine.
      destruct H as [Hh Hc Hk Hp Hu]. constructor; fields.
      * intros s Hs. inversion Hs. subst s. apply in_or_app. right.
        now left.
      * intros s Hs. rewrite session_closes_app in Hs.
        apply orb_true_iff in Hs as [Hs | Hs].
        -- apply in_or_app. left. now apply Hc.
        -- exfalso. revert Hs.
           induction (filter (waiting_on sessionPromise) (thens w));
             [discriminate | assumption].
      * intros s Hs. apply in_app_or in Hs as [Hs | [Hs | []]].
        -- now apply Hk.
        -- subst s. now apply (Hp id).
      * intros k q Hin. unfold without in Hin.
        apply filter_In in Hin as [Hin Hne]. cbn [fst] in Hne.
        destruct (Hp k q Hin) as [Hlt Hnot]. split; [exact Hlt |].
        intros Hq. apply in_app_or in Hq as [Hq | [Hq | []]];
          [now apply Hnot |].
        subst q. rewrite (Hu k id _ Hin Hmine), Nat.eqb_refl in Hne.
        discriminate Hne.
      * intros k k' q Hin Hin'. apply without_In in Hin, Hin'.
        exact (Hu k k' q Hin Hin').
  - rewrite step_unfold. same_promises w (@nil Call).
Qed.

Lemma mounted_Promises (env : Browser) : Promises (mounted env).
Proof.
  rewrite mounted_unfold.
  destruct (aistudio env); constructor; cbn; try discriminate;
    try (now intros s []);
    try (intros id p [H | []]; discriminate H);
    try (now intros id p []);
    try (intros id id' p [H | []]; discriminate H);
    try (now intros id id' p []).
Qed.

Lemma run_Promises (evs : list Event) : forall w : World,
  Promises w -> Promises (run evs w).
Proof.
  induction evs as [| ev evs IH]; intros w H; [exact H |].
  rewrite run_cons. apply IH. now apply step_Promises.
Qed.

(** X11.  A stop does not reach a connection that is still being made.
    Whatever the mounted component has been through: when an error, a
    close by the service or the unmount runs [stopSession] while a start
    waits for its session promise, no [close()] is called on that
    connection (the ref does not hold it yet), and the start goes on when
    the promise is fulfilled: the session is stored in [sessionRef] and
    is open, after the component was stopped, and with the unmount after
    the component is gone.  [onopen], when it runs first, changes nothing
    of that. *)
Theorem a_stop_does_not_reach_a_pending_connection :
  forall (env : Browser) (evs : list Event) (id sessionPromise : nat)
         (ev : Event) (opens : bool),
    lookup id (awaiting (run evs (mounted env)))
    = Some (AtSessionPromise sessionPromise) ->
    stops ev = true ->
    sessionRef (step ev (run evs (mounted env))) = None
    /\ sessionRef
         (run (ev :: (if opens then [Opened sessionPromise] else [])
               ++ [Settled id granted])
              (run evs (mounted env)))
       = Some sessionPromise
    /\ In sessionPromise
          (open_sessions
             (run (ev :: (if opens then [Opened sessionPromise] else [])
                   ++ [Settled id granted])
                  (run evs (mounted env)))).
Proof.
  intros env evs id p ev opens Hat Hev.
  pose proof (run_Promises evs _ (mounted_Promises env)) as Hinv.
  set (w := run evs (mounted env)) in *.
  pose proof (step_Promises ev w Hinv) as Hinv1.
  assert (Hform : exists v, step ev w = snd (stopSession v)
                            /\ awaiting v = awaiting w).
  { rewrite step_unfold.
    destruct ev as [| | | message | | | | |]; try discriminate Hev.
    - eexists. split; [reflexivity |]. now destruct (key_issue message).
    - now exists w.
    - now exists w. }
  destruct Hform as (v & Hstep & Hw).
  assert (Hat1 : lookup id (awaiting (step ev w)) = Some (AtSessionPromise p))
    by (rewrite Hstep, stopSession_spec; cbn [snd awaiting]; now rewrite Hw).
  split; [now rewrite Hstep, stopSession_spec |].
  set (w1 := step ev w) in *.
  set (w2 := run (if opens then [Opened p] else []) w1).
  assert (Hinv2 : Promises w2) by (now apply run_Promises).
  assert (Hat2 : lookup id (awaiting w2) = Some (AtSessionPromise p))
    by (unfold w2; now destruct opens).
  change (run (ev :: (if opens then [Opened p] else [])
               ++ [Settled id granted]) w)
    with (run ((if opens then [Opened p] else []) ++ [Settled id granted])
              w1).
  rewrite run_app. fold w2. cbn [run fold_left].
  rewrite settled_unfold, Hat2. cbv zeta. unfold granted.
  rewrite fulfil_unfold. cbn [snd].
  split; [reflexivity |].
  unfold open_sessions, sessions_left_open. fields.
  apply filter_In. split; [apply in_or_app; right; now left |].
  rewrite session_closes_app.
  assert (Hno : existsb (is_session_close_of p) (calls w2) = false).
  { destruct (existsb (is_session_close_of p) (calls w2)) eqn:E;
      [| reflexivity].
    exfalso. destruct Hinv2 as [_ Hc _ Hp _].
    apply (proj2 (Hp id p (lookup_In _ _ _ Hat2))). now apply Hc. }
  rewrite Hno. cbn [orb negb].
  induction (filter (waiting_on p) (thens w2)); [reflexivity | assumption].
Qed.

(** X11 at the unmount of a component that waits for its connection. *)
Lemma a_stop_does_not_reach_a_pending_connection_witness :
  lookup 0 (awaiting (run [Click; Settled 0 granted; Settled 0 granted;
                           Settled 0 granted] (mounted willing)))
  = Some (AtSessionPromise 2)
  /\ sessionRef
       (run [Unmount; Opened 2; Settled 0 granted]
            (run [Click; Settled 0 granted; Settled 0 granted;
                  Settled 0 granted] (mounted willing)))
     = Some 2%nat
  /\ In 2%nat
        (open_sessions
           (run [Unmount; Opened 2; Settled 0 granted]
                (run [Click; Settled 0 granted; Settled 0 granted;
                      Settled 0 granted] (mounted willing)))).
Proof.
  assert (Hat : lookup 0 (awaiting (run [Click; Settled 0 granted;
                                          Settled 0 granted;
                                          Settled 0 granted]
                                         (mounted willing)))
                = Some (AtSessionPromise 2))
    by (vm_compute; reflexivity).
  split; [exact Hat |].
  exact (proj2 (a_stop_does_not_reach_a_pending_connection willing
                  [Click; Settled 0 granted; Settled 0 granted;
                   Settled 0 granted] 0 2 Unmount true Hat eq_refl)).
Defined.

End TraceFacts.

(** * What the user is left with after a start attempt or an error *)

Module LifecycleFacts.

Import JS TypedArray WebAudio LiveInterface Facts LiveFacts Traces TraceFacts.

Lemma prefix_spec (needle : string) : forall hay : string,
  String.prefix needle hay = true
  <-> exists post, hay = (needle ++ post)%string.
Proof.
  induction needle as [| c needle IH]; intros hay.
  - split; [intros _; now exists hay | intros _; now destruct hay].
  - destruct hay as [| d hay]; cbn.
    + split; [discriminate | intros [post H]; discriminate H].
    + destruct (Ascii.ascii_dec c d) as [-> | Hne].
      * rewrite IH. split; intros [post H]; exists post.
        -- now rewrite H.
        -- now inversion H.
      * split; [discriminate |]. intros [post H]. congruence.
Qed.

Lemma includes_unfold (hay needle : string) :
  includes hay needle
  = if String.prefix needle hay then true
    else match hay with
         | EmptyString => false
         | String _ rest => includes rest needle
         end.
Proof. now destruct hay. Qed.

(** [includes] is containment of a substring. *)
Lemma includes_spec (needle : string) : forall hay : string,
  includes hay needle = true
  <-> exists pre post, hay = (pre ++ needle ++ post)%string.
Proof.
  intros hay. split.
  - induction hay as [| c hay IH]; rewrite includes_unfold;
      destruct (String.prefix needle _) eqn:E.
    + intros _. apply prefix_spec in E as [post E].
      now exists EmptyString, post.
    + discriminate.
    + intros _. apply prefix_spec in E as [post E].
      now exists EmptyString, post.
    + intros H. destruct (IH H) as (pre & post & ->).
      now exists (String c pre), post.
  - intros (pre & post & ->). induction pre as [| c pre IH].
    + rewrite includes_unfold.
      assert (E : String.prefix needle (needle ++ post) = true)
        by (apply prefix_spec; now exists post).
      cbn [String.append]. now rewrite E.
    + rewrite includes_unfold. cbn [String.append].
      destruct (String.prefix needle _); [reflexivity | exact IH].
Qed.

(** X12.  An error reported by the service tears the session down and
    leaves a usable control.  The key prompt is raised exactly when the
    error text contains [entity was not found]; otherwise it stays as it
    was.  Either way the component is idle, one of the two fixed error
    lines is shown, and what is on screen is the key prompt or the
    enabled start button, never the disconnect button or a disabled start
    button. *)
Theorem server_error_leaves_a_usable_control :
  forall (message : option string) (w : World),
    Idle (step (ServerError message) w)
    /\ (key_issue message = true
        <-> exists text pre post,
              message = Some text
              /\ text = (pre ++ "entity was not found" ++ post)%string)
    /\ needsKey (step (ServerError message) w)
       = (needsKey w || key_issue message)%bool
    /\ errorMsg (step (ServerError message) w)
       = Some (if key_issue message
               then "API Key issue. Please re-select your key."
               else "Connection interrupted. Please try again.")%string
    /\ rendered_control (step (ServerError message) w)
       = (if needsKey w || key_issue message
          then SelectApiKey else StartConversation false).
Proof.
  intros message w.
  split; [| split].
  - rewrite step_unfold. apply stopSession_idle.
  - unfold key_issue. destruct message as [text |].
    + rewrite includes_spec. split.
      * intros (pre & post & H). now exists text, pre, post.
      * intros (t & pre & post & Ht & H). inversion Ht. subst t.
        now exists pre, post.
    + split; [discriminate |]. intros (t & _ & _ & H & _). discriminate H.
  - rewrite step_unfold, stopSession_spec. unfold rendered_control.
    destruct (key_issue message); cbn;
      rewrite ?orb_true_r, ?orb_false_r; repeat split;
      destruct (needsKey w); reflexivity.
Qed.

Lemma lookup_without (id : nat) (l : list (nat * Await)) :
  lookup id (without id l) = None.
Proof.
  induction l as [| [k a] l IH]; [reflexivity |].
  cbn [without filter fst]. destruct (Nat.eqb k id) eqn:E; cbn [negb].
  - exact IH.
  - cbn [lookup]. now rewrite E.
Qed.

Lemma lookup_resuspended (id : nat) (l : list (nat * Await)) (next : Await) :
  lookup id (without id l ++ [(id, next)]) = Some next.
Proof.
  induction l as [| [k a] l IH].
  - cbn. now rewrite Nat.eqb_refl.
  - cbn [without filter fst]. destruct (Nat.eqb k id) eqn:E; cbn [negb].
    + exact IH.
    + cbn [app lookup]. now rewrite E.
Qed.

(** X13.  [startSession] never ends without a word.  When the promise a
    suspended start awaits settles, the start either goes on to its next
    [await], with the connecting flag, the error line and the key prompt
    as they were, or it ends, in one of three ways: at the key check with
    the key prompt raised and the connecting flag cleared, having made no
    call; with the connecting flag cleared and a non-empty error line
    (whatever was rejected, and with whatever message: an empty one is
    replaced); or, at the session promise, with the session stored in
    [sessionRef] and its promise fulfilled. *)
Theorem start_attempt_reports :
  forall (w : World) (id : nat) (at_ : Await) (answer : Answer),
    lookup id (awaiting w) = Some at_ ->
    of_startSession at_ = true ->
    (exists next,
       lookup id (awaiting (step (Settled id answer) w)) = Some next
       /\ of_startSession next = true
       /\ isConnecting (step (Settled id answer) w) = isConnecting w
       /\ errorMsg (step (Settled id answer) w) = errorMsg w
       /\ needsKey (step (Settled id answer) w) = needsKey w)
    \/ (lookup id (awaiting (step (Settled id answer) w)) = None
        /\ ((at_ = AtHasSelectedApiKey
             /\ isConnecting (step (Settled id answer) w) = false
             /\ needsKey (step (Settled id answer) w) = true
             /\ calls (step (Settled id answer) w) = calls w)
            \/ (isConnecting (step (Settled id answer) w) = false
                /\ sessionRef (step (Settled id answer) w) = sessionRef w
                /\ exists text,
                     errorMsg (step (Settled id answer) w) = Some text
                     /\ text <> EmptyString)
            \/ (exists sessionPromise,
                  at_ = AtSessionPromise sessionPromise
                  /\ sessionRef (step (Settled id answer) w)
                     = Some sessionPromise
                  /\ In sessionPromise
                        (fulfilled (step (Settled id answer) w))))).
Proof.
  intros w id at_ answer Hat Hstart.
  assert (Hmic : forall name, microphone_message name <> EmptyString)
    by (intros name; unfold microphone_message;
        now destruct (_ || _)%bool).
  assert (Hdef : forall message, message_or_default message <> EmptyString)
    by (intros [| c m]; discriminate).
  rewrite settled_unfold, Hat. cbv zeta.
  destruct at_ as [| | | | inputCtx outputCtx | inputCtx outputCtx | p];
    try discriminate Hstart;
    destruct answer as [value | name message];
    rewrite ?startSession_resume_unfold, ?fulfil_unfold; cbn [snd].
  - destruct (negb value && negb (API_KEY (browser _))).
    + right. fields. split; [apply lookup_without |]. left. repeat split.
    + left. exists AtGetUserMedia. fields.
      split; [apply lookup_resuspended | repeat split].
  - right. fields. split; [apply lookup_without |]. right. left.
    repeat split. eexists. split; [reflexivity | apply Hdef].
  - left. eexists. fields.
    split; [apply lookup_resuspended | repeat split].
  - right. fields. split; [apply lookup_without |]. right. left.
    repeat split. eexists. split; [reflexivity | apply Hmic].
  - left. eexists. fields.
    split; [apply lookup_resuspended | repeat split].
  - right. fields. split; [apply lookup_without |]. right. left.
    repeat split. eexists. split; [reflexivity | apply Hdef].
  - left. eexists. fields.
    split; [apply lookup_resuspended | repeat split].
  - right. fields. split; [apply lookup_without |]. right. left.
    repeat split. eexists. split; [reflexivity | apply Hdef].
  - right. fields. split; [apply lookup_without |]. right. right.
    exists p. repeat split. apply in_or_app. right. now left.
  - right. fields. split; [apply lookup_without |]. right. left.
    repeat split. eexists. split; [reflexivity | apply Hdef].
Qed.

(** X13 where the connection is refused with an empty message: the start
    ends with the default error line. *)
Lemma start_attempt_reports_witness :
  lookup 0 (awaiting connecting) = Some (AtSessionPromise 2)
  /\ isConnecting (step (Settled 0 (Rejects "Error" EmptyString)) connecting) = false
  /\ errorMsg (step (Settled 0 (Rejects "Error" EmptyString)) connecting)
     = Some "Failed to initiate voice link."%string.
Proof.
  assert (Hat : lookup 0 (awaiting connecting) = Some (AtSessionPromise 2))
    by (vm_compute; reflexivity).
  split; [exact Hat |].
  destruct (start_attempt_reports connecting 0 (AtSessionPromise 2)
              (Rejects "Error" EmptyString) Hat eq_refl)
    as [(next & Hnext & _) | (_ & [H | [H | H]])].
  - exfalso. revert Hnext. vm_compute. discriminate.
  - destruct H as (H & _). discriminate H.
  - split; [exact (proj1 H) | vm_compute; reflexivity].
  - destruct H as (p & _ & H & _). exfalso. revert H. vm_compute.
    discriminate.
Defined.

End LifecycleFacts.

(** * The speech path of the chat component *)

Module SpeechFacts.

Import JS TypedArray WebAudio ChatInterface Facts SpeakFacts Speech.

Lemma speech_run_cons (ev : Event) (evs : list Event) (w : World) :
  run (ev :: evs) w = run evs (step ev w).
Proof. reflexivity. Qed.

Lemma speech_run_app (evs evs' : list Event) (w : World) :
  run (evs ++ evs') w = run evs' (run evs w).
Proof. unfold run. apply fold_left_app. Qed.

Lemma fetches_app (cs cs' : list Call) :
  fetches (cs ++ cs') = fetches cs ++ fetches cs'.
Proof. apply flat_map_app. Qed.

Lemma contexts_made_app (cs cs' : list Call) :
  contexts_made (cs ++ cs') = contexts_made cs ++ contexts_made cs'.
Proof. apply flat_map_app. Qed.

Lemma starts_app (cs cs' : list Call) :
  starts (cs ++ cs') = starts cs ++ starts cs'.
Proof. apply flat_map_app. Qed.

(** With the indicator off, no call is under way. *)
Lemma resting (w : World) :
  one_at_a_time w -> isSpeaking w = None -> at_rest w.
Proof.
  intros [_ H] Hs. unfold at_rest. split; [exact Hs |].
  destruct (awaiting w) as [| p l] eqn:Ea.
  - destruct (playing w) as [| q m] eqn:Ep; [now split |].
    specialize (H q (or_introl eq_refl)). congruence.
  - specialize (H p (or_introl eq_refl)). congruence.
Qed.

Lemma reachable_resting (evs : list Event) :
  isSpeaking (run evs initial) = None -> at_rest (run evs initial).
Proof.
  apply resting, run_one_at_a_time, initial_one_at_a_time.
Qed.

(** The request and the answer to it, from rest. *)
Lemma speak_then_answer (text : string) (index : nat) (answer : TtsAnswer)
    (w : World) :
  at_rest w ->
  run [Speak text index; Answered (fresh w) answer] w
  = snd (handleSpeak_resume index answer
           (mkWorld (Some index) (audioContextRef w) [] []
              (calls w ++ [Fetch (fresh w) text]) (S (fresh w)))).
Proof.
  intros (Hs & Ha & Hp).
  rewrite !speech_run_cons. cbn [run fold_left].
  unfold step at 2. cbn [handle]. rewrite (handleSpeak_begins _ _ _ Hs).
  cbn [snd]. rewrite Ha, Hp. cbn [app].
  unfold step, handle. rewrite bind_read. cbn [awaiting].
  unfold lookup. cbn [find fst snd]. rewrite Nat.eqb_refl.
  rewrite bind_write. unfold without. cbn [filter fst].
  rewrite Nat.eqb_refl. reflexivity.
Qed.






(** What a failing answer leaves behind. *)
Lemma resume_fails (index : nat) (answer : TtsAnswer) (w : World) :
  fails answer = true ->
  let w' := snd (handleSpeak_resume index answer w) in
  isSpeaking w' = None /\ awaiting w' = awaiting w /\ playing w' = playing w
  /\ fetches (calls w') = fetches (calls w)
  /\ starts (calls w') = starts (calls w).
Proof.
  unfold fails, handleSpeak_resume, try_catch, bind, ret, throw, lift, read,
    write, call, new_object.
  destruct answer as [e | audio]; [intros _; cbn; now repeat split |].
  destruct (truthy audio) as [base64 |]; [| discriminate].
  destruct (decodeBase64 base64) as [bytes | e].
  - destruct (decodeAudioData bytes) as [b | e]; [discriminate |].
    intros _. destruct (audioContextRef w); cbn;
      rewrite ?fetches_app, ?starts_app, ?app_nil_r; now repeat split.
  - intros _. destruct (audioContextRef w); cbn;
      rewrite ?fetches_app, ?starts_app, ?app_nil_r; now repeat split.
Qed.

(** X15.  A failed request re-arms the button.  When the request for
    speech fails, or the audio that comes back does not decode, the
    indicator is turned off, nothing is played, and the next request to
    speak is sent. *)
Theorem failed_speech_can_be_retried :
  forall (evs : list Event) (text : string) (index : nat)
         (answer : TtsAnswer) (text' : string) (index' : nat),
    isSpeaking (run evs initial) = None ->
    fails answer = true ->
    at_rest (run (evs ++ [Speak text index;
                          Answered (fresh (run evs initial)) answer])
                 initial)
    /\ starts
         (calls (run (evs ++ [Speak text index;
                              Answered (fresh (run evs initial)) answer])
                     initial))
       = starts (calls (run evs initial))
    /\ fetches
         (calls (run (evs ++ [Speak text index;
                              Answered (fresh (run evs initial)) answer;
                              Speak text' index'])
                     initial))
       = fetches (calls (run evs initial))
         ++ [(fresh (run evs initial), text);
             (fresh
                (run (evs ++ [Speak text index;
                              Answered (fresh (run evs initial)) answer])
                     initial),
              text')].
Proof.
  intros evs text index answer text' index' Hs Hf.
  pose proof (reachable_resting evs Hs) as Hrest.
  replace [Speak text index; Answered (fresh (run evs initial)) answer;
           Speak text' index']
    with ([Speak text index; Answered (fresh (run evs initial)) answer]
          ++ [Speak text' index']) by reflexivity.
  rewrite !speech_run_app.
  set (w := run evs initial) in *.
  rewrite (speak_then_answer text index answer w Hrest).
  match goal with
  | |- context [handleSpeak_resume index answer ?v] =>
      pose proof (resume_fails index answer v Hf) as (H1 & H2 & H3 & H4 & H5);
      set (w2 := snd (handleSpeak_resume index answer v)) in *
  end.
  cbn [awaiting playing calls] in H2, H3, H4, H5.
  split; [now repeat split |].
  split.
  - rewrite H5, starts_app. cbn. now rewrite app_nil_r.
  - cbn [run fold_left]. unfold step. cbn [handle].
    rewrite (handleSpeak_begins _ _ _ H1). cbn [snd calls].
    rewrite fetches_app, H4, fetches_app. cbn. now rewrite <- app_assoc.
Qed.

Lemma failed_speech_can_be_retried_witness :
  at_rest (run ([] ++ [Speak "reply" 1;
                       Answered (fresh (run [] initial)) (Failed TypeError)])
               initial)
  /\ starts
       (calls (run ([] ++ [Speak "reply" 1;
                           Answered (fresh (run [] initial))
                                    (Failed TypeError)])
                   initial))
     = starts (calls (run [] initial))
  /\ fetches
       (calls (run ([] ++ [Speak "reply" 1;
                           Answered (fresh (run [] initial))
                                    (Failed TypeError);
                           Speak "reply" 1])
                   initial))
     = fetches (calls (run [] initial))
       ++ [(fresh (run [] initial), "reply"%string);
           (fresh
              (run ([] ++ [Speak "reply" 1;
                           Answered (fresh (run [] initial))
                                    (Failed TypeError)])
                   initial),
            "reply"%string)].
Proof.
  apply (failed_speech_can_be_retried [] "reply" 1 (Failed TypeError)
           "reply" 1); reflexivity.
Defined.


(** ** One audio context *)

Lemma OneContext_fields (w v : World) :
  calls v = calls w -> audioContextRef v = audioContextRef w ->
  OneContext w -> OneContext v.
Proof.
  intros Hc Ha [Hm Hu]. constructor; rewrite Hc, Ha; assumption.
Qed.

Lemma OneContext_fetch (w v : World) (request : nat) (text : string) :
  calls v = calls w ++ [Fetch request text] ->
  audioContextRef v = audioContextRef w ->
  OneContext w -> OneContext v.
Proof.
  intros Hc Ha [Hm Hu].
  constructor; rewrite Hc, Ha, ?contexts_made_app, ?starts_app; cbn;
    rewrite app_nil_r; assumption.
Qed.

Lemma resume_OneContext (index : nat) (answer : TtsAnswer) (w : World) :
  OneContext w -> OneContext (snd (handleSpeak_resume index answer w)).
Proof.
  intros H. pose proof H as [Hm Hu].
  unfold handleSpeak_resume, try_catch, bind, ret, throw, lift, read,
    write, call, new_object.
  destruct answer as [e | audio];
    [now apply (OneContext_fields w) |].
  destruct (truthy audio) as [base64 |]; [| exact H].
  destruct (audioContextRef w) as [ctx |] eqn:Ectx.
  - destruct (decodeBase64 base64) as [bytes | e];
      [| now apply (OneContext_fields w)].
    destruct (decodeAudioData bytes) as [b | e];
      [| now apply (OneContext_fields w)].
    cbn. constructor; cbn; rewrite ?contexts_made_app, ?starts_app;
      cbn; rewrite ?app_nil_r.
    + now rewrite Hm, ?Ectx.
    + apply Forall_app. split; [| now repeat constructor].
      eapply Forall_impl; [| exact Hu].
      intros [[[s c] t] b0]. now rewrite Ectx.
  - try rewrite Ectx in Hm.
    assert (Hnone : starts (calls w) = []).
    { destruct (starts (calls w)) as [| [[[s c] t] b] l]; [reflexivity |].
      inversion Hu as [| ? ? Hx _]. cbn in Hx. destruct Hx. congruence. }
    destruct (decodeBase64 base64) as [bytes | e];
      [destruct (decodeAudioData bytes) as [b | e] |];
      cbn; constructor; cbn;
      rewrite ?contexts_made_app, ?starts_app, ?Hm, ?Hnone; cbn;
      try reflexivity; repeat constructor.
Qed.

Lemma step_OneContext (ev : Event) (w : World) :
  OneContext w -> OneContext (step ev w).
Proof.
  intros H. unfold step.
  destruct ev as [text index | request answer | source]; cbn [handle].
  - destruct (isSpeaking w) as [i |] eqn:Es.
    + rewrite handleSpeak_guard; [exact H | congruence].
    + rewrite (handleSpeak_begins _ _ _ Es). cbn [snd].
      now apply (OneContext_fetch w _ (fresh w) text).
  - rewrite bind_read. destruct (lookup request (awaiting w)); [| exact H].
    rewrite bind_write. apply resume_OneContext.
    now apply (OneContext_fields w).
  - rewrite bind_read. destruct (lookup source (playing w)); [| exact H].
    now apply (OneContext_fields w).
Qed.

(** X16.  The chat component makes at most one audio context for
    speech, however many replies are spoken: the one the ref names.  Every
    source it has started plays on that context and starts at time
    zero. *)
Theorem speech_uses_one_audio_context :
  forall evs : list Event,
    (List.length (contexts_made (calls (run evs initial))) <= 1)%nat
    /\ contexts_made (calls (run evs initial))
       = match audioContextRef (run evs initial) with
         | Some ctx => [ctx]
         | None => []
         end
    /\ Forall (fun s => match s with
                        | (_, ctx, when, _) =>
                            audioContextRef (run evs initial) = Some ctx
                            /\ when = 0%Q
                        end)
              (starts (calls (run evs initial))).
Proof.
  intros evs.
  assert (H : OneContext (run evs initial)).
  { assert (Hgen : forall w, OneContext w -> OneContext (run evs w)).
    { induction evs as [| ev evs IH]; intros w Hw; [exact Hw |].
      rewrite speech_run_cons. apply IH. now apply step_OneContext. }
    apply Hgen. constructor; [reflexivity | constructor]. }
  destruct H as [Hm Hu]. repeat split; [| exact Hm | exact Hu].
  rewrite Hm. destruct (audioContextRef (run evs initial)); cbn; lia.
Qed.

(** ** A reply that is spoken *)

Lemma decodeAudioData_agrees (data : list Z) :
  decodeAudioData data = LiveInterface.decodeAudioData data 24000 1.
Proof.
  unfold decodeAudioData, LiveInterface.decodeAudioData.
  destruct (Int16Array_of_buffer data) as [a |]; [| reflexivity].
  rewrite Nat.div_1_r. cbn [Nat.eqb orb].
  destruct (List.length a =? 0)%nat; [reflexivity |].
  assert (H : map (fun i => LiveInterface.decode_sample
                              (nth (i * 1 + 0) a 0))
                  (seq 0 (List.length a))
              = map LiveInterface.decode_sample a).
  { rewrite <- (LiveFacts.map_nth_seq LiveInterface.decode_sample 0 a).
    apply map_ext. intros i. now rewrite Nat.mul_1_r, Nat.add_0_r. }
  change (seq 0 1) with [0%nat]. cbn [map]. rewrite H. reflexivity.
Qed.

(** X17.  A reply that is spoken is played and then re-arms the button.
    When the answer carries the base64 text of a non-empty frame of 16-bit
    samples, the component starts exactly one source, at time zero, on the
    context the ref names, holding the samples divided by 32768 at 24 kHz;
    the indicator stays on the reply while it plays, and the end of the
    source turns it off with no call left under way.  The decoder used is
    the one of the live component at 24 kHz, one channel. *)
Theorem spoken_reply_plays_and_rearms :
  forall (evs : list Event) (text : string) (index : nat)
         (samples : list Z),
    isSpeaking (run evs initial) = None ->
    samples <> [] -> Forall LiveInterface.int16 samples ->
    (forall data, decodeAudioData data
                  = LiveInterface.decodeAudioData data 24000 1)
    /\ exists source ctx,
         starts
           (calls
              (run (evs ++ [Speak text index;
                            Answered (fresh (run evs initial))
                              (Body (Some (LiveInterface.encode
                                             (Uint8Array_of_Int16Array
                                                samples))))])
                   initial))
         = starts (calls (run evs initial))
           ++ [(source, ctx, 0%Q,
                mkAudioBuffer 1 (List.length samples) 24000
                  [map LiveInterface.decode_sample samples])]
         /\ audioContextRef
              (run (evs ++ [Speak text index;
                            Answered (fresh (run evs initial))
                              (Body (Some (LiveInterface.encode
                                             (Uint8Array_of_Int16Array
                                                samples))))])
                   initial)
            = Some ctx
         /\ isSpeaking
              (run (evs ++ [Speak text index;
                            Answered (fresh (run evs initial))
                              (Body (Some (LiveInterface.encode
                                             (Uint8Array_of_Int16Array
                                                samples))))])
                   initial)
            = Some index
         /\ at_rest
              (run (evs ++ [Speak text index;
                            Answered (fresh (run evs initial))
                              (Body (Some (LiveInterface.encode
                                             (Uint8Array_of_Int16Array
                                                samples))));
                            Ended source])
                   initial).
Proof.
  intros evs text index samples Hs Hne Hint.
  split; [exact decodeAudioData_agrees |].
  pose proof (reachable_resting evs Hs) as Hrest.
  set (answer := Body (Some (LiveInterface.encode
                               (Uint8Array_of_Int16Array samples)))).
  assert (Hsplit : forall source,
            [Speak text index; Answered (fresh (run evs initial)) answer;
             Ended source]
            = [Speak text index; Answered (fresh (run evs initial)) answer]
              ++ [Ended source]) by reflexivity.
  assert (Hbytes : Uint8Array_of_Int16Array samples <> []).
  { destruct samples; [congruence | discriminate]. }
  assert (Hres : forall v,
            handleSpeak_resume index answer v
            = (Normal tt,
               let ctx := match audioContextRef v with
                          | Some ctx => ctx
                          | None => fresh v
                          end in
               let made := match audioContextRef v with
                           | Some _ => []
                           | None => [NewAudioContext (fresh v)]
                           end in
               let source := match audioContextRef v with
                             | Some _ => fresh v
                             | None => S (fresh v)
                             end in
               mkWorld (isSpeaking v) (Some ctx) (awaiting v)
                 (playing v ++ [(source, index)])
                 (calls v ++ made
                  ++ [StartSource source ctx 0
                        (mkAudioBuffer 1 (List.length samples) 24000
                           [map LiveInterface.decode_sample samples])])
                 (S source))).
  { intros v.
    unfold handleSpeak_resume, answer, try_catch, bind, ret, throw, lift,
      read, write, call, new_object, truthy.
    pose proof (AudioFacts.encode_not_empty _ Hbytes) as Hnz.
    destruct (LiveInterface.encode (Uint8Array_of_Int16Array samples))
      as [| c rest] eqn:Eenc; [discriminate Hnz |].
    rewrite <- Eenc.
    change (decodeBase64 ?x) with (LiveInterface.decode x).
    rewrite (CodecFacts.decode_of_encode _
               (proj1 (AudioFacts.buffer_bytes samples))).
    rewrite decodeAudioData_agrees.
    rewrite (LiveFacts.decodeAudioData_mono samples 24000 Hne Hint).
    destruct (audioContextRef v) as [ctx |] eqn:Ectx;
      unfold with_playing, with_calls, with_fresh, with_audioContextRef;
      cbn; rewrite ?Ectx, <- ?app_assoc; reflexivity. }
  set (w := run evs initial) in *.
  exists (match audioContextRef w with
          | Some _ => S (fresh w)
          | None => S (S (fresh w))
          end),
         (match audioContextRef w with
          | Some ctx => ctx
          | None => S (fresh w)
          end).
  rewrite Hsplit, !speech_run_app. fold w.
  rewrite (speak_then_answer text index answer w Hrest), Hres.
  cbn [snd audioContextRef fresh playing awaiting calls isSpeaking].
  destruct (audioContextRef w) as [ctx |]; cbn [app];
    (split; [rewrite !starts_app; cbn; now rewrite ?app_nil_r |]);
    (split; [reflexivity |]); (split; [reflexivity |]);
    cbn [run fold_left]; unfold step, handle;
    rewrite bind_read; unfold lookup; cbn [playing find fst snd];
    rewrite Nat.eqb_refl, bind_write; unfold without;
    cbn [filter fst playing onended write snd];
    rewrite Nat.eqb_refl; now repeat split.
Qed.

Lemma spoken_reply_plays_and_rearms_witness :
  exists source ctx,
    starts
      (calls
         (run ([] ++ [Speak "reply" 1;
                      Answered (fresh (run [] initial))
                        (Body (Some (LiveInterface.encode
                                       (Uint8Array_of_Int16Array [1; -2]))))])
              initial))
    = starts (calls (run [] initial))
      ++ [(source, ctx, 0%Q,
           mkAudioBuffer 1 (List.length [1; -2]) 24000
             [map LiveInterface.decode_sample [1; -2]])]
    /\ at_rest
         (run ([] ++ [Speak "reply" 1;
                      Answered (fresh (run [] initial))
                        (Body (Some (LiveInterface.encode
                                       (Uint8Array_of_Int16Array [1; -2]))));
                      Ended source])
              initial).
Proof.
  assert (H : isSpeaking (run [] initial) = None
              /\ [1; -2] <> []
              /\ Forall LiveInterface.int16 [1; -2]).
  { split; [reflexivity |]. split; [discriminate |].
    repeat constructor; unfold LiveInterface.int16; lia. }
  destruct H as (Hs & Hne & Hint).
  destruct (proj2 (spoken_reply_plays_and_rearms [] "reply" 1 [1; -2]
                     Hs Hne Hint))
    as (source & ctx & H1 & _ & _ & H4).
  exists source, ctx. split; [exact H1 | exact H4].
Defined.

End SpeechFacts.

(** * Facts about user text *)

Module TextFacts.

Import Text.

Lemma text_eqb_eq (a : text) : forall b, eqb a b = true <-> a = b.
Proof.
  induction a as [| x a IH]; intros [| y b]; cbn;
    try (split; [discriminate | congruence]); [now split |].
  rewrite andb_true_iff, N.eqb_eq, IH. split.
  - now intros [-> ->].
  - intros H. inversion H. now split.
Qed.

Lemma text_eqb_refl (a : text) : eqb a a = true.
Proof. now apply text_eqb_eq. Qed.

Lemma text_eqb_neq (a b : text) : eqb a b = false <-> a <> b.
Proof.
  rewrite <- text_eqb_eq. destruct (eqb a b); split; congruence.
Qed.

Lemma literal_injective (s s' : string) : literal s = literal s' -> s = s'.
Proof.
  unfold literal. intros H.
  rewrite <- (string_of_list_ascii_of_string s),
          <- (string_of_list_ascii_of_string s').
  f_equal. revert H.
  generalize (list_ascii_of_string s) (list_ascii_of_string s').
  induction l as [| c l IH]; intros [| d m] H; try discriminate;
    [reflexivity |].
  cbn in H. inversion H as [[Hc Hl]].
  f_equal; [| now apply IH].
  rewrite <- (ascii_N_embedding c), <- (ascii_N_embedding d). now rewrite Hc.
Qed.

(** Distinct clock readings give distinct ids. *)
Lemma Number_toString_injective (n m : Z) :
  Number_toString n = Number_toString m -> n = m.
Proof.
  unfold Number_toString. intros H. apply literal_injective in H.
  apply (f_equal NilEmpty.int_of_string) in H.
  rewrite !NilEmpty.isi in H. inversion H as [H'].
  rewrite <- (DecimalZ.of_to n), <- (DecimalZ.of_to m). now rewrite H'.
Qed.




End TextFacts.

(** * The list of chat sessions *)

Module SessionListFacts.

Import JS Text Types AppSessions TextFacts.

(** ** [handleUpdateMessages] *)

Lemma newTitle_total (s : ChatSession.t) (messages : list Message.t) :
  well_formed messages -> exists title, newTitle s messages = Normal title.
Proof.
  intros Hwf. unfold newTitle.
  destruct (_ || _); [| eauto].
  destruct (find _ messages) as [m |] eqn:Hfind; [| eauto].
  apply find_some in Hfind as [Hin _].
  pose proof (proj1 (Forall_forall _ _) Hwf m Hin) as Hparts.
  destruct (Message.parts m) eqn:E; [congruence | eauto].
Qed.

Lemma newTitle_placeholder (s : ChatSession.t) (messages : list Message.t) :
  newTitle s messages
  = if is_placeholder (ChatSession.title s)
    then match find (fun m => is_user (Message.role m)) messages with
         | Some firstUserMsg =>
             match Message.parts firstUserMsg with
             | first :: _ => Normal (title_of first)
             | [] => Throw TypeError
             end
         | None => Normal (ChatSession.title s)
         end
    else Normal (ChatSession.title s).
Proof. reflexivity. Qed.

Lemma title_of_length (first : text) :
  (List.length (title_of first) <= 33)%nat
  /\ ((List.length first <= 30)%nat -> title_of first = first).
Proof.
  unfold title_of, slice0. split.
  - rewrite length_app, length_firstn.
    destruct (30 <? List.length first)%nat;
      [change (List.length (literal "...")) with 3%nat
      | change (List.length (@nil N)) with 0%nat]; lia.
  - intros H. rewrite firstn_all2 by exact H.
    destruct (Nat.ltb_spec 30 (List.length first)); [lia |].
    apply app_nil_r.
Qed.

Lemma updateSessions_spec (sessionId : text) (messages : list Message.t)
    (prev : list ChatSession.t) :
  well_formed messages ->
  forall now : nat -> Z,
  exists next,
    updateSessions sessionId messages now prev = Normal next
    /\ Forall2 (updated sessionId messages) prev next
    /\ map ChatSession.timestamp (named sessionId next)
       = readings now (List.length (named sessionId prev)).
Proof.
  intros Hwf. induction prev as [| s rest IH]; intros now.
  - exists []. split; [reflexivity |]. split; [constructor | reflexivity].
  - cbn [updateSessions named filter].
    destruct (eqb (ChatSession.id s) sessionId) eqn:E.
    + destruct (newTitle_total s messages Hwf) as [title Ht]. rewrite Ht.
      destruct (IH (fun k => now (S k))) as (next & Hnext & Hrel & Htime).
      rewrite Hnext. eexists. split; [reflexivity |]. split.
      * constructor; [| exact Hrel].
        unfold updated. rewrite E. cbn. now repeat split.
      * cbn [named filter ChatSession.id]. rewrite E.
        cbn [map ChatSession.timestamp List.length].
        fold (named sessionId next). rewrite Htime.
        unfold readings. cbn [seq map]. f_equal.
        now rewrite <- seq_shift, map_map.
    + destruct (IH now) as (next & Hnext & Hrel & Htime).
      rewrite Hnext. eexists. split; [reflexivity |]. split.
      * constructor; [| exact Hrel]. unfold updated. now rewrite E.
      * cbn [named filter]. rewrite E. exact Htime.
Qed.

Lemma updated_id sessionId messages (s s' : ChatSession.t) :
  updated sessionId messages s s' -> ChatSession.id s' = ChatSession.id s.
Proof.
  unfold updated. destruct (eqb _ _); [now intros [H _] | now intros ->].
Qed.

Lemma updated_ids sessionId messages (prev next : list ChatSession.t) :
  Forall2 (updated sessionId messages) prev next -> ids next = ids prev.
Proof.
  induction 1 as [| s s' prev next H _ IH]; [reflexivity |].
  unfold ids in *. cbn [map]. now rewrite IH, (updated_id _ _ _ _ H).
Qed.

(** X18.  [handleUpdateMessages] changes the named chat and nothing
    else.  Given messages that each have a part, it does not throw; the
    list keeps its length, its order and its ids; every chat with another
    id is untouched; a chat with the given id takes the messages, and the
    chats with the id take the readings of the clock in list order, one
    call of [Date.now()] each.  The title of such a chat is kept when it
    is neither [New Chat] nor [Chat Session], and when there is no user
    message among the messages; otherwise it becomes the first part of the
    first user message, cut to its first thirty code units and followed by
    an ellipsis when the text is longer, so at most 33 code units, and the
    text itself when it has at most thirty.  Mode, current id and drawer
    are left alone. *)
Theorem update_changes_only_the_named_chat :
  forall (sessionId : text) (messages : list Message.t) (now : nat -> Z)
         (st : State),
    well_formed messages ->
    exists st',
      handleUpdateMessages sessionId messages now st = Normal st'
      /\ mode st' = mode st
      /\ currentSessionId st' = currentSessionId st
      /\ isHistoryOpen st' = isHistoryOpen st
      /\ ids (sessions st') = ids (sessions st)
      /\ map ChatSession.timestamp (named sessionId (sessions st'))
         = map now (seq 0 (List.length (named sessionId (sessions st))))
      /\ Forall2
           (fun s s' =>
              if eqb (ChatSession.id s) sessionId
              then ChatSession.id s' = ChatSession.id s
                   /\ ChatSession.messages s' = messages
                   /\ (is_placeholder (ChatSession.title s) = false ->
                       ChatSession.title s' = ChatSession.title s)
                   /\ (find (fun m => is_user (Message.role m)) messages
                       = None ->
                       ChatSession.title s' = ChatSession.title s)
                   /\ (forall m first rest,
                         is_placeholder (ChatSession.title s) = true ->
                         find (fun m => is_user (Message.role m)) messages
                         = Some m ->
                         Message.parts m = first :: rest ->
                         ChatSession.title s'
                         = firstn 30 first
                           ++ (if (30 <? List.length first)%nat
                               then literal "..." else [])
                         /\ (List.length (ChatSession.title s') <= 33)%nat
                         /\ ((List.length first <= 30)%nat ->
                             ChatSession.title s' = first))
              else s' = s)
           (sessions st) (sessions st').
Proof.
  intros sessionId messages now st Hwf.
  destruct (updateSessions_spec sessionId messages (sessions st) Hwf now)
    as (next & Hnext & Hrel & Htime).
  unfold handleUpdateMessages. rewrite Hnext.
  eexists. split; [reflexivity |]. cbn [mode currentSessionId isHistoryOpen
                                        sessions].
  split; [reflexivity |]. split; [reflexivity |]. split; [reflexivity |].
  split; [now apply (updated_ids sessionId messages) |].
  split; [exact Htime |].
  eapply Forall2_impl; [| exact Hrel].
  intros s s'. unfold updated.
  destruct (eqb (ChatSession.id s) sessionId); [| auto].
  intros (Hid & Hm & Htitle).
  rewrite newTitle_placeholder in Htitle.
  split; [exact Hid |]. split; [exact Hm |]. split; [| split].
  - intros Hp. rewrite Hp in Htitle. congruence.
  - intros Hnone. rewrite Hnone in Htitle.
    destruct (is_placeholder (ChatSession.title s)); congruence.
  - intros m first rest Hp Hfind Hparts.
    rewrite Hp, Hfind, Hparts in Htitle. inversion Htitle as [Ht].
    split; [reflexivity |]. apply title_of_length.
Qed.

(** X18 at a chat still called [New Chat]: it takes the message, the
    first clock reading, and the text of the user message as its title;
    the other chat is as it was. *)
Lemma update_changes_only_the_named_chat_witness :
  exists st',
    handleUpdateMessages (literal "1700000000001")
      [said (literal "Where shall we go?") 5] (fun k => 6 + Z.of_nat k)
      two_chats
    = Normal st'
    /\ ids (sessions st') = ids (sessions two_chats)
    /\ map ChatSession.title (sessions st')
       = [literal "Where shall we go?"; literal "Trip plan"]
    /\ map ChatSession.timestamp (sessions st') = [6; 1700000000000].
Proof.
  assert (H : well_formed [said (literal "Where shall we go?") 5])
    by (repeat constructor; discriminate).
  destruct (update_changes_only_the_named_chat (literal "1700000000001")
              [said (literal "Where shall we go?") 5]
              (fun k => 6 + Z.of_nat k) two_chats H)
    as (st' & H1 & _ & _ & _ & H5 & _).
  exists st'. split; [exact H1 |]. split; [exact H5 |].
  assert (Hc : handleUpdateMessages (literal "1700000000001")
                 [said (literal "Where shall we go?") 5]
                 (fun k => 6 + Z.of_nat k) two_chats
               = Normal
                   (mkState CHAT
                      [ChatSession.mk (literal "1700000000001")
                         (literal "Where shall we go?")
                         [said (literal "Where shall we go?") 5] 6;
                       ChatSession.mk (literal "1700000000000")
                         (literal "Trip plan")
                         [said (literal "Trip plan") 1700000000000]
                         1700000000000]
                      (Some (literal "1700000000001")) false))
    by (vm_compute; reflexivity).
  rewrite Hc in H1. inversion H1. split; reflexivity.
Defined.

(** ** The current chat *)

Lemma in_ids (s : ChatSession.t) (l : list ChatSession.t) :
  In s l -> In (ChatSession.id s) (ids l).
Proof. apply in_map. Qed.

Lemma updateSessions_ids (sessionId : text) (messages : list Message.t)
    (prev : list ChatSession.t) : forall (now : nat -> Z) next,
  updateSessions sessionId messages now prev = Normal next ->
  ids next = ids prev.
Proof.
  induction prev as [| s rest IH]; intros now next Hnext.
  - inversion Hnext. reflexivity.
  - cbn [updateSessions] in Hnext.
    destruct (eqb (ChatSession.id s) sessionId).
    + destruct (newTitle s messages); [| discriminate].
      destruct (updateSessions sessionId messages (fun k => now (S k)) rest)
        as [rest' |] eqn:Hrest; [| discriminate].
      inversion Hnext. unfold ids in *. cbn [map ChatSession.id].
      f_equal. exact (IH _ _ Hrest).
    + destruct (updateSessions sessionId messages now rest) as [rest' |]
        eqn:Hrest; [| discriminate].
      inversion Hnext. unfold ids in *. cbn [map].
      f_equal. exact (IH _ _ Hrest).
Qed.

Lemma handle_current_exists (ev : Event) (st st' : State) :
  handle ev st = Normal st' -> current_exists st -> current_exists st'.
Proof.
  unfold current_exists.
  destruct ev as [n a b | sessionId messages now | sessionId | position |
                  m | open]; cbn [handle]; intros H Hinv current Hc.
  - inversion H. subst st'. unfold createNewChat in *.
    cbn [sessions currentSessionId] in *. inversion Hc. now left.
  - unfold handleUpdateMessages in H.
    destruct (updateSessions sessionId messages now (sessions st))
      as [next |] eqn:Hnext; [| discriminate].
    inversion H. subst st'. cbn [sessions currentSessionId] in *.
    rewrite (updateSessions_ids _ _ _ _ _ Hnext). now apply Hinv.
  - inversion H. subst st'. unfold deleteSession in *.
    cbn [sessions currentSessionId] in *.
    destruct (currentSessionId st) as [c |]; [| discriminate].
    destruct (eqb c sessionId) eqn:E; [discriminate |].
    inversion Hc. subst current.
    specialize (Hinv c eq_refl). unfold ids in *.
    apply in_map_iff in Hinv as (s & Hs & Hin).
    apply in_map_iff. exists s. split; [exact Hs |].
    apply filter_In. split; [exact Hin |]. now rewrite Hs, E.
  - inversion H. subst st'. unfold selectSession in *.
    destruct (nth_error (sessions st) position) as [s |] eqn:Hn.
    + cbn [sessions currentSessionId] in *. inversion Hc.
      apply in_ids. eapply nth_error_In; eassumption.
    + now apply Hinv.
  - inversion H. subst st'. cbn [sessions currentSessionId] in *.
    now apply Hinv.
  - inversion H. subst st'. cbn [sessions currentSessionId] in *.
    now apply Hinv.
Qed.

Lemma run_current_exists (evs : list Event) : forall st st' : State,
  run evs st = Normal st' -> current_exists st -> current_exists st'.
Proof.
  induction evs as [| ev evs IH]; intros st st' H Hinv; cbn [run] in H.
  - inversion H. now subst.
  - destruct (handle ev st) as [st1 |] eqn:Hst; [| discriminate].
    eapply IH; [exact H |]. eapply handle_current_exists; eassumption.
Qed.

Lemma initial_current_exists (saved : list ChatSession.t) :
  current_exists (initial saved).
Proof.
  unfold current_exists, initial. cbn.
  destruct saved as [| s rest]; [discriminate |].
  intros current H. inversion H. now left.
Qed.

Lemma find_named (current : text) (l : list ChatSession.t) :
  In current (ids l) ->
  exists s, find (fun s => eqb (ChatSession.id s) current) l = Some s
            /\ ChatSession.id s = current.
Proof.
  induction l as [| s l IH]; [intros [] |].
  cbn. intros [H | H].
  - exists s. now rewrite H, text_eqb_refl.
  - destruct (eqb (ChatSession.id s) current) eqn:E.
    + exists s. split; [reflexivity | now apply text_eqb_eq].
    + now apply IH.
Qed.

(** X19.  The current chat is always a chat of the list.  From whatever
    was read from storage and through new chats, updates, deletions and
    selections, a current id that is set names a session, so
    [currentSession] is found and the chat view shows that session's
    messages, never the empty fallback for a missing one. *)
Theorem current_chat_is_in_the_list :
  forall (saved : list ChatSession.t) (evs : list Event) (st : State),
    run evs (initial saved) = Normal st ->
    forall current,
      currentSessionId st = Some current ->
      In current (ids (sessions st))
      /\ exists s, currentSession st = Some s
                   /\ ChatSession.id s = current
                   /\ In s (sessions st).
Proof.
  intros saved evs st Hrun current Hc.
  pose proof (run_current_exists evs _ _ Hrun (initial_current_exists saved)
                current Hc) as Hin.
  split; [exact Hin |].
  destruct (find_named current (sessions st) Hin) as (s & Hfind & Hid).
  exists s. unfold currentSession. rewrite Hc.
  repeat split; [exact Hfind | exact Hid |].
  now apply find_some in Hfind as [H _].
Qed.

Lemma current_chat_is_in_the_list_witness :
  In (literal "1700000000000")
     (ids (sessions (deleteSession (literal "1700000000001")
                       (selectSession 1 two_chats)))).
Proof.
  refine (proj1 (current_chat_is_in_the_list
                   (sessions two_chats)
                   [Select 1; Delete (literal "1700000000001")]
                   _ eq_refl (literal "1700000000000") eq_refl)).
Defined.


(** ** Ids and titles over a run *)

Lemma NoDup_filter_ids (f : ChatSession.t -> bool) (m : list text)
    (l : list ChatSession.t) :
  NoDup (ids l ++ m) -> NoDup (ids (filter f l) ++ m).
Proof.
  unfold ids. induction l as [| s l IH]; [auto |].
  cbn [map app filter]. intros H. inversion H as [| ? ? Hnot Hrest].
  specialize (IH Hrest).
  destruct (f s); [| exact IH].
  cbn [map app]. constructor; [| exact IH].
  intros Hin. apply Hnot. apply in_app_or in Hin as [Hin | Hin].
  - apply in_or_app. left. apply in_map_iff in Hin as (y & Hx & Hfx).
    apply in_map_iff. exists y. split; [exact Hx |].
    now apply filter_In in Hfx as [Hfx _].
  - apply in_or_app. now right.
Qed.

Lemma run_ids_unique (evs : list Event) : forall st st' : State,
  NoDup (ids (sessions st) ++ map Number_toString (created evs)) ->
  run evs st = Normal st' -> NoDup (ids (sessions st')).
Proof.
  induction evs as [| ev evs IH]; intros st st' Hnd Hrun; cbn [run] in Hrun.
  - inversion Hrun. subst st'. cbn in Hnd. now rewrite app_nil_r in Hnd.
  - destruct (handle ev st) as [st1 |] eqn:Hst; [| discriminate].
    apply (IH st1 st'); [| exact Hrun].
    destruct ev as [n a b | sessionId messages now | sessionId | position |
                    m | open]; cbn [handle created flat_map app map] in *.
    + inversion Hst. subst st1. unfold createNewChat.
      cbn [sessions]. unfold ids in *. cbn [map ChatSession.id app].
      constructor; [now apply NoDup_remove_2 | now apply NoDup_remove_1 in Hnd].
    + unfold handleUpdateMessages in Hst.
      destruct (updateSessions sessionId messages now (sessions st))
        as [next |] eqn:Hnext; [| discriminate].
      inversion Hst. subst st1. cbn [sessions].
      now rewrite (updateSessions_ids _ _ _ _ _ Hnext).
    + inversion Hst. subst st1. unfold deleteSession. cbn [sessions].
      now apply NoDup_filter_ids.
    + inversion Hst. subst st1. unfold selectSession.
      now destruct (nth_error (sessions st) position).
    + inversion Hst. now subst st1.
    + inversion Hst. now subst st1.
Qed.

(** X20.  Chats keep distinct ids as long as the clock moves.  When the
    saved chats have distinct ids and every new chat of a run is made at a
    clock reading of its own, whose decimal digits are not the id of a
    saved chat, the chats of the list have distinct ids after the run; the
    current id then names exactly one chat. *)
Theorem ids_stay_distinct :
  forall (saved : list ChatSession.t) (evs : list Event) (st : State),
    NoDup (ids saved) -> NoDup (created evs) ->
    (forall now, In now (created evs) ->
                 ~ In (Number_toString now) (ids saved)) ->
    run evs (initial saved) = Normal st ->
    NoDup (ids (sessions st))
    /\ forall current,
         currentSessionId st = Some current ->
         exists s, named current (sessions st) = [s].
Proof.
  intros saved evs st Hsaved Hcreated Hfresh Hrun.
  assert (Hnd : NoDup (ids (sessions st))).
  { apply (run_ids_unique evs (initial saved) st); [| exact Hrun].
    cbn [initial sessions]. apply NoDup_app.
    - exact Hsaved.
    - clear - Hcreated. induction Hcreated as [| n l Hn _ IH];
        [constructor |].
      cbn [map]. constructor; [| exact IH].
      intros Hin. apply in_map_iff in Hin as (m & Hm & Hin).
      apply Number_toString_injective in Hm. now subst m.
    - intros x Hx Hin. apply in_map_iff in Hin as (n & <- & Hn).
      now apply (Hfresh n Hn). }
  split; [exact Hnd |].
  intros current Hc.
  pose proof (run_current_exists evs _ _ Hrun (initial_current_exists saved)
                current Hc) as Hin.
  clear - Hnd Hin. unfold named, ids in *.
  induction (sessions st) as [| s l IH]; [destruct Hin |].
  cbn [map] in *. inversion Hnd as [| ? ? Hnot Hrest].
  cbn [filter]. destruct (eqb (ChatSession.id s) current) eqn:E.
  - exists s. f_equal. apply text_eqb_eq in E.
    assert (Hnone : forall m, ~ In current (map ChatSession.id m) ->
                              filter (fun s0 => eqb (ChatSession.id s0) current)
                                     m = []).
    { induction m as [| z m IHm]; [reflexivity |].
      cbn. intros Hm. destruct (eqb (ChatSession.id z) current) eqn:Ex.
      - apply text_eqb_eq in Ex. exfalso. apply Hm. now left.
      - apply IHm. intros Hin'. apply Hm. now right. }
    apply Hnone. now rewrite <- E.
  - apply IH; [exact Hrest |].
    destruct Hin as [Hin | Hin]; [| exact Hin].
    apply text_eqb_neq in E. contradiction.
Qed.

Lemma ids_stay_distinct_witness :
  NoDup (ids (sessions (createNewChat 1700000000002 1700000000002
                          1700000000003 two_chats))).
Proof.
  refine (proj1 (ids_stay_distinct (sessions two_chats)
                   [NewChat 1700000000002 1700000000002 1700000000003]
                   _ _ _ _ eq_refl)).
  - repeat constructor; cbn; intros H;
      repeat (destruct H as [H | H]; [discriminate H |]); exact H.
  - repeat constructor. intros [].
  - intros now [<- | []]. cbn. intros H.
    repeat (destruct H as [H | H]; [discriminate H |]). exact H.
Defined.

Lemma updateSessions_keeps_title (sessionId title i : text)
    (messages : list Message.t) :
  is_placeholder title = false ->
  forall (prev : list ChatSession.t) (now : nat -> Z)
         (next : list ChatSession.t),
    updateSessions i messages now prev = Normal next ->
    (forall s, In s prev -> ChatSession.id s = sessionId ->
               ChatSession.title s = title) ->
    forall s, In s next -> ChatSession.id s = sessionId ->
              ChatSession.title s = title.
Proof.
  intros Hp.
  induction prev as [| x l IH]; intros now next Hnext Hinv s Hin Hid.
  - inversion Hnext. subst next. destruct Hin.
  - cbn [updateSessions] in Hnext.
    assert (Hrest : forall now' l',
                      updateSessions i messages now' l = Normal l' ->
                      In s l' -> ChatSession.title s = title).
    { intros now' l' Hl Hin'.
      apply (IH now' l' Hl (fun s0 H0 => Hinv s0 (or_intror H0)) s Hin' Hid). }
    destruct (eqb (ChatSession.id x) i) eqn:E.
    + destruct (newTitle x messages) as [t |] eqn:Ht; [| discriminate].
      destruct (updateSessions i messages (fun k => now (S k)) l)
        as [l' |] eqn:Hl; [| discriminate].
      inversion Hnext. subst next. destruct Hin as [Hs | Hin];
        [| now apply (Hrest _ l' Hl)].
      subst s. cbn [ChatSession.id ChatSession.title] in *.
      rewrite newTitle_placeholder in Ht.
      rewrite (Hinv x (or_introl eq_refl) Hid), Hp in Ht.
      now inversion Ht.
    + destruct (updateSessions i messages now l) as [l' |] eqn:Hl;
        [| discriminate].
      inversion Hnext. subst next. destruct Hin as [Hs | Hin];
        [| now apply (Hrest _ l' Hl)].
      subst s. now apply Hinv; [left |].
Qed.

Lemma handle_keeps_title (sessionId title : text) (ev : Event)
    (st st' : State) :
  is_placeholder title = false ->
  match ev with
  | NewChat now_id _ _ => Number_toString now_id <> sessionId
  | _ => True
  end ->
  handle ev st = Normal st' ->
  (forall s, In s (sessions st) -> ChatSession.id s = sessionId ->
             ChatSession.title s = title) ->
  forall s, In s (sessions st') -> ChatSession.id s = sessionId ->
            ChatSession.title s = title.
Proof.
  intros Hp Hev H Hinv s Hin Hid.
  destruct ev as [n a b | i messages now | i | position | m | open];
    cbn [handle] in H.
  - inversion H. subst st'. unfold createNewChat in Hin. cbn [sessions] in Hin.
    destruct Hin as [<- | Hin]; [cbn in Hid; contradiction | now apply Hinv].
  - unfold handleUpdateMessages in H.
    destruct (updateSessions i messages now (sessions st)) as [next |]
      eqn:Hnext; [| discriminate].
    inversion H. subst st'. cbn [sessions] in Hin.
    exact (updateSessions_keeps_title sessionId title i messages Hp
             _ _ _ Hnext Hinv s Hin Hid).
  - inversion H. subst st'. unfold deleteSession in Hin. cbn [sessions] in Hin.
    apply filter_In in Hin as [Hin _]. now apply Hinv.
  - inversion H. subst st'. unfold selectSession in Hin.
    destruct (nth_error (sessions st) position); now apply Hinv.
  - inversion H. subst st'. now apply Hinv.
  - inversion H. subst st'. now apply Hinv.
Qed.

(** X21.  A chat that has a title of its own keeps it.  Once the chats
    with some id carry a title other than [New Chat] and [Chat Session],
    no update, deletion, selection or new chat changes it, whatever
    messages the updates bring (new chats are taken to get other ids). *)
Theorem a_titled_chat_keeps_its_title :
  forall (sessionId title : text) (evs : list Event) (st st' : State),
    is_placeholder title = false ->
    (forall now, In now (created evs) -> Number_toString now <> sessionId) ->
    (forall s, In s (sessions st) -> ChatSession.id s = sessionId ->
               ChatSession.title s = title) ->
    run evs st = Normal st' ->
    forall s, In s (sessions st') -> ChatSession.id s = sessionId ->
              ChatSession.title s = title.
Proof.
  intros sessionId title evs. induction evs as [| ev evs IH];
    intros st st' Hp Hnew Hinv Hrun; cbn [run] in Hrun.
  - inversion Hrun. now subst st'.
  - destruct (handle ev st) as [st1 |] eqn:Hst; [| discriminate].
    apply (IH st1 st' Hp); [| | exact Hrun].
    + intros now Hin. apply Hnew. cbn [created flat_map].
      apply in_or_app. now right.
    + apply (handle_keeps_title sessionId title ev st st1 Hp); auto.
      destruct ev; auto. apply Hnew. cbn. now left.
Qed.

Lemma a_titled_chat_keeps_its_title_witness :
  exists st',
    run [UpdateMessages (literal "1700000000000")
           [said (literal "Something else") 7] (fun _ => 8);
         Select 0] two_chats = Normal st'
    /\ forall s, In s (sessions st') ->
                 ChatSession.id s = literal "1700000000000" ->
                 ChatSession.title s = literal "Trip plan".
Proof.
  eexists. split; [reflexivity |].
  apply (a_titled_chat_keeps_its_title (literal "1700000000000")
           (literal "Trip plan")
           [UpdateMessages (literal "1700000000000")
              [said (literal "Something else") 7] (fun _ => 8); Select 0]
           two_chats).
  - reflexivity.
  - intros now [].
  - intros s [<- | [<- | []]] H; [discriminate H | reflexivity].
  - reflexivity.
Defined.

End SessionListFacts.

(** * The composer *)

Module ComposerFacts.

Import JS Text Types Composer Facts TextFacts.


Lemma updates_app (cs cs' : list Call) :
  updates (cs ++ cs') = updates cs ++ updates cs'.
Proof. apply flat_map_app. Qed.

Lemma requests_app (cs cs' : list Call) :
  requests (cs ++ cs') = requests cs ++ requests cs'.
Proof. apply flat_map_app. Qed.

Lemma bind_ret {S A B} (a : A) (k : A -> M S B) (w : S) :
  bind (ret a) k w = k a w.
Proof. reflexivity. Qed.

Lemma performAIGeneration_spec (props : Props) (currentInput : text)
    (currentAttachments : list Attachment) (historyBefore : list Message.t)
    (w : World) :
  performAIGeneration props currentInput currentAttachments historyBefore w
  = (Normal tt,
     mkWorld (input w) true (isListening w) (attachments w) (editingIdx w)
       (editValue w)
       (pending w ++ [(fresh w, (sessionId props, historyBefore))])
       (calls w
        ++ [Fetch (fresh w) (contentsParts currentInput currentAttachments)])
       (S (fresh w))).
Proof. reflexivity. Qed.

Ltac fields :=
  cbn [input isLoading isListening attachments editingIdx editValue pending
       calls fresh with_pending with_calls with_fresh with_isLoading
       with_input with_attachments with_editingIdx].

Lemma handleSubmit_spec (props : Props) (now : Z) (w : World) :
  handleSubmit props now w
  = if refused w then (Normal tt, w)
    else
      (Normal tt,
       mkWorld [] true (isListening w) [] (editingIdx w) (editValue w)
         (pending w
          ++ [(fresh w,
               (sessionId props,
                initialMessages props ++ [userMessage w now]))])
         ((calls w
           ++ [OnUpdateMessages (sessionId props)
                 (initialMessages props ++ [userMessage w now])])
          ++ (if isListening w then [RecognitionStop] else [])
          ++ [Fetch (fresh w) (contentsParts (input w) (attachments w))])
         (S (fresh w))).
Proof.
  unfold handleSubmit, refused. rewrite !bind_read.
  destruct (_ || _); [reflexivity |].
  unfold call. rewrite !bind_write, bind_read. fields.
  destruct (isListening w) eqn:El;
    [rewrite bind_write | rewrite bind_ret];
    rewrite performAIGeneration_spec; fields;
    rewrite ?El, <- ?app_assoc; reflexivity.
Qed.



Lemma reply_is_reply (data : Data.t) (now : Z) :
  is_reply (reply data now) /\ Message.timestamp (reply data now) = now.
Proof.
  unfold reply, is_reply.
  destruct (match Data.type data with
            | Some t => eqb t (literal "image")
            | None => false
            end).
  - destruct (find _ _) as [[[inline |]] |]; cbn;
      (split; [split; [reflexivity | eexists; split; [reflexivity | discriminate]]
              | reflexivity]).
  - cbn. split; [| reflexivity]. split; [reflexivity |].
    eexists. split; [reflexivity |].
    unfold truthy. destruct (Data.text data) as [[| c t] |]; discriminate.
Qed.

Lemma resume_spec (callback : text) (historyBefore : list Message.t)
    (answer : Answer) (now : Z) (w : World) :
  performAIGeneration_resume callback historyBefore answer now w
  = (Normal tt,
     mkWorld (input w) false (isListening w) (attachments w) (editingIdx w)
       (editValue w) (pending w)
       (calls w
        ++ [OnUpdateMessages callback
              (historyBefore
               ++ [match answer with
                   | Response true data => reply data now
                   | _ => offline now
                   end])])
       (fresh w)).
Proof.
  unfold performAIGeneration_resume.
  destruct answer as [e | [|] data]; reflexivity.
Qed.

Lemma answered_spec (request : nat) (answer : Answer) (now : Z) (w : World)
    (callback : text) (historyBefore : list Message.t) :
  find (fun p => Nat.eqb (fst p) request) (pending w)
  = Some (request, (callback, historyBefore)) ->
  answered request answer now w
  = (Normal tt,
     mkWorld (input w) false (isListening w) (attachments w) (editingIdx w)
       (editValue w)
       (filter (fun p => negb (Nat.eqb (fst p) request)) (pending w))
       (calls w
        ++ [OnUpdateMessages callback
              (historyBefore
               ++ [match answer with
                   | Response true data => reply data now
                   | _ => offline now
                   end])])
       (fresh w)).
Proof.
  intros Hfind. unfold answered. rewrite bind_read, Hfind, bind_write.
  now rewrite resume_spec.
Qed.

Lemma offline_is_reply (now : Z) : is_reply (offline now).
Proof.
  split; [reflexivity |]. eexists. split; [reflexivity | discriminate].
Qed.

(** X23.  Every answer ends the exchange with exactly one reply.  When
    the answer to a pending request arrives, whatever it is, the component
    hands the parent the history of the request with one model message
    added, through the callback of the render that sent the request, and
    turns the loading flag off.  The reply has one non-empty text part and
    the time of the answer; it is the offline notice whenever the request
    failed or the response was not [ok], so the error text of the server
    is never shown. *)
Theorem every_answer_appends_one_reply :
  forall (request : nat) (answer : Answer) (now : Z) (w : World)
         (callback : text) (historyBefore : list Message.t),
    find (fun p => Nat.eqb (fst p) request) (pending w)
    = Some (request, (callback, historyBefore)) ->
    exists m,
      answered request answer now w
      = (Normal tt,
         mkWorld (input w) false (isListening w) (attachments w)
           (editingIdx w) (editValue w)
           (filter (fun p => negb (Nat.eqb (fst p) request)) (pending w))
           (calls w ++ [OnUpdateMessages callback (historyBefore ++ [m])])
           (fresh w))
      /\ is_reply m
      /\ Message.timestamp m = now
      /\ (match answer with
          | Response true _ => False
          | _ => True
          end -> m = offline now).
Proof.
  intros request answer now w callback historyBefore Hfind.
  exists (match answer with
          | Response true data => reply data now
          | _ => offline now
          end).
  split; [| split; [| split]].
  - now apply answered_spec.
  - destruct answer as [e | [|] data];
      try apply reply_is_reply;
      (split; [reflexivity | eexists; split; [reflexivity | discriminate]]).
  - destruct answer as [e | [|] data]; try reflexivity. apply reply_is_reply.
  - destruct answer as [e | [|] data]; [reflexivity | intros [] | reflexivity].
Qed.

Lemma every_answer_appends_one_reply_witness :
  exists m,
    answered 0 (Failed TypeError) 9
      (snd (handleSubmit (mkProps (literal "1700000000000") []) 5
              (with_input (literal "hello") initial)))
    = (Normal tt,
       mkWorld [] false false [] None []
         []
         (calls (snd (handleSubmit (mkProps (literal "1700000000000") []) 5
                        (with_input (literal "hello") initial)))
          ++ [OnUpdateMessages (literal "1700000000000")
                ([userMessage (with_input (literal "hello") initial) 5]
                 ++ [m])])
         1)
    /\ m = offline 9.
Proof.
  destruct (every_answer_appends_one_reply 0 (Failed TypeError) 9
              (snd (handleSubmit (mkProps (literal "1700000000000") []) 5
                      (with_input (literal "hello") initial)))
              (literal "1700000000000")
              [userMessage (with_input (literal "hello") initial) 5]
              eq_refl) as (m & H1 & _ & _ & H4).
  exists m. split; [exact H1 | exact (H4 I)].
Defined.

(** X24.  Saving an edited message cuts the history there.  The parent
    is handed the messages before the edited one and the edited one with
    the new text in place of its parts, its role, time and attachments
    kept: everything after it is dropped.  One request is sent with the
    new text and the attachments of the message, the editor is closed and
    the loading flag turned on; the save is not held back by a request
    under way, so a second request can be pending. *)
Theorem saving_an_edit_cuts_the_history :
  forall (props : Props) (w : World) (idx : nat) (msg : Message.t),
    editingIdx w = Some idx ->
    nth_error (initialMessages props) idx = Some msg ->
    exists edited,
      updates (calls (snd (saveEdit props w)))
      = updates (calls w)
        ++ [(sessionId props, firstn idx (initialMessages props) ++ [edited])]
      /\ List.length (firstn idx (initialMessages props) ++ [edited]) = S idx
      /\ edited = Message.mk (Message.role msg) [editValue w]
                    (Message.timestamp msg) (Message.attachments msg)
                    (Message.isImage msg)
      /\ requests (calls (snd (saveEdit props w)))
         = requests (calls w)
           ++ [(fresh w,
                contentsParts (editValue w)
                  (match Message.attachments msg with
                   | Some l => l
                   | None => []
                   end))]
      /\ editingIdx (snd (saveEdit props w)) = None
      /\ isLoading (snd (saveEdit props w)) = true
      /\ List.length (pending (snd (saveEdit props w)))
         = S (List.length (pending w)).
Proof.
  intros props w idx msg Hidx Hmsg.
  eexists. 
  assert (Hw : saveEdit props w
               = (Normal tt,
                  mkWorld (input w) true (isListening w) (attachments w) None
                    (editValue w)
                    (pending w
                     ++ [(fresh w,
                          (sessionId props,
                           firstn idx (initialMessages props)
                           ++ [Message.mk (Message.role msg) [editValue w]
                                 (Message.timestamp msg)
                                 (Message.attachments msg)
                                 (Message.isImage msg)]))])
                    ((calls w
                      ++ [OnUpdateMessages (sessionId props)
                            (firstn idx (initialMessages props)
                             ++ [Message.mk (Message.role msg) [editValue w]
                                   (Message.timestamp msg)
                                   (Message.attachments msg)
                                   (Message.isImage msg)])])
                     ++ [Fetch (fresh w)
                           (contentsParts (editValue w)
                              (match Message.attachments msg with
                               | Some l => l
                               | None => []
                               end))])
                    (S (fresh w)))).
  { unfold saveEdit. rewrite !bind_read, Hidx, Hmsg.
    unfold call. rewrite !bind_write, performAIGeneration_spec. fields.
    rewrite <- ?app_assoc. reflexivity. }
  rewrite Hw. cbn [snd calls editingIdx isLoading pending].
  split; [| split; [| split; [reflexivity | split; [| split; [| split]]]]].
  - rewrite !updates_app. cbn. now rewrite app_nil_r.
  - rewrite length_app, length_firstn. cbn.
    assert (idx < List.length (initialMessages props))%nat
      by (apply nth_error_Some; congruence).
    lia.
  - rewrite !requests_app. cbn. now rewrite app_nil_r.
  - reflexivity.
  - reflexivity.
  - rewrite length_app. cbn. lia.
Qed.

Lemma saving_an_edit_cuts_the_history_witness :
  exists edited,
    updates
      (calls
         (snd (saveEdit
                 (mkProps (literal "1700000000000")
                    [userMessage (with_input (literal "first") initial) 1;
                     offline 2;
                     userMessage (with_input (literal "second") initial) 3])
                 (with_editingIdx (Some 0%nat) initial))))
    = [(literal "1700000000000", [edited])].
Proof.
  destruct (saving_an_edit_cuts_the_history
              (mkProps (literal "1700000000000")
                 [userMessage (with_input (literal "first") initial) 1;
                  offline 2;
                  userMessage (with_input (literal "second") initial) 3])
              (with_editingIdx (Some 0%nat) initial) 0
              (userMessage (with_input (literal "first") initial) 1)
              eq_refl eq_refl) as (edited & H & _).
  exists edited. exact H.
Defined.

End ComposerFacts.

(** * The serverless handler *)

Module ApiFacts.

Import JS Text Api Facts.

Lemma generateContent_spec (answer : Answer) (model : string)
    (contents : option (list Content.t)) (config : Config)
    (cs : list Call) :
  generateContent answer model contents config cs
  = (Normal match answer with
            | Thrown message => inl message
            | Returned response => inr response
            end,
     cs ++ [GenerateContent model contents config]).
Proof. reflexivity. Qed.

(** The body of an error answer is never empty. *)
Lemma failed_reports (message : option text) :
  match truthy message with
  | Some m => m
  | None => literal "AI processing failed."
  end <> [].
Proof.
  destruct message as [[| c m] |]; cbn; discriminate.
Qed.

(** The handler, case by case. *)
Lemma handler_cases (toLowerCase : text -> text) (API_KEY : option text)
    (req : Request) (answer : Answer) (cs : list Call) :
  handler toLowerCase API_KEY req answer cs
  = if negb (eqb (method req) (literal "POST"))
    then (Normal (mkResponse 405 (ErrorJson (literal "Method not allowed"))),
          cs)
    else
      match body req with
      | None => (Throw TypeError, cs)
      | Some fields =>
          match truthy API_KEY with
          | None =>
              (Normal
                 (mkResponse 500
                    (ErrorJson
                       (literal
                          "Server configuration error: API Key missing."))),
               cs)
          | Some _ =>
              let call :=
                if match Body.type fields with
                   | Some t => eqb t (literal "tts")
                   | None => false
                   end
                then GenerateContent "gemini-2.5-flash-preview-tts"
                       (Some [Content.mk
                                (Some [Part.mk (Body.text fields) None])])
                       (SpeechConfig "Fenrir")
                else if isImageGen toLowerCase (Body.contents fields)
                then GenerateContent "gemini-2.5-flash-image"
                       (Body.contents fields) (ImageConfig "1:1")
                else GenerateContent "gemini-3-flash-preview"
                       (Body.contents fields)
                       (GenerationConfig (Body.systemInstruction fields)) in
              (Normal
                 match answer with
                 | Thrown message =>
                     mkResponse 500
                       (ErrorJson match truthy message with
                                  | Some m => m
                                  | None => literal "AI processing failed."
                                  end)
                 | Returned response =>
                     mkResponse 200
                       (if match Body.type fields with
                           | Some t => eqb t (literal "tts")
                           | None => false
                           end
                        then AudioJson (audioData response)
                        else if isImageGen toLowerCase (Body.contents fields)
                        then ImageJson match first_parts response with
                                       | Some parts => parts
                                       | None => []
                                       end
                        else TextJson (GenerateContentResponse.text response))
                 end,
               cs ++ [call])
          end
      end.
Proof.
  unfold handler.
  destruct (negb (eqb (method req) (literal "POST"))); [reflexivity |].
  destruct (body req) as [fields |]; [| reflexivity].
  destruct (truthy API_KEY); [| reflexivity].
  cbv zeta.
  destruct (match Body.type fields with
            | Some t => eqb t (literal "tts")
            | None => false
            end);
    [| destruct (isImageGen toLowerCase (Body.contents fields))];
    unfold bind; rewrite generateContent_spec; destruct answer; reflexivity.
Qed.

(** X25.  What a client can rely on from the handler.  It answers 405,
    500 or 200 and nothing else, or throws before answering: that happens
    only to a POST without a body.  It asks the model service at most once,
    and never for a request that is not a POST or when no API key is
    configured.  An answer other than 200 always carries a non-empty error
    text; 405 is the answer exactly to the requests that are not a POST;
    200 is given only when the one call to the service returned. *)
Theorem handler_contract :
  forall (toLowerCase : text -> text) (API_KEY : option text)
         (req : Request) (answer : Answer) (cs : list Call),
    exists made,
      snd (handler toLowerCase API_KEY req answer cs) = cs ++ made
      /\ (List.length made <= 1)%nat
      /\ (made <> [] ->
          method req = literal "POST" /\ truthy API_KEY <> None)
      /\ match fst (handler toLowerCase API_KEY req answer cs) with
         | Throw e =>
             e = TypeError /\ body req = None /\ made = []
             /\ method req = literal "POST"
         | Normal r =>
             (status r = 200 \/ status r = 405 \/ status r = 500)
             /\ (status r = 405 <-> method req <> literal "POST")
             /\ (status r <> 200 -> reports_error r /\ ok r = false)
             /\ (status r = 200 ->
                 ok r = true
                 /\ exists response model contents config,
                      answer = Returned response
                      /\ made = [GenerateContent model contents config])
         end.
Proof.
  intros toLowerCase API_KEY req answer cs.
  rewrite handler_cases.
  destruct (eqb (method req) (literal "POST")) eqn:Em; cbn [negb].
  - apply TextFacts.text_eqb_eq in Em.
    destruct (body req) as [fields |].
    + destruct (truthy API_KEY) as [key |] eqn:Ek.
      * cbv zeta.
        match goal with
        | |- context [cs ++ [?c]] => destruct c as [model contents config]
        end.
        eexists. cbn [fst snd]. split; [reflexivity |].
        split; [cbn; lia |]. split; [intros _; split; [exact Em | discriminate] |].
        destruct answer as [message | response]; cbn [status json].
        -- split; [auto |]. split; [split; [discriminate | congruence] |].
           split; [| discriminate].
           intros _. split; [| reflexivity].
           eexists. split; [reflexivity | apply failed_reports].
        -- split; [auto |]. split; [split; [discriminate | congruence] |].
           split; [congruence |]. intros _. split; [reflexivity |].
           do 4 eexists. split; reflexivity.
      * exists []. cbn [fst snd]. rewrite app_nil_r.
        split; [reflexivity |]. split; [cbn; lia |].
        split; [congruence |]. cbn [status json].
        split; [auto |]. split; [split; [discriminate | congruence] |].
        split; [| discriminate]. intros _. split; [| reflexivity].
        eexists. split; [reflexivity | discriminate].
    + exists []. cbn [fst snd]. rewrite app_nil_r.
      split; [reflexivity |]. split; [cbn; lia |]. split; [congruence |].
      now repeat split.
  - apply TextFacts.text_eqb_neq in Em.
    exists []. cbn [fst snd]. rewrite app_nil_r.
    split; [reflexivity |]. split; [cbn; lia |]. split; [congruence |].
    cbn [status json].
    split; [auto |]. split; [now split |].
    split; [| discriminate]. intros _. split; [| reflexivity].
    eexists. split; [reflexivity | discriminate].
Qed.

Lemma handler_contract_witness :
  exists r,
    fst (handler as_written None (speech_request (literal "hello"))
           (Thrown None) [])
    = Normal r
    /\ reports_error r /\ ok r = false.
Proof.
  destruct (handler_contract as_written None
              (speech_request (literal "hello")) (Thrown None) [])
    as (made & _ & _ & _ & H).
  change (fst (handler as_written None (speech_request (literal "hello"))
                 (Thrown None) []))
    with (Normal
            (mkResponse 500
               (ErrorJson
                  (literal "Server configuration error: API Key missing."))))
    in H.
  destruct H as (_ & _ & H & _).
  eexists. split; [reflexivity |]. apply H. discriminate.
Defined.

End ApiFacts.

(** * The components together *)

Module WiringFacts.

Import JS Text Types Facts TextFacts Wiring.

(** ** Speech: [handleSpeak] and the handler *)




(** ** Chat: [performAIGeneration] and the handler *)

Lemma chat_handler (toLowerCase : text -> text) (API_KEY : option text)
    (systemInstruction : text) (contentsParts : list Composer.ContentPart)
    (answer : Api.Answer) :
  exists r made,
    Api.handler toLowerCase API_KEY
      (chat_request systemInstruction contentsParts) answer []
    = (Normal r, made)
    /\ made
       = match Text.truthy API_KEY with
         | None => []
         | Some _ =>
             [if Api.isImageGen toLowerCase
                   (Some [Api.Content.mk (Some (map part_of contentsParts))])
              then Api.GenerateContent "gemini-2.5-flash-image"
                     (Some [Api.Content.mk
                              (Some (map part_of contentsParts))])
                     (Api.ImageConfig "1:1")
              else Api.GenerateContent "gemini-3-flash-preview"
                     (Some [Api.Content.mk
                              (Some (map part_of contentsParts))])
                     (Api.GenerationConfig (Some systemInstruction))]
         end
    /\ ((Api.status r = 500 /\ exists error, Api.json r = Api.ErrorJson error)
        \/ (Api.status r = 200
            /\ exists response,
                 answer = Api.Returned response
                 /\ ((Api.json r
                      = Api.TextJson (Api.GenerateContentResponse.text response)
                      /\ made
                         = [Api.GenerateContent "gemini-3-flash-preview"
                              (Some [Api.Content.mk
                                       (Some (map part_of contentsParts))])
                              (Api.GenerationConfig (Some systemInstruction))])
                     \/ (Api.json r
                         = Api.ImageJson
                             match Api.first_parts response with
                             | Some parts => parts
                             | None => []
                             end
                         /\ made
                            = [Api.GenerateContent "gemini-2.5-flash-image"
                                 (Some [Api.Content.mk
                                          (Some (map part_of contentsParts))])
                                 (Api.ImageConfig "1:1")])))).
Proof.
  rewrite ApiFacts.handler_cases. unfold chat_request.
  cbn [Api.method Api.body Api.Body.type Api.Body.text Api.Body.contents
       Api.Body.systemInstruction].
  assert (H1 : eqb (literal "POST") (literal "POST") = true)
    by apply text_eqb_refl.
  rewrite H1. cbn [negb].
  destruct (Text.truthy API_KEY).
  - cbv zeta.
    destruct (Api.isImageGen toLowerCase _);
      destruct answer as [message | response];
      eexists; eexists; (split; [reflexivity |]); cbn [Api.status Api.json app];
      (split; [reflexivity |]);
      try (left; split; [reflexivity | eexists; reflexivity]);
      right; (split; [reflexivity |]); exists response;
      (split; [reflexivity |]); [right | left]; split; reflexivity.
  - eexists. eexists. split; [reflexivity |]. split; [reflexivity |].
    left. split; [reflexivity | eexists; reflexivity].
Qed.

(** X27.  What the user sees for each outcome of the server.  With no
    API key the handler calls no model.  With a key it makes one call:
    when the prompt asks for an image, to [gemini-2.5-flash-image] with
    the contents and the aspect ratio and without the system prompt, else
    to [gemini-3-flash-preview] with the contents and the system prompt;
    a text answer comes from the latter, an image answer from the former.
    Whenever the handler answers 500 (no key, or the model failed) the
    reply added to the chat is the offline notice, not the error text of
    the handler.  When the text model returned, the reply is its text, or
    the notice [No response from WASO.] when there is none.  When the
    image model returned, the reply is flagged as an image exactly when a
    part of the answer carries inline data. *)
Theorem chat_reply_for_each_server_outcome :
  forall (toLowerCase : text -> text) (API_KEY : option text)
         (systemInstruction : text)
         (contentsParts : list Composer.ContentPart) (answer : Api.Answer)
         (request : nat) (now : Z) (w : Composer.World) (callback : text)
         (historyBefore : list Message.t),
    find (fun p => Nat.eqb (fst p) request) (Composer.pending w)
    = Some (request, (callback, historyBefore)) ->
    exists r made m,
      Api.handler toLowerCase API_KEY
        (chat_request systemInstruction contentsParts) answer []
      = (Normal r, made)
      /\ made
         = match Text.truthy API_KEY with
           | None => []
           | Some _ =>
               [if Api.isImageGen toLowerCase
                     (Some [Api.Content.mk
                              (Some (map part_of contentsParts))])
                then Api.GenerateContent "gemini-2.5-flash-image"
                       (Some [Api.Content.mk
                                (Some (map part_of contentsParts))])
                       (Api.ImageConfig "1:1")
                else Api.GenerateContent "gemini-3-flash-preview"
                       (Some [Api.Content.mk
                                (Some (map part_of contentsParts))])
                       (Api.GenerationConfig (Some systemInstruction))]
           end
      /\ new_updates w
           (snd (Composer.answered request (chat_answer r) now w))
         = [(callback, historyBefore ++ [m])]
      /\ Composer.isLoading
           (snd (Composer.answered request (chat_answer r) now w))
         = false
      /\ (Api.status r <> 200 -> m = Composer.offline now)
      /\ (forall t, Api.status r = 200 -> Api.json r = Api.TextJson t ->
                    made
                    = [Api.GenerateContent "gemini-3-flash-preview"
                         (Some [Api.Content.mk
                                  (Some (map part_of contentsParts))])
                         (Api.GenerationConfig (Some systemInstruction))]
                    /\ m = Message.mk model
                             [match Text.truthy t with
                              | Some t' => t'
                              | None => literal "No response from WASO."
                              end] now None None)
      /\ (forall parts, Api.status r = 200 ->
                        Api.json r = Api.ImageJson parts ->
                        made
                        = [Api.GenerateContent "gemini-2.5-flash-image"
                             (Some [Api.Content.mk
                                      (Some (map part_of contentsParts))])
                             (Api.ImageConfig "1:1")]
                        /\ (Message.isImage m = Some true
                            <-> exists part,
                                  In part parts
                                  /\ Api.Part.inlineData part <> None)).
Proof.
  intros toLowerCase API_KEY systemInstruction contentsParts answer request
    now w callback historyBefore Hfind.
  destruct (chat_handler toLowerCase API_KEY systemInstruction contentsParts
              answer) as (r & made & Hh & Hmade & Hshape).
  exists r, made,
    (match chat_answer r with
     | Composer.Response true data => Composer.reply data now
     | _ => Composer.offline now
     end).
  split; [exact Hh |]. split; [exact Hmade |]. clear Hmade.
  assert (Hw : Composer.answered request (chat_answer r) now w
               = (Normal tt,
                  Composer.mkWorld (Composer.input w) false
                    (Composer.isListening w) (Composer.attachments w)
                    (Composer.editingIdx w) (Composer.editValue w)
                    (filter (fun p => negb (Nat.eqb (fst p) request))
                            (Composer.pending w))
                    (Composer.calls w
                     ++ [Composer.OnUpdateMessages callback
                           (historyBefore
                            ++ [match chat_answer r with
                                | Composer.Response true data =>
                                    Composer.reply data now
                                | _ => Composer.offline now
                                end])])
                    (Composer.fresh w))).
  { now apply ComposerFacts.answered_spec. }
  rewrite Hw. cbn [snd Composer.isLoading Composer.calls].
  split.
  { unfold new_updates. cbn [Composer.calls].
    rewrite ComposerFacts.updates_app.
    rewrite skipn_app, skipn_all, Nat.sub_diag. reflexivity. }
  split; [reflexivity |].
  unfold chat_answer, Api.ok.
  destruct Hshape as [(Hst & error & Hj) | (Hst & response & _ & Hcase)];
    rewrite Hst; cbn [Z.leb Z.ltb Z.compare andb Pos.compare Pos.compare_cont].
  - split; [reflexivity |]. split; intros; congruence.
  - split; [congruence |].
    destruct Hcase as [[Hj Hm] | [Hj Hm]]; unfold data_of; rewrite Hj.
    + split.
      * intros t _ Ht. split; [exact Hm |].
        inversion Ht. subst t. unfold Composer.reply.
        cbn [Composer.Data.type Composer.Data.text].
        assert (E : eqb (literal "text") (literal "image") = false)
          by reflexivity.
        now rewrite E.
      * intros parts _ H. discriminate H.
    + split; [intros t _ H; discriminate H |].
      intros parts _ Hp. split; [exact Hm |].
      inversion Hp as [Hparts]. clear Hp.
      unfold Composer.reply. cbn [Composer.Data.type Composer.Data.parts].
      assert (E : eqb (literal "image") (literal "image") = true)
        by reflexivity.
      rewrite E. clear E Hj.
      generalize (match Api.first_parts response with
                  | Some l => l
                  | None => []
                  end).
      intros l. induction l as [| part l IH].
      * cbn. split; [discriminate |]. intros (p & [] & _).
      * cbn [map find Composer.DataPart.inlineData].
        destruct (Api.Part.inlineData part) as [[d mt] |] eqn:Ei.
        -- cbn. split; [intros _ | reflexivity].
           exists part. split; [now left | congruence].
        -- rewrite IH. split.
           ++ intros (p & Hin & Hp). exists p. split; [now right | exact Hp].
           ++ intros (p & [<- | Hin] & Hp); [congruence |].
              exists p. now split.
Qed.

(** X27 where the key is set and the model fails: the text model was
    called with the system prompt, and the chat gets the offline
    notice. *)
Lemma chat_reply_for_each_server_outcome_witness :
  exists r made m,
    Api.handler Api.as_written (Some (literal "key"))
      (chat_request (literal "You are WASO.")
         (Composer.contentsParts (literal "hello") []))
      (Api.Thrown None) []
    = (Normal r, made)
    /\ made
       = [Api.GenerateContent "gemini-3-flash-preview"
            (Some [Api.Content.mk
                     (Some (map part_of
                              (Composer.contentsParts (literal "hello")
                                 [])))])
            (Api.GenerationConfig (Some (literal "You are WASO.")))]
    /\ new_updates
         (snd (Composer.handleSubmit
                 (Composer.mkProps (literal "1700000000000") []) 5
                 (Composer.with_input (literal "hello") Composer.initial)))
         (snd (Composer.answered 0 (chat_answer r) 9
                 (snd (Composer.handleSubmit
                         (Composer.mkProps (literal "1700000000000") []) 5
                         (Composer.with_input (literal "hello")
                            Composer.initial)))))
       = [(literal "1700000000000",
           [Composer.userMessage
              (Composer.with_input (literal "hello") Composer.initial) 5]
           ++ [m])].
Proof.
  destruct (chat_reply_for_each_server_outcome Api.as_written
              (Some (literal "key"))
              (literal "You are WASO.")
              (Composer.contentsParts (literal "hello") [])
              (Api.Thrown None) 0 9
              (snd (Composer.handleSubmit
                      (Composer.mkProps (literal "1700000000000") []) 5
                      (Composer.with_input (literal "hello")
                         Composer.initial)))
              (literal "1700000000000")
              [Composer.userMessage
                 (Composer.with_input (literal "hello") Composer.initial) 5]
              eq_refl)
    as (r & made & m & H1 & Hmade & H2 & _).
  exists r, made, m. split; [exact H1 |]. split; [| exact H2].
  rewrite Hmade. vm_compute. reflexivity.
Defined.


(** ** Chat: the composer and the session list *)

Lemma props_of_current (st : AppSessions.State) (props : Composer.Props) :
  props_of st = Some props ->
  AppSessions.currentSessionId st = Some (Composer.sessionId props).
Proof.
  unfold props_of. destruct (AppSessions.mode st); [| discriminate].
  destruct (AppSessions.currentSessionId st) as [[| c current] |];
    cbn; try discriminate.
  intros H. inversion H. reflexivity.
Qed.

Lemma handle_keeps_chat (sessionId : text) (ev : AppSessions.Event)
    (st st' : AppSessions.State) :
  match ev with
  | AppSessions.Delete other => other <> sessionId
  | _ => True
  end ->
  AppSessions.handle ev st = Normal st' ->
  In sessionId (AppSessions.ids (AppSessions.sessions st)) ->
  In sessionId (AppSessions.ids (AppSessions.sessions st')).
Proof.
  intros Hev H Hin.
  destruct ev as [n a b | i messages now | i | position | m | open];
    cbn [AppSessions.handle] in H.
  - inversion H. subst st'. now right.
  - unfold AppSessions.handleUpdateMessages in H.
    destruct (AppSessions.updateSessions i messages now
                (AppSessions.sessions st)) as [next |] eqn:Hnext;
      [| discriminate].
    inversion H. subst st'. cbn [AppSessions.sessions].
    now rewrite (SessionListFacts.updateSessions_ids _ _ _ _ _ Hnext).
  - inversion H. subst st'. unfold AppSessions.deleteSession.
    cbn [AppSessions.sessions]. unfold AppSessions.ids in *.
    apply in_map_iff in Hin as (s & Hs & Hin).
    apply in_map_iff. exists s. split; [exact Hs |].
    apply filter_In. split; [exact Hin |].
    apply negb_true_iff, text_eqb_neq. congruence.
  - inversion H. subst st'. unfold AppSessions.selectSession.
    now destruct (nth_error (AppSessions.sessions st) position).
  - inversion H. now subst st'.
  - inversion H. now subst st'.
Qed.

Lemma run_keeps_chat (sessionId : text) (evs : list AppSessions.Event) :
  forall st st' : AppSessions.State,
    (forall other, In (AppSessions.Delete other) evs -> other <> sessionId) ->
    AppSessions.run evs st = Normal st' ->
    In sessionId (AppSessions.ids (AppSessions.sessions st)) ->
    In sessionId (AppSessions.ids (AppSessions.sessions st')).
Proof.
  induction evs as [| ev evs IH]; intros st st' Hdel Hrun Hin;
    cbn [AppSessions.run] in Hrun.
  - inversion Hrun. now subst st'.
  - destruct (AppSessions.handle ev st) as [st1 |] eqn:Hst; [| discriminate].
    apply (IH st1 st'); [| exact Hrun |].
    + intros other Ho. apply Hdel. now right.
    + apply (handle_keeps_chat sessionId ev st st1); [| exact Hst | exact Hin].
      destruct ev; auto. apply Hdel. now left.
Qed.

Lemma updated_named (sessionId : text) (messages : list Message.t)
    (prev next : list ChatSession.t) :
  Forall2 (AppSessions.updated sessionId messages) prev next ->
  forall s, In s next -> ChatSession.id s = sessionId ->
            ChatSession.messages s = messages.
Proof.
  induction 1 as [| x y prev next Hxy _ IH]; intros s Hin Hid;
    [destruct Hin |].
  destruct Hin as [<- | Hin]; [| now apply IH].
  unfold AppSessions.updated in Hxy.
  destruct (eqb (ChatSession.id x) sessionId) eqn:E.
  - now destruct Hxy as (_ & Hm & _).
  - subst y. apply text_eqb_neq in E. contradiction.
Qed.

Lemma find_pending_new (request : nat) (entry : text * list Message.t)
    (l : list (nat * (text * list Message.t))) :
  Forall (fun p => (fst p < request)%nat) l ->
  find (fun p => Nat.eqb (fst p) request) (l ++ [(request, entry)])
  = Some (request, entry).
Proof.
  induction 1 as [| p l Hp _ IH]; cbn [app find fst].
  - now rewrite Nat.eqb_refl.
  - destruct (Nat.eqb_spec (fst p) request); [lia | exact IH].
Qed.

Lemma new_updates_added (w w' : Composer.World)
    (added : list Composer.Call) :
  Composer.calls w' = Composer.calls w ++ added ->
  new_updates w w' = Composer.updates added.
Proof.
  intros H. unfold new_updates.
  rewrite H, ComposerFacts.updates_app, skipn_app, skipn_all, Nat.sub_diag.
  reflexivity.
Qed.

(** X28.  An exchange lands in the chat it was started in.  A message
    is submitted in the current chat of the application, the application
    goes on (other chats are opened, made and deleted, this one is not
    deleted), and the answer arrives.  Then the application takes the
    update without error, the chat is still in the list, and its messages
    are the history shown at the submit, the user message and one reply of
    the model: the reply goes to the chat it was asked in, also when that
    chat is no longer the current one.  The loading flag is off again and
    the ids of the list are as before the answer. *)
Theorem an_exchange_lands_in_its_chat :
  forall (saved : list ChatSession.t) (before : list AppSessions.Event)
         (st : AppSessions.State) (props : Composer.Props)
         (w : Composer.World) (now : Z) (now1 : nat -> nat -> Z)
         (st1 : AppSessions.State)
         (between : list AppSessions.Event) (st2 : AppSessions.State)
         (answer : Composer.Answer) (now2 : Z) (now3 : nat -> nat -> Z),
    AppSessions.run before (AppSessions.initial saved) = Normal st ->
    props_of st = Some props ->
    AppSessions.well_formed (Composer.initialMessages props) ->
    Composer.refused w = false ->
    Forall (fun p => (fst p < Composer.fresh w)%nat) (Composer.pending w) ->
    deliver (new_updates w (snd (Composer.handleSubmit props now w))) now1 st
    = Normal st1 ->
    (forall other, In (AppSessions.Delete other) between ->
                   other <> Composer.sessionId props) ->
    AppSessions.run between st1 = Normal st2 ->
    exists m st3,
      deliver
        (new_updates (snd (Composer.handleSubmit props now w))
           (snd (Composer.answered (Composer.fresh w) answer now2
                   (snd (Composer.handleSubmit props now w)))))
        now3 st2
      = Normal st3
      /\ Composer.is_reply m
      /\ Composer.isLoading
           (snd (Composer.answered (Composer.fresh w) answer now2
                   (snd (Composer.handleSubmit props now w))))
         = false
      /\ In (Composer.sessionId props)
            (AppSessions.ids (AppSessions.sessions st3))
      /\ AppSessions.ids (AppSessions.sessions st3)
         = AppSessions.ids (AppSessions.sessions st2)
      /\ forall s,
           In s (AppSessions.sessions st3) ->
           ChatSession.id s = Composer.sessionId props ->
           ChatSession.messages s
           = Composer.initialMessages props
             ++ [Composer.userMessage w now; m].
Proof.
  intros saved before st props w now now1 st1 between st2 answer now2 now3
    Hrun Hprops Hwf Hgo Hfresh Hsent Hdel Hbetween.
  set (sid := Composer.sessionId props) in *.
  set (hist := Composer.initialMessages props
               ++ [Composer.userMessage w now]).
  set (m := match answer with
            | Composer.Response true data => Composer.reply data now2
            | _ => Composer.offline now2
            end).
  assert (Hm : Composer.is_reply m).
  { unfold m. destruct answer as [e | [|] data];
      try apply ComposerFacts.offline_is_reply.
    apply ComposerFacts.reply_is_reply. }
  (* the submit *)
  pose proof (ComposerFacts.handleSubmit_spec props now w) as Hw.
  rewrite Hgo in Hw. apply (f_equal snd) in Hw. cbn [snd] in Hw.
  fold sid hist in Hw.
  set (w1 := snd (Composer.handleSubmit props now w)) in *.
  clearbody w1.
  assert (Hcalls : Composer.calls w1
                   = Composer.calls w
                     ++ ([Composer.OnUpdateMessages sid hist]
                         ++ (if Composer.isListening w
                             then [Composer.RecognitionStop] else [])
                         ++ [Composer.Fetch (Composer.fresh w)
                               (Composer.contentsParts (Composer.input w)
                                  (Composer.attachments w))]))
    by (rewrite Hw; cbn [Composer.calls]; now rewrite <- app_assoc).
  assert (Hpending : Composer.pending w1
                     = Composer.pending w
                       ++ [(Composer.fresh w, (sid, hist))])
    by now rewrite Hw.
  rewrite (new_updates_added w w1 _ Hcalls) in Hsent.
  assert (Hone : Composer.updates
                   ([Composer.OnUpdateMessages sid hist]
                    ++ (if Composer.isListening w
                        then [Composer.RecognitionStop] else [])
                    ++ [Composer.Fetch (Composer.fresh w)
                          (Composer.contentsParts (Composer.input w)
                             (Composer.attachments w))])
                 = [(sid, hist)])
    by (destruct (Composer.isListening w); reflexivity).
  rewrite Hone in Hsent. clear Hone Hw.
  (* the chat is there, and stays *)
  assert (Hin : In sid (AppSessions.ids (AppSessions.sessions st))).
  { apply (SessionListFacts.run_current_exists before _ _ Hrun
             (SessionListFacts.initial_current_exists saved)).
    now apply props_of_current. }
  assert (Hin1 : In sid (AppSessions.ids (AppSessions.sessions st1))).
  { cbn [deliver] in Hsent.
    destruct (AppSessions.handleUpdateMessages sid hist (now1 O) st)
      as [st' |] eqn:Hup; [| discriminate].
    inversion Hsent. subst st'.
    apply (handle_keeps_chat sid
             (AppSessions.UpdateMessages sid hist (now1 O))
             st st1 I Hup Hin). }
  pose proof (run_keeps_chat sid between st1 st2 Hdel Hbetween Hin1) as Hin2.
  (* the answer *)
  rewrite (ComposerFacts.answered_spec (Composer.fresh w) answer now2 w1
             sid hist)
    by (rewrite Hpending; now apply find_pending_new).
  fold m. cbn [snd Composer.isLoading].
  erewrite (new_updates_added w1) by reflexivity.
  cbn [Composer.updates flat_map app].
  assert (Hwf2 : AppSessions.well_formed (hist ++ [m])).
  { unfold AppSessions.well_formed, hist. rewrite !Forall_app.
    repeat split; [exact Hwf | |].
    - repeat constructor. discriminate.
    - repeat constructor. destruct Hm as (_ & t & -> & _). discriminate. }
  destruct (SessionListFacts.updateSessions_spec sid (hist ++ [m])
              (AppSessions.sessions st2) Hwf2 (now3 O))
    as (next & Hnext & Hrel & _).
  exists m. eexists.
  cbn [deliver]. unfold AppSessions.handleUpdateMessages. rewrite Hnext.
  split; [reflexivity |]. cbn [AppSessions.sessions].
  split; [exact Hm |]. split; [reflexivity |].
  rewrite (SessionListFacts.updated_ids _ _ _ _ Hrel).
  split; [exact Hin2 |]. split; [reflexivity |].
  intros s Hs Hid.
  rewrite (updated_named sid (hist ++ [m]) _ _ Hrel s Hs Hid).
  unfold hist. now rewrite <- app_assoc.
Qed.

Lemma an_exchange_lands_in_its_chat_witness :
  exists st1 st2 m st3,
    deliver
      (new_updates (Composer.with_input (literal "hello") Composer.initial)
         (snd (Composer.handleSubmit
                 (Composer.mkProps (literal "1700000000001") []) 5
                 (Composer.with_input (literal "hello") Composer.initial))))
      (fun _ _ => 6) AppSessions.two_chats
    = Normal st1
    /\ AppSessions.run [AppSessions.Select 1] st1 = Normal st2
    /\ deliver
         (new_updates
            (snd (Composer.handleSubmit
                    (Composer.mkProps (literal "1700000000001") []) 5
                    (Composer.with_input (literal "hello") Composer.initial)))
            (snd (Composer.answered 0 (Composer.Failed TypeError) 9
                    (snd (Composer.handleSubmit
                            (Composer.mkProps (literal "1700000000001") [])
                            5
                            (Composer.with_input (literal "hello")
                               Composer.initial))))))
         (fun _ _ => 10) st2
       = Normal st3
    /\ forall s,
         In s (AppSessions.sessions st3) ->
         ChatSession.id s = literal "1700000000001" ->
         ChatSession.messages s
         = [] ++ [Composer.userMessage
                    (Composer.with_input (literal "hello") Composer.initial)
                    5; m].
Proof.
  assert (H1 : exists st1,
             deliver
               (new_updates
                  (Composer.with_input (literal "hello") Composer.initial)
                  (snd (Composer.handleSubmit
                          (Composer.mkProps (literal "1700000000001") []) 5
                          (Composer.with_input (literal "hello")
                             Composer.initial))))
               (fun _ _ => 6) AppSessions.two_chats
             = Normal st1) by (eexists; reflexivity).
  destruct H1 as [st1 H1].
  assert (H2 : AppSessions.run [AppSessions.Select 1] st1
               = Normal (AppSessions.selectSession 1 st1)) by reflexivity.
  destruct (an_exchange_lands_in_its_chat
              (AppSessions.sessions AppSessions.two_chats) []
              AppSessions.two_chats
              (Composer.mkProps (literal "1700000000001") [])
              (Composer.with_input (literal "hello") Composer.initial)
              5 (fun _ _ => 6) st1 [AppSessions.Select 1]
              (AppSessions.selectSession 1 st1)
              (Composer.Failed TypeError) 9 (fun _ _ => 10))
    as (m & st3 & H3 & _ & _ & _ & _ & H4).
  - reflexivity.
  - reflexivity.
  - constructor.
  - reflexivity.
  - constructor.
  - exact H1.
  - intros other [H | []]. discriminate H.
  - exact H2.
  - exists st1, (AppSessions.selectSession 1 st1), m, st3.
    split; [exact H1 |]. split; [exact H2 |]. split; [exact H3 | exact H4].
Defined.

End WiringFacts.
